(** * Detection preprocessing of the Hailo model zoo: a shallow embedding

    Source: [hailo_model_zoo/core/preprocessing/detection_preprocessing.py].

    The Python functions are translated into Rocq functions over
    - an arithmetic model of IEEE 754 binary floating point (module [IEEE]):
      every operation returns the exact rational result rounded to nearest,
      ties to even, in the given format (binary32 for tensors, binary64 for
      Python floats);
    - row-major tensors with an explicit shape (module [Tensor]);
    - a state-and-exception monad whose state is the caller's [image_info]
      dictionary, a [gmap] from key strings to tensor values.

    Kernels that live in the tensor runtime or in the image library
    (resizing, border copying, ROI align, power) are fields of the class
    [Runtime]; the argument checks that make the resize kernels raise are
    written out ([resize_images], [resize_cv2]). *)

From stdpp Require Import gmap strings list.
From Stdlib Require Import ZArith QArith Qround Qabs Qpower Qreduction Lqa Lia.
From Stdlib Require Import Floats.SpecFloat.

Close Scope Q_scope.

(* ===================================================================== *)
(** * Part I: definitions *)
(* ===================================================================== *)

(** ** IEEE 754 binary arithmetic on rationals *)

Module IEEE.
Local Open Scope Q_scope.

Definition pow2 (e : Z) : Q := (2 ^ e)%Q.

(** [mag x] is the exponent [e] with [2^(e-1) <= |x| < 2^e], for [x <> 0]. *)
Definition mag (x : Q) : Z :=
  let n := Z.abs (Qnum x) in
  let d := Z.pos (Qden x) in
  let k := (Z.log2 n - Z.log2 d)%Z in
  if Qle_bool (pow2 k) (Qabs x) then (k + 1)%Z else k.

(** Nearest integer, ties to the even one: the rounding of the significand,
    and also Python's [round] on a float. *)
Definition round_half_even (x : Q) : Z :=
  let f := Qfloor x in
  match Qcompare (x - inject_Z f) (1 # 2) with
  | Lt => f
  | Eq => if Z.even f then f else (f + 1)%Z
  | Gt => (f + 1)%Z
  end.

(** Truncation toward zero: the C conversion of a float to an integer. *)
Definition Qtrunc (x : Q) : Z :=
  if Qle_bool 0 x then Qfloor x else Qceiling x.

Definition Qltb (x y : Q) : bool := negb (Qle_bool y x).

(** A float is a NaN, an infinity or a finite number, kept as the rational it
    denotes.  Zero has one representation: the sign of zero is not tracked
    (a division by zero takes the sign of its numerator). *)
Inductive float : Type :=
  | NaN
  | Inf (negative : bool)
  | Fin (q : Q).

Section Format.
(** [prec] bits of significand, infinities at exponent [emax]:
    binary32 is [24, 128] and binary64 is [53, 1024]. *)
Variables prec emax : Z.

Definition emin : Z := (3 - emax - prec)%Z.

Definition fexp (e : Z) : Z := Z.max (e - prec) emin.

  (** Unit in the last place of the binade of [x]. *)
Definition ulp (x : Q) : Q := pow2 (fexp (mag x)).

  (** Round to nearest, ties to even, with gradual underflow and unbounded
      exponent range above. *)
Definition rnd (x : Q) : Q :=
    if Qeq_bool x 0 then 0%Q
    else Qred (inject_Z (round_half_even (x / ulp x)) * ulp x).

  (** Rounding followed by the overflow test. *)
Definition round_fin (x : Q) : float :=
    let r := rnd x in
    if Qle_bool (pow2 emax) (Qabs r) then Inf (Qltb r 0) else Fin r.

Definition of_Z (n : Z) : float := round_fin (inject_Z n).

Definition fneg (x : float) : float :=
    match x with
    | NaN => NaN
    | Inf s => Inf (negb s)
    | Fin a => Fin (Qred (- a))
    end.

Definition fabs (x : float) : float :=
    match x with
    | NaN => NaN
    | Inf _ => Inf false
    | Fin a => Fin (Qred (Qabs a))
    end.

Definition fadd (x y : float) : float :=
    match x, y with
    | NaN, _ | _, NaN => NaN
    | Fin a, Fin b => round_fin (a + b)
    | Inf s, Fin _ | Fin _, Inf s => Inf s
    | Inf s, Inf t => if Bool.eqb s t then Inf s else NaN
    end.

Definition fsub (x y : float) : float := fadd x (fneg y).

Definition fmul (x y : float) : float :=
    match x, y with
    | NaN, _ | _, NaN => NaN
    | Fin a, Fin b => round_fin (a * b)
    | Inf s, Fin b | Fin b, Inf s =>
        if Qeq_bool b 0 then NaN else Inf (xorb s (Qltb b 0))
    | Inf s, Inf t => Inf (xorb s t)
    end.

Definition fdiv (x y : float) : float :=
    match x, y with
    | NaN, _ | _, NaN => NaN
    | Fin a, Fin b =>
        if Qeq_bool b 0
        then (if Qeq_bool a 0 then NaN else Inf (Qltb a 0))
        else round_fin (a / b)
    | Fin _, Inf _ => Fin 0
    | Inf s, Fin b => Inf (xorb s (Qltb b 0))
    | Inf _, Inf _ => NaN
    end.
End Format.

Definition fcompare (x y : float) : option comparison :=
  match x, y with
  | NaN, _ | _, NaN => None
  | Inf s, Inf t =>
      Some (match s, t with
            | true, false => Lt
            | false, true => Gt
            | _, _ => Eq
            end)
  | Inf s, Fin _ => Some (if s then Lt else Gt)
  | Fin _, Inf t => Some (if t then Gt else Lt)
  | Fin a, Fin b => Some (Qcompare a b)
  end.

Definition flt (x y : float) : bool :=
  match fcompare x y with Some Lt => true | _ => false end.

Definition fle (x y : float) : bool :=
  match fcompare x y with Some (Lt | Eq) => true | _ => false end.

Definition fge (x y : float) : bool := fle y x.

Definition fgt (x y : float) : bool := flt y x.

(** Element-wise minimum and maximum of the tensor runtime: a NaN operand
    gives NaN. *)
Definition fmin (x y : float) : float :=
  match fcompare x y with
  | None => NaN
  | Some Gt => y
  | Some _ => x
  end.

Definition fmax (x y : float) : float :=
  match fcompare x y with
  | None => NaN
  | Some Lt => y
  | Some _ => x
  end.

(** The floor of a float is a float of the same format. *)
Definition ffloor (x : float) : float :=
  match x with
  | Fin a => Fin (inject_Z (Qfloor a))
  | _ => x
  end.

Definition is_finite (x : float) : bool :=
  match x with Fin _ => true | _ => false end.

Definition is_nan (x : float) : bool :=
  match x with NaN => true | _ => false end.

(** Conversion to a 32-bit signed integer, toward zero.  What the hardware
    conversion returns for a NaN, an infinity or a value out of range is the
    most negative integer. *)
Definition to_int32 (x : float) : Z :=
  match x with
  | Fin a =>
      let n := Qtrunc a in
      if ((- 2 ^ 31 <=? n) && (n <? 2 ^ 31))%Z then n else (- 2 ^ 31)%Z
  | _ => (- 2 ^ 31)%Z
  end.

(** Conversion to an unsigned byte keeps the low eight bits. *)
Definition to_uint8 (x : float) : Z := (to_int32 x mod 256)%Z.

(** The value of a float of the Standard Library's executable specification
    [SpecFloat], used to compare the two models on sample operands. *)
Definition of_spec_float (x : spec_float) : float :=
  match x with
  | S754_zero _ => Fin 0
  | S754_infinity s => Inf s
  | S754_nan => NaN
  | S754_finite s m e =>
      Fin (Qred ((if s then - 1 else 1) * inject_Z (Z.pos m) * pow2 e))
  end.

End IEEE.

(** Binary32: the element type of float tensors. *)
Module F32.
Definition prec : Z := 24.
Definition emax : Z := 128.
Definition rnd : Q -> Q := IEEE.rnd prec emax.
Definition of_Q : Q -> IEEE.float := IEEE.round_fin prec emax.
Definition of_Z : Z -> IEEE.float := IEEE.of_Z prec emax.
Definition add := IEEE.fadd prec emax.
Definition sub := IEEE.fsub prec emax.
Definition mul := IEEE.fmul prec emax.
Definition div := IEEE.fdiv prec emax.
End F32.

(** Binary64: Python's [float]. *)
Module F64.
Definition prec : Z := 53.
Definition emax : Z := 1024.
Definition rnd : Q -> Q := IEEE.rnd prec emax.
Definition of_Q : Q -> IEEE.float := IEEE.round_fin prec emax.
Definition of_Z : Z -> IEEE.float := IEEE.of_Z prec emax.
Definition add := IEEE.fadd prec emax.
Definition sub := IEEE.fsub prec emax.
Definition mul := IEEE.fmul prec emax.
Definition div := IEEE.fdiv prec emax.
End F64.

(** ** Errors raised by the interpreter and by the tensor runtime *)

Inductive exn : Type :=
  | KeyError (key : string)
  | UnboundLocalError (name : string)
  | TypeError
  | ValueError
  | IndexError
  | ZeroDivisionError
  | OverflowError
  | InvalidArgumentError
  | Cv2Error
  | NotModelled.

(** Computations that may raise. *)
Definition E (A : Type) : Type := exn + A.

Definition E_ret {A} (x : A) : E A := inr x.

Definition E_bind {A B} (m : E A) (f : A -> E B) : E B :=
  match m with
  | inl e => inl e
  | inr x => f x
  end.

#[global] Instance E_mret : MRet E := @E_ret.
#[global] Instance E_mbind : MBind E := fun A B f m => E_bind m f.
#[global] Instance E_fmap : FMap E := fun A B f m => E_bind m (fun x => inr (f x)).

(** ** Row-major tensors *)

Module Tensor.

Record tensor (A : Type) : Type := Tensor { shape : list nat; data : list A }.
Arguments Tensor {A} shape data.
Arguments shape {A} t.
Arguments data {A} t.

Definition numel (s : list nat) : nat := foldr Nat.mul 1%nat s.

Definition rank {A} (t : tensor A) : nat := length (shape t).

Definition scalar {A} (x : A) : tensor A := Tensor [] [x].

Definition vector {A} (l : list A) : tensor A := Tensor [length l] l.

(** Unary element-wise operation, and binary operation with a scalar. *)
Definition tmap {A B} (f : A -> B) (t : tensor A) : tensor B :=
  Tensor (shape t) (f <$> data t).

(** Binary element-wise operation.  Of the broadcasting rules the model has
    the two the preprocessing uses: a rank-0 operand is applied to every entry
    of the other one, and operands of one shape are combined entry by entry.
    Other pairs of shapes are outside the model. *)
Definition bcast2 {A B C} (f : A -> B -> C) (a : tensor A) (b : tensor B)
  : E (tensor C) :=
  match shape b, data b with
  | [], [y] => inr (tmap (λ x, f x y) a)
  | _, _ =>
      match shape a, data a with
      | [], [x] => inr (tmap (f x) b)
      | _, _ =>
          if decide (shape a = shape b)
          then inr (Tensor (shape a) (zip_with f (data a) (data b)))
          else inl NotModelled
      end
  end.

(** The entry of a rank-0 tensor. *)
Definition item {A} (t : tensor A) : E A :=
  match shape t, data t with
  | [], [x] => inr x
  | _, _ => inl NotModelled
  end.

(** [tf.shape(t)[i]] *)
Definition dim {A} (t : tensor A) (i : nat) : E Z :=
  match shape t !! i with
  | Some d => inr (Z.of_nat d)
  | None => inl InvalidArgumentError
  end.

(** [tf.expand_dims(t, axis)] for a non-negative axis. *)
Definition expand_dims {A} (t : tensor A) (axis : nat) : E (tensor A) :=
  if decide (axis ≤ rank t)%nat
  then inr (Tensor (take axis (shape t) ++ 1%nat :: drop axis (shape t)) (data t))
  else inl InvalidArgumentError.

(** [tf.squeeze(t)]: every axis of extent one is removed. *)
Definition squeeze {A} (t : tensor A) : tensor A :=
  Tensor (filter (λ d, d ≠ 1%nat) (shape t)) (data t).

(** [tf.squeeze(t, [0])]: the leading axis must have extent one. *)
Definition squeeze0 {A} (t : tensor A) : E (tensor A) :=
  match shape t with
  | 1%nat :: s => inr (Tensor s (data t))
  | _ => inl InvalidArgumentError
  end.

(** [k] consecutive blocks of [n] entries. *)
Fixpoint chunks {A} (n k : nat) (l : list A) : list (list A) :=
  match k with
  | O => []
  | S k' => take n l :: chunks n k' (drop n l)
  end.

Definition padded_shape (s : list nat) (p : list (nat * nat)) : list nat :=
  zip_with (λ d ba, (ba.1 + d + ba.2)%nat) s p.

Fixpoint pad_data {A} (c : A) (s : list nat) (p : list (nat * nat))
    (l : list A) : list A :=
  match s, p with
  | d :: s', (b, a) :: p' =>
      let inner := numel (padded_shape s' p') in
      replicate (b * inner) c
        ++ concat (pad_data c s' p' <$> chunks (numel s') d l)
        ++ replicate (a * inner) c
  | _, _ => l
  end.

(** [tf.pad(t, paddings, "CONSTANT", constant_values=c)]: one pair
    (before, after) per axis; a negative amount is rejected by the runtime. *)
Definition pad {A} (t : tensor A) (paddings : list (Z * Z)) (c : A)
  : E (tensor A) :=
  if decide (length paddings = rank t)
  then
    if forallb (λ ba, (0 <=? ba.1)%Z && (0 <=? ba.2)%Z) paddings
    then
      let p := (λ ba : Z * Z, (Z.to_nat ba.1, Z.to_nat ba.2)) <$> paddings in
      inr (Tensor (padded_shape (shape t) p) (pad_data c (shape t) p (data t)))
    else inl InvalidArgumentError
  else inl InvalidArgumentError.

(** The rows of a rank-2 tensor. *)
Definition rows {A} (t : tensor A) : option (list (list A)) :=
  match shape t with
  | [n; c] => Some (chunks c n (data t))
  | _ => None
  end.

(** [tf.concat(ts, axis=1)] of rank-2 tensors with the same number of rows. *)
Definition concat1 {A} (ts : list (tensor A)) : E (tensor A) :=
  match ts with
  | [] => inl InvalidArgumentError
  | t0 :: _ =>
      match shape t0 with
      | [n; _] =>
          if forallb (λ t, bool_decide (rank t = 2%nat ∧ shape t !! 0%nat = Some n)) ts
          then
            let cols := sum_list ((λ t, default 0%nat (shape t !! 1%nat)) <$> ts) in
            let rs := (λ t, default [] (rows t)) <$> ts in
            inr (Tensor [n; cols]
                   (concat (foldr (zip_with app) (replicate n []) rs)))
          else inl InvalidArgumentError
      | _ => inl InvalidArgumentError
      end
  end.

(** [tf.repeat(t, repeats=[n], axis=0)]: a scalar is first made a vector of
    length one; every slice along axis 0 is then repeated [n] times. *)
Definition repeat0 {A} (t : tensor A) (n : Z) : E (tensor A) :=
  if (n <? 0)%Z then inl InvalidArgumentError
  else
    let k := Z.to_nat n in
    match shape t with
    | [] => inr (Tensor [k] (concat ((λ x, replicate k x) <$> data t)))
    | d :: s =>
        inr (Tensor ((k * d)%nat :: s)
               (concat ((λ blk, concat (replicate k blk))
                          <$> chunks (numel s) d (data t))))
    end.

(** [t[:, :, ::-1]]: the last axis of a rank-3 array reversed. *)
Definition reverse_channels {A} (t : tensor A) : E (tensor A) :=
  match shape t with
  | [h; w; c] =>
      inr (Tensor [h; w; c] (concat (reverse <$> chunks c (h * w) (data t))))
  | _ => inl IndexError
  end.

End Tensor.

(** ** Values of the annotation bundle *)

Import IEEE Tensor.

(** What a key of [image_info] can hold: Python's [None], a Python integer,
    or a tensor of one of the runtime's element types (unsigned bytes,
    signed integers, binary32 floats, strings). *)
Inductive value : Type :=
  | VNone
  | VInt (n : Z)
  | VU8 (t : tensor Z)
  | VI (t : tensor Z)
  | VF (t : tensor float)
  | VS (t : tensor string).

Definition wrap32 (n : Z) : Z := ((n + 2 ^ 31) mod 2 ^ 32 - 2 ^ 31)%Z.

(** [tf.cast(v, tf.float32)] *)
Definition cast_float32 (v : value) : E (tensor float) :=
  match v with
  | VNone => inl ValueError
  | VInt n => inr (scalar (F32.of_Z n))
  | VU8 t | VI t => inr (tmap F32.of_Z t)
  | VF t => inr t
  | VS _ => inl InvalidArgumentError
  end.

(** [tf.cast(v, tf.uint8)] *)
Definition cast_uint8 (v : value) : E (tensor Z) :=
  match v with
  | VNone => inl ValueError
  | VInt n => inr (scalar (n mod 256)%Z)
  | VU8 t => inr t
  | VI t => inr (tmap (λ n, n mod 256)%Z t)
  | VF t => inr (tmap to_uint8 t)
  | VS _ => inl InvalidArgumentError
  end.

(** [tf.cast(v, tf.int32)] *)
Definition cast_int32 (v : value) : E (tensor Z) :=
  match v with
  | VNone => inl ValueError
  | VInt n => inr (scalar (wrap32 n))
  | VU8 t => inr t
  | VI t => inr (tmap wrap32 t)
  | VF t => inr (tmap to_int32 t)
  | VS _ => inl InvalidArgumentError
  end.

(** A Python integer argument that may have been left at its default. *)
Definition py_int (n : option Z) : value :=
  match n with
  | Some k => VInt k
  | None => VNone
  end.

(** Python's truth value of an integer argument. *)
Definition truthy (n : option Z) : bool :=
  match n with
  | Some k => negb (k =? 0)%Z
  | None => false
  end.

(** [tf.clip_by_value(t, lo, hi)] is [maximum(minimum(t, hi), lo)]. *)
Definition clip_by_value (t : tensor float) (lo hi : float) : tensor float :=
  tmap (λ x, fmax (fmin x hi) lo) t.

(** ** Kernels of the tensor runtime and of the image library *)

Inductive resize_method : Type := Bilinear | Bicubic | Area.

Class Runtime : Type := {
  (** [tf.compat.v1.image.resize_bilinear], [resize_bicubic] and
      [resize_area] of a batch of images, with the [align_corners] flag
      and the target height and width *)
  tf_resize : resize_method -> bool -> tensor float -> Z -> Z -> tensor float;
  (** [tf.compat.v1.image.resize_image_with_pad], which raises when the
      size it resizes to before padding is rejected by the resize kernel *)
  tf_resize_image_with_pad : tensor float -> Z -> Z -> E (tensor float);
  (** [cv2.resize(img, (width, height), interpolation=cv2.INTER_AREA)] *)
  cv2_resize : tensor Z -> Z -> Z -> tensor Z;
  (** [cv2.copyMakeBorder(img, top, bottom, left, right,
      cv2.BORDER_CONSTANT, value=color)] *)
  cv2_copyMakeBorder : tensor Z -> Z -> Z -> Z -> Z -> list Q -> tensor Z;
  (** [ROIAlignWrapper()] applied to the feature map and the proposals *)
  roi_align : tensor float -> value -> tensor float;
  (** [tf.pow] on two binary32 numbers; nothing is assumed of how the kernel
      rounds *)
  tf_pow : float -> float -> float;
}.

(** The resize kernels of the tensor runtime check their arguments: the batch
    must have four axes, the images must have rows and columns, and both
    target sizes must be positive, or the call raises
    [InvalidArgumentError]. *)
Definition resize_images `{Runtime} (m : resize_method) (align_corners : bool)
    (images : tensor float) (height width : Z) : E (tensor float) :=
  match shape images with
  | [_; h; w; _] =>
      if (0 <? height)%Z && (0 <? width)%Z
         && (0 <? Z.of_nat h)%Z && (0 <? Z.of_nat w)%Z
      then inr (tf_resize m align_corners images height width)
      else inl InvalidArgumentError
  | _ => inl InvalidArgumentError
  end.

(** [cv2.resize(img, (width, height), interpolation=cv2.INTER_AREA)] raises
    [cv2.error] unless both sides of the requested size are positive. *)
Definition resize_cv2 `{Runtime} (img : tensor Z) (width height : Z)
  : E (tensor Z) :=
  if (0 <? width)%Z && (0 <? height)%Z
  then inr (cv2_resize img width height)
  else inl Cv2Error.

(** ** The interpreter: state and exceptions

    The state is the object bound to [image_info]: [None], or the caller's
    dictionary, which the functions update in place and hand back. *)

Abbreviation bundle := (gmap string value).

Definition M (A : Type) : Type := option bundle -> E A * option bundle.

Definition M_ret {A} (x : A) : M A := λ s, (inr x, s).

Definition M_bind {A B} (m : M A) (f : A -> M B) : M B :=
  λ s, match m s with
       | (inr x, s') => f x s'
       | (inl e, s') => (inl e, s')
       end.

#[global] Instance M_mret : MRet M := @M_ret.
#[global] Instance M_mbind : MBind M := fun A B f m => M_bind m f.

Definition raise {A} (e : exn) : M A := λ s, (inl e, s).

(** A call into the runtime. *)
Definition call {A} (m : E A) : M A := λ s, (m, s).

(** [image_info[key] = v] *)
Definition setitem (key : string) (v : value) : M unit :=
  λ s, match s with
       | Some d => (inr (), Some (<[key := v]> d))
       | None => (inl TypeError, None)
       end.

(** [image_info[key]] *)
Definition getitem (key : string) : M value :=
  λ s, match s with
       | Some d =>
           match d !! key with
           | Some v => (inr v, s)
           | None => (inl (KeyError key), s)
           end
       | None => (inl TypeError, None)
       end.

(** [image_info.pop(key)] *)
Definition pop (key : string) : M value :=
  λ s, match s with
       | Some d =>
           match d !! key with
           | Some v => (inr v, Some (delete key d))
           | None => (inl (KeyError key), s)
           end
       | None => (inl TypeError, None)
       end.

(** [key in image_info] *)
Definition contains (key : string) : M bool :=
  λ s, match s with
       | Some d => (inr (bool_decide (is_Some (d !! key))), s)
       | None => (inl TypeError, None)
       end.

(** The truth value of [image_info]: a dictionary with at least one key. *)
Definition has_info : M bool :=
  λ s, match s with
       | Some d => (inr (bool_decide (d ≠ ∅)), s)
       | None => (inr false, None)
       end.

(** [image_info and key in image_info.keys()] *)
Definition has_info_with (key : string) : M bool :=
  b ← has_info; if b : bool then contains key else mret false.

(** Reading a local variable that is bound on one branch only. *)
Definition local {A} (name : string) (v : option A) : M A :=
  match v with
  | Some x => mret x
  | None => raise (UnboundLocalError name)
  end.

(** ** Python numbers in [letterbox] *)

(** [float(n)] *)
Definition py_float (n : Z) : E float :=
  match F64.of_Z n with
  | Fin q => inr (Fin q)
  | _ => inl OverflowError
  end.

Definition py_is_zero (x : float) : bool :=
  match x with
  | Fin q => Qeq_bool q 0
  | _ => false
  end.

(** [x / n] for a float [x] and an integer [n] *)
Definition py_truediv (x : float) (n : Z) : E float :=
  d ← py_float n;
  if py_is_zero d then inl ZeroDivisionError else inr (F64.div x d).

(** [a / b] for two integers: the exact quotient, rounded once *)
Definition py_int_truediv (a b : Z) : E float :=
  if (b =? 0)%Z then inl ZeroDivisionError
  else match F64.of_Q (inject_Z a / inject_Z b) with
       | Fin q => inr (Fin q)
       | _ => inl OverflowError
       end.

(** [n * x] for an integer [n] and a float [x] *)
Definition py_int_mul (n : Z) (x : float) : E float :=
  d ← py_float n; inr (F64.mul d x).

(** [min(a, b)] keeps its first argument unless the second is smaller. *)
Definition py_min (a b : float) : float := if flt b a then b else a.

(** [round(x)] *)
Definition py_round (x : float) : E Z :=
  match x with
  | Fin q => inr (round_half_even q)
  | Inf _ => inl OverflowError
  | NaN => inl ValueError
  end.

(** [img.shape[i]] *)
Definition np_dim {A} (img : tensor A) (i : nat) : E Z :=
  match shape img !! i with
  | Some d => inr (Z.of_nat d)
  | None => inl IndexError
  end.

(** The literal [0.1]. *)
Definition py_0_1 : float := F64.of_Q (1 # 10).

(** ** The source functions *)

Definition MAX_PADDING_LENGTH : Z := 100.

(** The constant [-1] in each element type that [tf.pad] can fill with. *)
Class Sentinel (A : Type) : Type := minus_one : A.
#[global] Instance Sentinel_Z : Sentinel Z := (-1)%Z.
#[global] Instance Sentinel_float : Sentinel float := Fin (- 1).

Definition _pad_tensor {A} `{Sentinel A} (x : tensor A)
    (max_tensor_padding : Z) : E (tensor A) :=
  n ← dim x 0;
  let paddings := [(0, 0); (0, max_tensor_padding - n)]%Z in
  x' ← expand_dims x 0;
  p ← pad x' paddings minus_one;
  mret (squeeze p).

(** The constant [-1] as an unsigned byte: it wraps around to [255]. *)
Definition minus_one_uint8 : Sentinel Z := 255%Z.

(** [_pad_tensor] on a value of the bundle. *)
Definition pad_value (v : value) (max_tensor_padding : Z) : E value :=
  match v with
  | VU8 t => VU8 <$> @_pad_tensor Z minus_one_uint8 t max_tensor_padding
  | VI t => VI <$> _pad_tensor t max_tensor_padding
  | VF t => VF <$> _pad_tensor t max_tensor_padding
  | VNone => inl ValueError
  | VInt _ => inl InvalidArgumentError
  | VS _ => inl TypeError
  end.

(** [tf.expand_dims] on a value of the bundle. *)
Definition expand_value (v : value) (axis : nat) : E value :=
  match v with
  | VU8 t => VU8 <$> expand_dims t axis
  | VI t => VI <$> expand_dims t axis
  | VF t => VF <$> expand_dims t axis
  | VS t => VS <$> expand_dims t axis
  | VInt n => VI <$> expand_dims (scalar n) axis
  | VNone => inl ValueError
  end.

(** Box coordinates are binary32 tensors; other element types are outside
    the model. *)
Definition as_float (v : value) : E (tensor float) :=
  match v with
  | VF t => inr t
  | _ => inl NotModelled
  end.

(** [x * s] where [s] is a float tensor, or the Python integer [1]. *)
Definition scale (x : tensor float) (s : option (tensor float))
  : E (tensor float) :=
  match s with
  | Some k => bcast2 F32.mul x k
  | None => inr (tmap (λ a, F32.mul a (F32.of_Z 1)) x)
  end.

Definition _extract_box_from_image_info (max_padding_length : Z)
    (is_normalized : bool)
  : M (tensor float * tensor float * tensor float * tensor float) :=
  horizontal_scale ←
    (if is_normalized
     then v ← getitem "width"; t ← call (cast_float32 v); mret (Some t)
     else mret None);
  vertical_scale ←
    (if is_normalized
     then v ← getitem "height"; t ← call (cast_float32 v); mret (Some t)
     else mret None);
  let column (v : value) (s : option (tensor float)) : E (tensor float) :=
    x ← as_float v;
    y ← scale x s;
    p ← _pad_tensor y max_padding_length;
    expand_dims p 1 in
  xmin ← (v ← pop "xmin"; call (column v horizontal_scale));
  xmax ← (v ← pop "xmax"; call (column v horizontal_scale));
  ymin ← (v ← pop "ymin"; call (column v vertical_scale));
  ymax ← (v ← pop "ymax"; call (column v vertical_scale));
  mret (xmin, xmax, ymin, ymax).

Definition _cast_image_info_types (image : value) (max_padding_length : Z)
  : M unit :=
  (t ← call (cast_uint8 image); setitem "img_orig" (VU8 t));;
  b ← contains "num_boxes";
  (if b : bool
   then v ← getitem "num_boxes"; t ← call (cast_int32 v);
        setitem "num_boxes" (VI t)
   else mret ());;
  b ← contains "category_id";
  (if b : bool
   then v ← getitem "category_id"; p ← call (pad_value v max_padding_length);
        setitem "category_id" p
   else mret ());;
  b ← contains "is_crowd";
  (if b : bool
   then v ← getitem "is_crowd"; p ← call (pad_value v max_padding_length);
        setitem "is_crowd" p
   else mret ()).

Section Functions.
Context `{Runtime}.

Definition centernet_resnet_v1_18_detection (image : value)
    (height width : option Z) (max_pad : Z) : M value :=
  setitem "img_orig" image;;
  image ← call (cast_float32 image);
  image ←
    (if truthy height && truthy width
     then call (tf_resize_image_with_pad image (default 0%Z height)
                  (default 0%Z width))
     else mret image);
  b ← has_info_with "num_boxes";
  if b : bool then
    _cast_image_info_types (VF image) MAX_PADDING_LENGTH;;
    h ← (v ← getitem "height"; call (cast_float32 v));
    w ← (v ← getitem "width"; call (cast_float32 v));
    H ← call (cast_float32 (py_int height));
    W ← call (cast_float32 (py_int width));
    H_ratio ← call (bcast2 F32.div H h);
    W_ratio ← call (bcast2 F32.div W w);
    im_resize_ratio ← call (bcast2 fmin H_ratio W_ratio);
    let indicator (a b : float) : float :=
      if flt a b then F32.of_Z 1 else F32.of_Z 0 in
    is_w_padded ← call (bcast2 indicator H_ratio W_ratio);
    is_h_padded ← call (bcast2 indicator W_ratio H_ratio);
    let half := F32.of_Q (1 # 2) in
    w_padding ←
      call (a ← (wr ← bcast2 F32.mul w im_resize_ratio;
                 d ← bcast2 F32.sub W wr;
                 mret (tmap (fabs) d));
            p ← bcast2 F32.mul (tmap (F32.mul half) is_w_padded) a;
            mret (tmap ffloor p));
    h_padding ←
      call (a ← (hr ← bcast2 F32.mul h im_resize_ratio;
                 d ← bcast2 F32.sub H hr;
                 mret (tmap (fabs) d));
            p ← bcast2 F32.mul (tmap (F32.mul half) is_h_padded) a;
            mret (tmap ffloor p));
    '(xmin, xmax, ymin, ymax) ← _extract_box_from_image_info max_pad true;
    let move (x pad : tensor float) : E (tensor float) :=
      y ← bcast2 F32.mul x im_resize_ratio; bcast2 F32.add y pad in
    xmin ← call (move xmin w_padding);
    xmax ← call (move xmax w_padding);
    ymin ← call (move ymin h_padding);
    ymax ← call (move ymax h_padding);
    let clip (x : tensor float) (n : option Z) : E (tensor float) :=
      match n with
      | Some k => inr (clip_by_value x (F32.of_Z 0) (F32.of_Z (k - 1)))
      | None => inl TypeError
      end in
    xmin ← call (clip xmin width);
    xmax ← call (clip xmax width);
    ymin ← call (clip ymin height);
    ymax ← call (clip ymax height);
    w ← call (bcast2 F32.sub xmax xmin);
    h ← call (bcast2 F32.sub ymax ymin);
    setitem "height" (py_int height);;
    setitem "width" (py_int width);;
    (bbox ← call (concat1 [xmin; ymin; w; h]); setitem "bbox" (VF bbox));;
    (a ← getitem "area";
     e ← call (let r2 := tmap (λ r, tf_pow r (F32.of_Z 2)) im_resize_ratio in
               x ← as_float a;
               y ← bcast2 F32.mul r2 x;
               p ← _pad_tensor y max_pad;
               expand_dims p 1);
     setitem "area" (VF e));;
    mret (VF image)
  else mret (VF image).

(** The tail shared by the annotation paths that keep the boxes as extracted:
    [w = xmax - xmin], [h = ymax - ymin] and
    [image_info['bbox'] = tf.concat([xmin, ymin, w, h], axis=1)]. *)
Definition assign_bbox
    (box : tensor float * tensor float * tensor float * tensor float)
  : M unit :=
  let '(xmin, xmax, ymin, ymax) := box in
  w ← call (bcast2 F32.sub xmax xmin);
  h ← call (bcast2 F32.sub ymax ymin);
  bbox ← call (concat1 [xmin; ymin; w; h]);
  setitem "bbox" (VF bbox).

(** [image_info['area'] = tf.expand_dims(_pad_tensor(image_info['area'], n),
    axis=1)] *)
Definition assign_area (max_tensor_padding : Z) : M unit :=
  a ← getitem "area";
  e ← call (p ← pad_value a max_tensor_padding; expand_value p 1);
  setitem "area" e.

(** [tf.shape(image)[i]] *)
Definition image_dim (image : value) (i : nat) : E Z :=
  match image with
  | VU8 t | VI t => dim t i
  | VF t => dim t i
  | VS t => dim t i
  | VInt _ => inl InvalidArgumentError
  | VNone => inl ValueError
  end.

(** A resize kernel applied to one image: a batch axis is added before and
    removed after. *)
Definition resize_one (m : resize_method) (align_corners : bool)
    (image : tensor float) (height width : Z) : E (tensor float) :=
  image ← expand_dims image 0;
  image ← resize_images m align_corners image height width;
  squeeze0 image.

Definition yolo_v3 (image : value) (height width : option Z) : M value :=
  image ← call (cast_float32 image);
  (n ← call (dim image 0); setitem "height" (VI (scalar n)));;
  (n ← call (dim image 1); setitem "width" (VI (scalar n)));;
  image ←
    (if truthy height && truthy width then
       let height := default 0%Z height in
       let width := default 0%Z width in
       image ← call (expand_dims image 0);
       h0 ← (v ← getitem "height"; call (match v with
                                         | VI t => item t
                                         | _ => inl NotModelled
                                         end));
       w0 ← (v ← getitem "width"; call (match v with
                                        | VI t => item t
                                        | _ => inl NotModelled
                                        end));
       let is_enlarge := (h0 <? height)%Z && (w0 <? width)%Z in
       let is_shrink := (height <? h0)%Z && (width <? w0)%Z in
       let resize_shrink_or_other image height width :=
         if is_shrink
         then resize_images Area true image height width
         else resize_images Bilinear true image height width in
       image ←
         call (if is_enlarge
               then resize_images Bicubic true image height width
               else resize_shrink_or_other image height width);
       let image := clip_by_value image (F32.of_Z 0) (F32.of_Z 255) in
       call (squeeze0 image)
     else mret image);
  b ← has_info_with "num_boxes";
  if b : bool then
    _cast_image_info_types (VF image) MAX_PADDING_LENGTH;;
    box ← _extract_box_from_image_info MAX_PADDING_LENGTH true;
    assign_bbox box;;
    assign_area MAX_PADDING_LENGTH;;
    mret (VF image)
  else mret (VF image).

Definition resnet_v1_18_detection (image : value) (height width : option Z)
    (max_pad : Z) : M value :=
  image ← call (cast_float32 image);
  image ←
    (if truthy height && truthy width
     then call (resize_one Bilinear false image
                  (default 0%Z height) (default 0%Z width))
     else mret image);
  b ← has_info_with "num_boxes";
  if b : bool then
    _cast_image_info_types (VF image) MAX_PADDING_LENGTH;;
    box ← _extract_box_from_image_info max_pad true;
    assign_bbox box;;
    assign_area MAX_PADDING_LENGTH;;
    mret (VF image)
  else mret (VF image).

Definition regnet_detection (image : value) (height width : option Z)
    (max_pad : Z) : M value :=
  image ← call (cast_float32 image);
  image ←
    (if truthy height && truthy width
     then call (resize_one Bilinear true image
                  (default 0%Z height) (default 0%Z width))
     else mret image);
  b ← has_info_with "num_boxes";
  if b : bool then
    _cast_image_info_types (VF image) MAX_PADDING_LENGTH;;
    box ← _extract_box_from_image_info max_pad true;
    assign_bbox box;;
    assign_area MAX_PADDING_LENGTH;;
    mret (VF image)
  else mret (VF image).

Definition letterbox (img : tensor Z) (height width : Z) (color : list Q)
  : E (tensor Z * Z * Z) :=
  shape0 ← np_dim img 0;
  shape1 ← np_dim img 1;
  ratio ← (a ← (x ← py_float height; py_truediv x shape0);
           b ← (x ← py_float width; py_truediv x shape1);
           mret (py_min a b));
  new_width ← (x ← py_int_mul shape1 ratio; py_round x);
  new_height ← (x ← py_int_mul shape0 ratio; py_round x);
  dw ← py_int_truediv (width - new_width) 2;
  dh ← py_int_truediv (height - new_height) 2;
  top ← py_round (F64.sub dh py_0_1);
  bottom ← py_round (F64.add dh py_0_1);
  left ← py_round (F64.sub dw py_0_1);
  right ← py_round (F64.add dw py_0_1);
  img ← reverse_channels img;
  img ← resize_cv2 img new_width new_height;
  let img := cv2_copyMakeBorder img top bottom left right color in
  img ← reverse_channels img;
  mret (img, new_width, new_height).

(** [tf.py_func(letterbox, [image, height, width],
    [tf.uint8, tf.int64, tf.int64])]: the image comes back as unsigned
    bytes, which is what goes in. *)
Definition py_func_letterbox (image : value) (height width : Z)
    (color : list Q) : E (tensor Z * Z * Z) :=
  match image with
  | VU8 img => letterbox img height width color
  | _ => inl InvalidArgumentError
  end.

(** [if image.dtype == tf.uint8: image = tf.cast(image, tf.float32)] *)
Definition float_if_uint8 (image : value) : value :=
  match image with
  | VU8 t => VF (tmap F32.of_Z t)
  | _ => image
  end.

Definition yolo_v5 (image : value) (height width : option Z)
    (color : list Q) : M value :=
  '(image, image_height, image_width, new_width, new_height) ←
    ((if truthy height && truthy width then
        image_height ← call (image_dim image 0);
        image_width ← call (image_dim image 1);
        '(img, new_width, new_height) ←
          call (py_func_letterbox image (default 0%Z height)
                  (default 0%Z width) color);
        mret (VU8 img, Some image_height, Some image_width,
              Some new_width, Some new_height)
      else mret (image, None, None, None, None))
     : M (value * option Z * option Z * option Z * option Z));
  let image := float_if_uint8 image in
  (t ← call (cast_uint8 image); setitem "img_orig" (VU8 t));;
  b ← has_info_with "num_boxes";
  if b : bool then
    _cast_image_info_types image MAX_PADDING_LENGTH;;
    box ← _extract_box_from_image_info MAX_PADDING_LENGTH true;
    assign_bbox box;;
    (n ← local "image_height" image_height; setitem "height" (VI (scalar n)));;
    (n ← local "image_width" image_width; setitem "width" (VI (scalar n)));;
    assign_area MAX_PADDING_LENGTH;;
    (n ← local "new_height" new_height;
     setitem "letterbox_height" (VI (scalar n)));;
    (n ← local "new_width" new_width;
     setitem "letterbox_width" (VI (scalar n)));;
    (n ← local "new_width" new_width;
     setitem "horizontal_pad" (VI (scalar (default 0 width - n)%Z)));;
    (n ← local "new_height" new_height;
     setitem "vertical_pad" (VI (scalar (default 0 height - n)%Z)));;
    mret image
  else mret image.

(** [tf.image.convert_image_dtype(image, dtype=tf.float32)] of an image that
    is not float already: unsigned bytes are cast and multiplied by
    [1. / 255]. *)
Definition convert_image_dtype (image : value) : E (tensor float) :=
  match image with
  | VU8 t =>
      let scale := F32.of_Q (F64.rnd (1 / 255)) in
      inr (tmap (λ n, F32.mul (F32.of_Z n) scale) t)
  | _ => inl NotModelled
  end.

Definition mobilenet_ssd (image : value) (height width : option Z)
    (max_pad : Z) : M value :=
  let img_orig := image in
  image ← call (match image with
                | VF t => inr t
                | _ => convert_image_dtype image
                end);
  '(image, img_orig) ←
    (if truthy height && truthy width then
       let height := default 0%Z height in
       let width := default 0%Z width in
       image ← call (expand_dims image 0);
       image ← call (resize_images Bilinear false image height width);
       img_orig ← call (o ← cast_float32 img_orig;
                        o ← expand_dims o 0;
                        resize_images Bilinear false o height width);
       image ← call (squeeze0 image);
       mret (image, VF img_orig)
     else mret (image, img_orig));
  let image := tmap (λ x, F32.mul x (F32.of_Z 255)) image in
  b ← has_info_with "num_boxes";
  if b : bool then
    (t ← call (o ← (match img_orig with
                    | VU8 t => VU8 <$> squeeze0 t
                    | VI t => VI <$> squeeze0 t
                    | VF t => VF <$> squeeze0 t
                    | VS t => VS <$> squeeze0 t
                    | VInt _ => inl InvalidArgumentError
                    | VNone => inl ValueError
                    end);
               cast_uint8 o);
     setitem "img_orig" (VU8 t));;
    (v ← getitem "num_boxes"; t ← call (cast_int32 v);
     setitem "num_boxes" (VI t));;
    (v ← getitem "category_id"; p ← call (pad_value v max_pad);
     setitem "category_id" p);;
    (v ← getitem "is_crowd"; p ← call (pad_value v max_pad);
     setitem "is_crowd" p);;
    let column (key dimension : string) : M (tensor float) :=
      v ← pop key;
      d ← getitem dimension;
      call (x ← as_float v;
            k ← cast_float32 d;
            y ← bcast2 F32.mul x k;
            p ← _pad_tensor y max_pad;
            expand_dims p 1) in
    xmin ← column "xmin" "width";
    xmax ← column "xmax" "width";
    ymin ← column "ymin" "height";
    ymax ← column "ymax" "height";
    assign_bbox (xmin, xmax, ymin, ymax);;
    assign_area max_pad;;
    mret (VF image)
  else mret (VF image).

(** [tf.repeat(v, repeats=[n], axis=0)] on a value of the bundle, [n] being
    an integer scalar. *)
Definition tf_repeat (v : value) (repeats : value) : E value :=
  n ← (match repeats with
       | VInt n => inr n
       | VI t => item t
       | _ => inl InvalidArgumentError
       end);
  match v with
  | VU8 t => VU8 <$> repeat0 t n
  | VI t => VI <$> repeat0 t n
  | VF t => VF <$> repeat0 t n
  | VS t => VS <$> repeat0 t n
  | VInt k => VI <$> repeat0 (scalar k) n
  | VNone => inl ValueError
  end.

Definition faster_rcnn_stage2 (featuremap : value) (height width : option Z)
    (max_pad : Z) : M value :=
  rpn_boxes ← getitem "rpn_proposals";
  num_proposals ← pop "num_rpn_boxes";
  image_name ← pop "image_name";
  image_id ← pop "image_id";
  (v ← call (tf_repeat image_name num_proposals); setitem "image_name" v);;
  (v ← call (tf_repeat image_id num_proposals); setitem "image_id" v);;
  featuremap ← call (as_float featuremap);
  mret (VF (squeeze (roi_align featuremap rpn_boxes))).

(** What [_ar_preserving_resize_and_crop] returns, field by field. *)
Record ar_result : Type := ArResult {
  aspect_ratio_factor : float;
  ar_image : tensor float;
  image_height : Z;
  image_height_float : float;
  image_width : Z;
  image_width_float : float;
  new_height : Z;
  new_width : Z;
}.

Definition _ar_preserving_resize_and_crop (height : Z) (image : value)
    (width : Z) : E ar_result :=
  image_height ← image_dim image 0;
  image_width ← image_dim image 1;
  let target_height_float := F32.of_Z height in
  let target_width_float := F32.of_Z width in
  let image_height_float := F32.of_Z image_height in
  let image_width_float := F32.of_Z image_width in
  img_expanded ← (t ← cast_float32 image; expand_dims t 0);
  let basic_ratio := F32.div target_width_float target_height_float in
  let real_ratio := F32.div image_width_float image_height_float in
  let aspect_ratio_factor :=
    if fge real_ratio basic_ratio
    then F32.div target_width_float image_width_float
    else F32.div target_height_float image_height_float in
  let new_height := to_int32 (F32.mul aspect_ratio_factor image_height_float) in
  let new_width := to_int32 (F32.mul aspect_ratio_factor image_width_float) in
  image_resized ←
    resize_images Bilinear false img_expanded new_height new_width;
  padded_image ←
    pad image_resized
      [(0, 0); (0, height - new_height); (0, width - new_width); (0, 0)]%Z
      (F32.of_Z 0);
  image ← squeeze0 padded_image;
  mret (ArResult aspect_ratio_factor image image_height image_height_float
          image_width image_width_float new_height new_width).

Definition mobilenet_ssd_ar_preserving (image : value)
    (height width : option Z) (max_pad : Z) : M value :=
  r ← (if truthy height && truthy width
       then r ← call (_ar_preserving_resize_and_crop (default 0%Z height)
                        image (default 0%Z width));
            mret (Some r)
       else mret None);
  let image := from_option (λ r, VF (ar_image r)) image r in
  let image := float_if_uint8 image in
  b ← has_info;
  if b : bool then
    (t ← call (cast_uint8 image); setitem "img_orig" (VU8 t));;
    (v ← getitem "num_boxes"; t ← call (cast_int32 v);
     setitem "num_boxes" (VI t));;
    (v ← getitem "category_id"; p ← call (pad_value v max_pad);
     setitem "category_id" p);;
    (v ← getitem "is_crowd"; p ← call (pad_value v max_pad);
     setitem "is_crowd" p);;
    let column (key : string) (dimension : string)
        (size : ar_result -> float) : M (tensor float) :=
      v ← pop key;
      f ← local "aspect_ratio_factor" (aspect_ratio_factor <$> r);
      d ← local dimension (size <$> r);
      call (x ← as_float v;
            let y := tmap (λ a, F32.mul (F32.mul a f) d) x in
            p ← _pad_tensor y max_pad;
            expand_dims p 1) in
    xmin ← column "xmin" "image_width_float" image_width_float;
    xmax ← column "xmax" "image_width_float" image_width_float;
    ymin ← column "ymin" "image_height_float" image_height_float;
    ymax ← column "ymax" "image_height_float" image_height_float;
    w ← call (bcast2 F32.sub xmax xmin);
    h ← call (bcast2 F32.sub ymax ymin);
    setitem "height" (py_int height);;
    setitem "width" (py_int width);;
    (bbox ← call (concat1 [xmin; ymin; w; h]); setitem "bbox" (VF bbox));;
    b ← contains "area";
    (if b : bool then assign_area max_pad else mret ());;
    mret image
  else mret image.

Definition face_ssd (image : value) (height width : option Z) (max_pad : Z)
  : M value :=
  let image := float_if_uint8 image in
  '(image, image_height, image_width, new_height, new_width) ←
    ((if truthy height && truthy width then
        image_height ← call (image_dim image 0);
        image_width ← call (image_dim image 1);
        image ← call (t ← cast_float32 image;
                      resize_one Bilinear false t
                        (default 0%Z height) (default 0%Z width));
        mret (VF image, Some image_height, Some image_width, height, width)
      else mret (image, None, None, None, None))
     : M (value * option Z * option Z * option Z * option Z));
  b ← has_info;
  if b : bool then
    _cast_image_info_types image max_pad;;
    b ← contains "num_boxes";
    c ← (if b : bool then contains "xmin" else mret false);
    (if c : bool
     then box ← _extract_box_from_image_info max_pad true; assign_bbox box
     else mret ());;
    setitem "height" (py_int height);;
    setitem "width" (py_int width);;
    (n ← local "image_height" image_height;
     setitem "original_height" (VI (scalar n)));;
    (n ← local "image_width" image_width;
     setitem "original_width" (VI (scalar n)));;
    (n ← local "new_width" new_width;
     setitem "horizontal_pad" (VInt (default 0 width - n)%Z));;
    (n ← local "new_height" new_height;
     setitem "vertical_pad" (VInt (default 0 height - n)%Z));;
    mret image
  else mret image.

Definition retinaface (image : value) (height width : option Z) (max_pad : Z)
  : M value :=
  let image := float_if_uint8 image in
  r ← (if truthy height && truthy width
       then r ← call (_ar_preserving_resize_and_crop (default 0%Z height)
                        image (default 0%Z width));
            mret (Some r)
       else mret None);
  let image := from_option (λ r, VF (ar_image r)) image r in
  b ← has_info;
  if b : bool then
    _cast_image_info_types image max_pad;;
    b ← contains "num_boxes";
    c ← (if b : bool then contains "xmin" else mret false);
    (if c : bool
     then box ← _extract_box_from_image_info max_pad true; assign_bbox box
     else mret ());;
    setitem "height" (py_int height);;
    setitem "width" (py_int width);;
    (n ← local "image_height" (image_height <$> r);
     setitem "original_height" (VI (scalar n)));;
    (n ← local "image_width" (image_width <$> r);
     setitem "original_width" (VI (scalar n)));;
    (n ← local "new_width" (new_width <$> r);
     setitem "horizontal_pad" (VI (scalar (default 0 width - n)%Z)));;
    (n ← local "new_height" (new_height <$> r);
     setitem "vertical_pad" (VI (scalar (default 0 height - n)%Z)));;
    mret image
  else mret image.

(** The default border colour of [letterbox]. *)
Definition letterbox_color : list Q := [255 # 2; 255 # 2; 255 # 2]%Q.

Definition fair_mot (image : value) (height width : option Z) (max_pad : Z)
  : M value :=
  '(image, image_height, image_width, new_width, new_height) ←
    ((if truthy height && truthy width then
        image_height ← call (image_dim image 0);
        image_width ← call (image_dim image 1);
        '(img, new_width, new_height) ←
          call (py_func_letterbox image (default 0%Z height)
                  (default 0%Z width) letterbox_color);
        mret (VU8 img, Some image_height, Some image_width,
              Some new_width, Some new_height)
      else mret (image, None, None, None, None))
     : M (value * option Z * option Z * option Z * option Z));
  let image := float_if_uint8 image in
  b ← has_info;
  if b : bool then
    _cast_image_info_types image max_pad;;
    box ← _extract_box_from_image_info max_pad false;
    assign_bbox box;;
    setitem "height" (py_int height);;
    setitem "width" (py_int width);;
    (n ← local "image_height" image_height;
     setitem "original_height" (VI (scalar n)));;
    (n ← local "image_width" image_width;
     setitem "original_width" (VI (scalar n)));;
    (n ← local "new_width" new_width;
     setitem "horizontal_pad" (VI (scalar (default 0 width - n)%Z)));;
    (n ← local "new_height" new_height;
     setitem "vertical_pad" (VI (scalar (default 0 height - n)%Z)));;
    (v ← getitem "person_id"; p ← call (pad_value v max_pad);
     setitem "person_id" p);;
    (v ← getitem "label"; p ← call (pad_value v max_pad);
     setitem "label" p);;
    (v ← getitem "is_ignore"; p ← call (pad_value v max_pad);
     setitem "is_ignore" p);;
    mret image
  else mret image.

End Functions.

(** ** The preprocessing functions by name *)

Inductive model : Type :=
  | CenternetResnetV1_18
  | YoloV3
  | YoloV5
  | ResnetV1_18
  | Regnet
  | MobilenetSsd
  | MobilenetSsdArPreserving
  | FaceSsd
  | Retinaface
  | FairMot.

(** The call [f(image, image_info, height, width, max_pad=..., color=...)]
    of the function named [m]; an argument a function does not have is not
    passed on. *)
Definition preprocess `{Runtime} (m : model) (image : value)
    (height width : option Z) (max_pad : Z) (color : list Q) : M value :=
  match m with
  | CenternetResnetV1_18 =>
      centernet_resnet_v1_18_detection image height width max_pad
  | YoloV3 => yolo_v3 image height width
  | YoloV5 => yolo_v5 image height width color
  | ResnetV1_18 => resnet_v1_18_detection image height width max_pad
  | Regnet => regnet_detection image height width max_pad
  | MobilenetSsd => mobilenet_ssd image height width max_pad
  | MobilenetSsdArPreserving =>
      mobilenet_ssd_ar_preserving image height width max_pad
  | FaceSsd => face_ssd image height width max_pad
  | Retinaface => retinaface image height width max_pad
  | FairMot => fair_mot image height width max_pad
  end.

(** ** Reference layouts, written from the specification's words *)

(** A coordinate vector padded with the sentinel up to [max_pad] entries. *)
Definition padded (max_pad : Z) (l : list float) : list float :=
  l ++ replicate (Z.to_nat max_pad - length l) (Fin (- 1)).

(** A vector as a tensor with one column. *)
Definition column {A} (l : list A) : tensor A := Tensor [length l; 1%nat] l.

(** Boxes in [x, y, w, h] layout: one row per box, the width and the height
    being the differences of the corners. *)
Definition xywh (xmin ymin xmax ymax : list float) : tensor float :=
  Tensor [length xmin; 4%nat]
    (concat (zip_with (λ lo hi, [lo.1; lo.2; F32.sub hi.1 lo.1; F32.sub hi.2 lo.2])
               (zip xmin ymin) (zip xmax ymax))).

(** The keys a successful run may leave different from what they were. *)
Definition frame (K : list string) (d d' : bundle) : Prop :=
  ∀ k, k ∉ K -> d' !! k = d !! k.

(** Partial-correctness weakest precondition of a computation. *)
Definition wp {A} (m : M A) (s : option bundle)
    (Q : A -> option bundle -> Prop) : Prop :=
  match m s with
  | (inr x, s') => Q x s'
  | (inl _, _) => True
  end.

(** The computation raises. *)
Definition raises {A} (r : E A * option bundle) : Prop :=
  match r.1 with
  | inl _ => True
  | inr _ => False
  end.

(** Multiplication by the scale of [_extract_box_from_image_info]: a float,
    or the integer [1]. *)
Definition scale_by (s : option float) (a : float) : float :=
  match s with
  | Some k => F32.mul a k
  | None => F32.mul a (F32.of_Z 1)
  end.

(** The bundle once the four coordinate keys are popped. *)
Definition popped (d : bundle) : bundle :=
  delete "ymax" (delete "ymin" (delete "xmax" (delete "xmin" d))).

(** What [_cast_image_info_types] does to the bundle [d], up to the values
    it stores: only its four keys can differ, no key is removed, and
    ['img_orig'] is the only key it can add. *)
Record cast_rel (d d' : bundle) : Prop := {
  cast_frame : frame ["img_orig"; "num_boxes"; "category_id"; "is_crowd"] d d';
  cast_some : ∀ k, is_Some (d !! k) -> is_Some (d' !! k);
  cast_none : ∀ k, k ≠ "img_orig" -> d !! k = None -> d' !! k = None;
  cast_img : is_Some (d' !! "img_orig")
}.

(** The functions that extract boxes through
    [_extract_box_from_image_info]. *)
Definition uses_extract_box (m : model) : bool :=
  match m with
  | MobilenetSsd | MobilenetSsdArPreserving => false
  | _ => true
  end.

(** The bundle takes the annotation path of the function, up to the
    extraction of the boxes. *)
Definition annotated (m : model) (d : bundle) : Prop :=
  match m with
  | FaceSsd | Retinaface => is_Some (d !! "num_boxes") ∧ is_Some (d !! "xmin")
  | FairMot | MobilenetSsdArPreserving => d ≠ ∅
  | _ => is_Some (d !! "num_boxes")
  end.

(** The keys each function assigns or pops on its annotation path. *)
Definition common_keys : list string :=
  ["xmin"; "xmax"; "ymin"; "ymax"; "bbox"; "img_orig"; "num_boxes";
   "category_id"; "is_crowd"].

Definition written (m : model) : list string :=
  common_keys ++
  match m with
  | CenternetResnetV1_18 | YoloV3 | MobilenetSsdArPreserving =>
      ["height"; "width"; "area"]
  | YoloV5 =>
      ["height"; "width"; "area"; "letterbox_height"; "letterbox_width";
       "horizontal_pad"; "vertical_pad"]
  | ResnetV1_18 | Regnet | MobilenetSsd => ["area"]
  | FaceSsd | Retinaface =>
      ["height"; "width"; "original_height"; "original_width";
       "horizontal_pad"; "vertical_pad"]
  | FairMot =>
      ["height"; "width"; "original_height"; "original_width";
       "horizontal_pad"; "vertical_pad"; "person_id"; "label"; "is_ignore"]
  end.

(** The coordinate keys are gone, ['bbox'] is there, and the keys outside [K]
    are as they were in [d]. *)
Definition boxes_moved (K : list string) (d : bundle) (s' : option bundle)
  : Prop :=
  ∃ d', s' = Some d'
    ∧ (d' !! "xmin" = None ∧ d' !! "xmax" = None
       ∧ d' !! "ymin" = None ∧ d' !! "ymax" = None)
    ∧ is_Some (d' !! "bbox")
    ∧ frame K d d'.

(** ** A stand-in runtime and a small bundle, for examples

    The kernels of the stand-in return an image of the requested size filled
    with one value, which depends on the kernel; its power is the rounded
    square, whatever the exponent. *)

Definition fill {A} (s : list nat) (x : A) : tensor A :=
  Tensor s (replicate (numel s) x).

Definition sample_runtime : Runtime := {|
  tf_resize m align_corners t height width :=
    match shape t with
    | [b; _; _; c] =>
        fill [b; Z.to_nat height; Z.to_nat width; c]
          (match m with
           | Bilinear => Fin 100
           | Bicubic => Fin 300
           | Area => Fin (- 5)
           end)
    | _ => t
    end;
  tf_resize_image_with_pad t height width :=
    match shape t with
    | [_; _; c] => inr (fill [Z.to_nat height; Z.to_nat width; c] (Fin 7))
    | _ => inl ValueError
    end;
  cv2_resize t width height :=
    match shape t with
    | [_; _; c] => fill [Z.to_nat height; Z.to_nat width; c] 9%Z
    | _ => t
    end;
  cv2_copyMakeBorder t top bottom left right color :=
    match shape t with
    | [h; w; c] =>
        fill [Z.to_nat top + h + Z.to_nat bottom;
              Z.to_nat left + w + Z.to_nat right; c]%nat 114%Z
    | _ => t
    end;
  roi_align featuremap boxes := featuremap;
  tf_pow x y := F32.mul x x
|}.

(** An image of two rows and three columns. *)
Definition sample_image : value := VU8 (fill [2; 3; 3]%nat 200%Z).

(** Two boxes, in normalized coordinates. *)
Definition sample_bundle : bundle :=
  list_to_map
    [("num_boxes", VI (scalar 2%Z));
     ("height", VI (scalar 2%Z));
     ("width", VI (scalar 3%Z));
     ("xmin", VF (vector [Fin (1 # 4); Fin (1 # 2)]));
     ("xmax", VF (vector [Fin (1 # 2); Fin 1]));
     ("ymin", VF (vector [Fin (1 # 4); Fin (1 # 2)]));
     ("ymax", VF (vector [Fin (3 # 4); Fin 1]));
     ("area", VF (vector [Fin 1; Fin 2]));
     ("category_id", VI (vector [3; 4]%Z));
     ("is_crowd", VI (vector [0; 0]%Z));
     ("person_id", VI (vector [7; 8]%Z));
     ("label", VI (vector [1; 1]%Z));
     ("is_ignore", VI (vector [0; 0]%Z));
     ("image_name", VS (scalar "000001.jpg"));
     ("image_id", VI (scalar 42%Z));
     ("num_rpn_boxes", VI (scalar 3%Z));
     ("rpn_proposals", VF (Tensor [3; 4]%nat (replicate 12 (Fin 0))))].

(** What a run returned, with a default for a run that raised. *)
Definition returned {A} (r : E A * option bundle) (dflt : A) : A :=
  match r.1 with
  | inr x => x
  | inl _ => dflt
  end.

(** The border colour [yolo_v5] passes to [letterbox] by default. *)
Definition yolo_v5_color : list Q := [114; 114; 114]%Q.

(** The functions whose annotation path reads the names bound by the resize
    branch. *)
Definition needs_size (m : model) : bool :=
  match m with
  | YoloV5 | FairMot | FaceSsd | Retinaface => true
  | _ => false
  end.

(** The bundle makes the function enter the branch that records the
    geometry: ['num_boxes'] is a key for [yolo_v5], the dictionary is not
    empty for the other three. *)
Definition reaches_geometry (m : model) (d : bundle) : Prop :=
  match m with
  | YoloV5 => is_Some (d !! "num_boxes")
  | _ => d ≠ ∅
  end.

(** The integer a count holds: a Python integer or a rank-0 integer
    tensor. *)
Definition scalar_int (v : value) : option Z :=
  match v with
  | VInt n => Some n
  | VI (Tensor [] [n]) => Some n
  | _ => None
  end.

(** The rank-1 tensor that holds [n] copies of a scalar. *)
Definition copies (n : Z) (v : value) : option value :=
  let rep {A} (x : A) : tensor A :=
    Tensor [Z.to_nat n] (replicate (Z.to_nat n) x) in
  match v with
  | VInt x => Some (VI (rep x))
  | VU8 (Tensor [] [x]) => Some (VU8 (rep x))
  | VI (Tensor [] [x]) => Some (VI (rep x))
  | VF (Tensor [] [x]) => Some (VF (rep x))
  | VS (Tensor [] [x]) => Some (VS (rep x))
  | _ => None
  end.

(** The bundle [faster_rcnn_stage2] hands back. *)
Definition stage2_bundle (d : bundle) (name' id' : value) : bundle :=
  <["image_id" := id']>
    (<["image_name" := name']>
       (delete "image_id" (delete "image_name" (delete "num_rpn_boxes" d)))).

(** The resize kernel of [yolo_v3], in the specification's words: bicubic
    when the target is strictly larger than the image in both dimensions,
    area when it is strictly smaller in both, bilinear otherwise. *)
Definition yolo_v3_kernel (h0 w0 height width : Z) : resize_method :=
  if decide (h0 < height ∧ w0 < width)%Z then Bicubic
  else if decide (height < h0 ∧ width < w0)%Z then Area
  else Bilinear.

(** [0.0 <= x <= 255.0] *)
Definition in_pixel_range (x : float) : Prop :=
  fle (Fin 0) x = true ∧ fle x (Fin 255) = true.

(** ** The scaling of the box coordinates, function by function *)

(** How a function scales a coordinate: a multiplication before the padding
    to [pad_to] entries, and a map after it. *)
Record scale_law : Type := ScaleLaw {
  pre_x : float -> float;
  pre_y : float -> float;
  post_x : float -> float;
  post_y : float -> float;
  pad_to : Z
}.

Definition scaled (pre post : float -> float) (n : Z) (l : list float)
  : list float :=
  post <$> padded n (pre <$> l).

(** The [x, y, w, h] layout of the scaled corners. *)
Definition layout (L : scale_law) (xmin xmax ymin ymax : list float)
  : tensor float :=
  xywh (scaled (pre_x L) (post_x L) (pad_to L) xmin)
       (scaled (pre_y L) (post_y L) (pad_to L) ymin)
       (scaled (pre_x L) (post_x L) (pad_to L) xmax)
       (scaled (pre_y L) (post_y L) (pad_to L) ymax).

(** The float a scalar of the bundle casts to. *)
Definition float_of (v : value) : option float :=
  match cast_float32 v with
  | inr (Tensor [] [k]) => Some k
  | _ => None
  end.

Definition dim_of (image : value) (i : nat) : option Z :=
  match image_dim image i with
  | inr n => Some n
  | inl _ => None
  end.

(** Multiplication by a horizontal and a vertical factor. *)
Definition plain_law (kx ky : float) (n : Z) : scale_law :=
  ScaleLaw (λ a, F32.mul a kx) (λ a, F32.mul a ky) id id n.

(** The factor of [_ar_preserving_resize_and_crop] for an image of [ih] rows
    and [iw] columns. *)
Definition ar_factor (ih iw height width : Z) : float :=
  let basic_ratio := F32.div (F32.of_Z width) (F32.of_Z height) in
  let real_ratio := F32.div (F32.of_Z iw) (F32.of_Z ih) in
  if fge real_ratio basic_ratio
  then F32.div (F32.of_Z width) (F32.of_Z iw)
  else F32.div (F32.of_Z height) (F32.of_Z ih).

Definition ar_law (ih iw height width n : Z) : scale_law :=
  let f := ar_factor ih iw height width in
  ScaleLaw (λ a, F32.mul (F32.mul a f) (F32.of_Z iw))
           (λ a, F32.mul (F32.mul a f) (F32.of_Z ih)) id id n.

(** The resize ratio of [centernet_resnet_v1_18_detection] for original
    dimensions [h] and [w] and targets [H] and [W], all as floats. *)
Definition centernet_ratio (h w H W : float) : float :=
  fmin (F32.div H h) (F32.div W w).

(** Its padding along an axis of original extent [a] and target [A], as the
    code computes it: [floor(0.5 * is_padded * |A - a * ratio|)], where
    [is_padded] is one when the axis's own ratio [ra] exceeds the other
    one [rb], and zero otherwise. *)
Definition centernet_padding (a A ratio ra rb : float) : float :=
  let is_padded := if flt rb ra then F32.of_Z 1 else F32.of_Z 0 in
  ffloor (F32.mul (F32.mul (F32.of_Q (1 # 2)) is_padded)
            (fabs (F32.sub A (F32.mul a ratio)))).

Definition clip (n : Z) (x : float) : float :=
  fmax (fmin x (F32.of_Z (n - 1))) (F32.of_Z 0).

Definition centernet_law (kx ky : float) (height width n : Z) : scale_law :=
  let H := F32.of_Z height in
  let W := F32.of_Z width in
  let r := centernet_ratio ky kx H W in
  let w_padding := centernet_padding kx W r (F32.div W kx) (F32.div H ky) in
  let h_padding := centernet_padding ky H r (F32.div H ky) (F32.div W kx) in
  ScaleLaw (λ a, F32.mul a kx) (λ a, F32.mul a ky)
           (λ a, clip width (F32.add (F32.mul a r) w_padding))
           (λ a, clip height (F32.add (F32.mul a r) h_padding)) n.

(** The scaling each function applies, read off the claims: the image's own
    dimensions for [yolo_v3], the bundle's ['width'] and ['height'] for the
    functions that multiply by them, one for [fair_mot], the aspect-ratio
    factor times the image dimension for [mobilenet_ssd_ar_preserving], and
    resize, padding offset and clipping on top for CenterNet. *)
Definition box_law (m : model) (image : value) (height width : option Z)
    (max_pad : Z) (d : bundle) : option scale_law :=
  let kx := d !! "width" ≫= float_of in
  let ky := d !! "height" ≫= float_of in
  match m with
  | YoloV3 =>
      ih ← dim_of image 0; iw ← dim_of image 1;
      Some (plain_law (F32.of_Z iw) (F32.of_Z ih) MAX_PADDING_LENGTH)
  | YoloV5 =>
      kx ← kx; ky ← ky; Some (plain_law kx ky MAX_PADDING_LENGTH)
  | ResnetV1_18 | Regnet | MobilenetSsd | FaceSsd | Retinaface =>
      kx ← kx; ky ← ky; Some (plain_law kx ky max_pad)
  | FairMot => Some (plain_law (F32.of_Z 1) (F32.of_Z 1) max_pad)
  | MobilenetSsdArPreserving =>
      ih ← dim_of image 0; iw ← dim_of image 1;
      h ← height; w ← width;
      Some (ar_law ih iw h w max_pad)
  | CenternetResnetV1_18 =>
      kx ← kx; ky ← ky; h ← height; w ← width;
      Some (centernet_law kx ky h w max_pad)
  end.

(** The bundle handed back holds the boxes [b] under ['bbox']. *)
Definition has_bbox (b : tensor float) (s' : option bundle) : Prop :=
  ∃ d', s' = Some d' ∧ d' !! "bbox" = Some (VF b).

(** What [yolo_v5] records about the letterbox for an image of [ih] rows and
    [iw] columns letterboxed to [nh] rows and [nw] columns inside a
    [h] by [w] frame. *)
Definition yolo_v5_geometry (ih iw h w nh nw : Z) (d' : bundle) : Prop :=
  d' !! "height" = Some (VI (scalar ih))
  ∧ d' !! "width" = Some (VI (scalar iw))
  ∧ d' !! "letterbox_height" = Some (VI (scalar nh))
  ∧ d' !! "letterbox_width" = Some (VI (scalar nw))
  ∧ d' !! "horizontal_pad" = Some (VI (scalar (w - nw)%Z))
  ∧ d' !! "vertical_pad" = Some (VI (scalar (h - nh)%Z)).

(** The functions that assign to [image_info] before they test it. *)
Definition writes_before_check (m : model) : bool :=
  match m with
  | CenternetResnetV1_18 | YoloV3 | YoloV5 => true
  | _ => false
  end.

(** The functions whose annotation path is guarded by
    [image_info and 'num_boxes' in image_info.keys()]. *)
Definition guarded_by_num_boxes (m : model) : bool :=
  match m with
  | CenternetResnetV1_18 | YoloV3 | YoloV5 | ResnetV1_18 | Regnet
  | MobilenetSsd => true
  | _ => false
  end.

(** The keys such a function assigns outside the guard. *)
Definition touched_unannotated (m : model) : list string :=
  match m with
  | CenternetResnetV1_18 | YoloV5 => ["img_orig"]
  | YoloV3 => ["height"; "width"]
  | _ => []
  end.

(** The keys the annotation path of a function reads and does not assign
    first: their absence is not tested for. *)
Definition required (m : model) : list string :=
  match m with
  | CenternetResnetV1_18 | YoloV5 | ResnetV1_18 | Regnet =>
      ["height"; "width"; "xmin"; "xmax"; "ymin"; "ymax"; "area"]
  | YoloV3 => ["xmin"; "xmax"; "ymin"; "ymax"; "area"]
  | MobilenetSsd =>
      ["category_id"; "is_crowd"; "height"; "width";
       "xmin"; "xmax"; "ymin"; "ymax"; "area"]
  | MobilenetSsdArPreserving =>
      ["num_boxes"; "category_id"; "is_crowd"; "xmin"; "xmax"; "ymin"; "ymax"]
  | FaceSsd | Retinaface => ["height"; "width"; "xmax"; "ymin"; "ymax"]
  | FairMot =>
      ["xmin"; "xmax"; "ymin"; "ymax"; "person_id"; "label"; "is_ignore"]
  end.

(** The unit roundoff of binary64, [2^-53], and a bound, [2^-100], on the
    absolute error of a rounding in the subnormal range of either format. *)
Definition u64 : Q := (1 # 9007199254740992)%Q.
Definition tiny : Q := (1 # 1267650600228229401496703205376)%Q.

(** The arithmetic of [letterbox]: from the dimensions of the image and of
    the frame to [(new_width, new_height, top, bottom, left, right)]. *)
Definition letterbox_geometry (shape0 shape1 height width : Z)
  : E (Z * Z * Z * Z * Z * Z) :=
  ratio ← (a ← (x ← py_float height; py_truediv x shape0);
           b ← (x ← py_float width; py_truediv x shape1);
           mret (py_min a b));
  new_width ← (x ← py_int_mul shape1 ratio; py_round x);
  new_height ← (x ← py_int_mul shape0 ratio; py_round x);
  dw ← py_int_truediv (width - new_width) 2;
  dh ← py_int_truediv (height - new_height) 2;
  top ← py_round (F64.sub dh py_0_1);
  bottom ← py_round (F64.add dh py_0_1);
  left ← py_round (F64.sub dw py_0_1);
  right ← py_round (F64.add dw py_0_1);
  mret (new_width, new_height, top, bottom, left, right).

(** The unit roundoff of binary32, [2^-24]. *)
Definition u32 : Q := (1 # 16777216)%Q.

(** The padding offset of CenterNet in the specification's words: along the
    padded axis, whose own ratio [ra] exceeds the other one [rb], it is
    [floor(0.5 * |A - a * ratio|)]; along the other axis, and when the two
    ratios are equal, it is zero. *)
Definition centernet_offset (a A ratio ra rb : float) : float :=
  if flt rb ra
  then ffloor (F32.mul (F32.of_Q (1 # 2)) (fabs (F32.sub A (F32.mul a ratio))))
  else Fin 0.

(** The transformation of CenterNet in the specification's words, for
    original dimensions [h0] by [w0] and targets [height] by [width]. *)
Definition centernet_transform (h0 w0 height width n : Z) : scale_law :=
  let h := F32.of_Z h0 in
  let w := F32.of_Z w0 in
  let H := F32.of_Z height in
  let W := F32.of_Z width in
  let r := fmin (F32.div H h) (F32.div W w) in
  let w_padding := centernet_offset w W r (F32.div W w) (F32.div H h) in
  let h_padding := centernet_offset h H r (F32.div H h) (F32.div W w) in
  ScaleLaw (λ a, F32.mul a w) (λ a, F32.mul a h)
           (λ a, clip width (F32.add (F32.mul a r) w_padding))
           (λ a, clip height (F32.add (F32.mul a r) h_padding)) n.

(** The functions that pad the box coordinates to their [max_pad]
    argument; [yolo_v3] and [yolo_v5] pad to [MAX_PADDING_LENGTH]. *)
Definition pads_boxes_to_max_pad (m : model) : bool :=
  match m with
  | YoloV3 | YoloV5 => false
  | _ => true
  end.

(** A stand-in whose resize kernels return the first entry of the batch in
    every pixel: resizing a constant image gives the constant image of the
    requested size, as interpolation does. *)
Definition constant_runtime : Runtime := {|
  tf_resize m align_corners t height width :=
    match shape t, data t with
    | [b; _; _; c], x :: _ => fill [b; Z.to_nat height; Z.to_nat width; c] x
    | _, _ => t
    end;
  tf_resize_image_with_pad := tf_resize_image_with_pad (Runtime := sample_runtime);
  cv2_resize := cv2_resize (Runtime := sample_runtime);
  cv2_copyMakeBorder := cv2_copyMakeBorder (Runtime := sample_runtime);
  roi_align := roi_align (Runtime := sample_runtime);
  tf_pow := tf_pow (Runtime := sample_runtime)
|}.

(** A float image of two rows and three columns whose pixels are NaN. *)
Definition nan_image : value := VF (fill [2; 3; 3]%nat NaN).

(** The entry at row [i], column [j] and channel [k] of an image. *)
Definition pixel {A} (t : tensor A) (i j k : nat) : option A :=
  match shape t with
  | [h; w; c] =>
      if decide (i < h ∧ j < w ∧ k < c)%nat
      then data t !! ((i * w + j) * c + k)%nat
      else None
  | _ => None
  end.

(* ===================================================================== *)
(** * Part II: properties *)
(* ===================================================================== *)

(** ** Padding of vectors *)

Lemma concat_chunks_1 {A} (n : nat) (l : list A) :
  concat (chunks 1 n l) = take n l.
Proof.
  revert l. induction n as [|n IH]; intros l; simpl.
  - by destruct l.
  - destruct l as [|x l]; simpl.
    + by rewrite IH, take_nil.
    + by rewrite IH.
Qed.

Lemma pad_data_row {A} (c : A) (n k : nat) (l : list A) :
  length l = n ->
  pad_data c [1; n]%nat [(0, 0); (0, k)]%nat l = l ++ replicate k c.
Proof.
  intros Hl. cbn [pad_data padded_shape zip_with numel foldr fst snd].
  rewrite !Nat.mul_0_l, !Nat.mul_1_r.
  cbn [replicate chunks fmap list_fmap app concat].
  rewrite !app_nil_r, list_fmap_id, concat_chunks_1.
  by rewrite take_take, Nat.min_id, take_ge by lia.
Qed.

Lemma pad_row {A} (c : A) (l : list A) (k : Z) :
  (0 <= k)%Z ->
  pad (Tensor [1; length l]%nat l) [(0, 0); (0, k)]%Z c
  = inr (Tensor [1; length l + Z.to_nat k]%nat (l ++ replicate (Z.to_nat k) c)).
Proof.
  intros Hk. unfold pad, rank. cbn [shape data length].
  rewrite decide_True by done.
  cbn [forallb fst snd Z.leb Z.compare andb].
  replace (0 <=? k)%Z with true by (symmetry; apply Z.leb_le; lia).
  cbn [fmap list_fmap fst snd Z.to_nat].
  by rewrite pad_data_row.
Qed.

Lemma pad_row_negative {A} (c : A) (l : list A) (k : Z) :
  (k < 0)%Z ->
  pad (Tensor [1; length l]%nat l) [(0, 0); (0, k)]%Z c
  = inl InvalidArgumentError.
Proof.
  intros Hk. unfold pad, rank. cbn [shape data length].
  rewrite decide_True by done.
  cbn [forallb fst snd Z.leb Z.compare andb].
  by replace (0 <=? k)%Z with false by (symmetry; apply Z.leb_gt; lia).
Qed.

Lemma pad_tensor_unfold {A} `{Sentinel A} (l : list A) (m : Z) :
  _pad_tensor (vector l) m
  = p ← pad (Tensor [1; length l]%nat l)
          [(0, 0); (0, m - Z.of_nat (length l))]%Z minus_one;
    mret (squeeze p).
Proof. reflexivity. Qed.

(** Within the bound the entries are kept and the sentinel fills the rest;
    the result is a vector unless the bound is one. *)
Lemma pad_tensor_ok {A} `{Sentinel A} (l : list A) (m : Z) :
  (Z.of_nat (length l) <= m)%Z ->
  _pad_tensor (vector l) m
  = inr (Tensor (if decide (m = 1%Z) then [] else [Z.to_nat m])
           (l ++ replicate (Z.to_nat m - length l) minus_one)).
Proof.
  intros Hm. rewrite pad_tensor_unfold, pad_row by lia.
  cbn [mbind E_mbind E_bind mret E_mret E_ret]. unfold squeeze.
  cbn [shape data filter list_filter].
  replace (Z.to_nat (m - Z.of_nat (length l)))
    with (Z.to_nat m - length l)%nat by lia.
  f_equal. f_equal.
  rewrite decide_False by (intros Hd; by apply Hd).
  destruct (decide (m = 1%Z)) as [->|Hne].
  - rewrite decide_False; [done|]. intros Hd. apply Hd. lia.
  - rewrite decide_True; [|lia]. f_equal. lia.
Qed.

Lemma pad_tensor_too_long {A} `{Sentinel A} (l : list A) (m : Z) :
  (m < Z.of_nat (length l))%Z ->
  _pad_tensor (vector l) m = inl InvalidArgumentError.
Proof.
  intros Hm. by rewrite pad_tensor_unfold, pad_row_negative by lia.
Qed.

(** ** Rules of the weakest precondition *)

Lemma wp_elim {A} (m : M A) s Q x s' : wp m s Q -> m s = (inr x, s') -> Q x s'.
Proof. unfold wp. intros Hw Hm. by rewrite Hm in Hw. Qed.

Lemma wp_bind {A B} (m : M A) (f : A -> M B) s Q :
  wp m s (λ x s', wp (f x) s' Q) -> wp (m ≫= f) s Q.
Proof.
  unfold wp, mbind, M_mbind, M_bind. destruct (m s) as [[e|x] s']; done.
Qed.

Lemma wp_ret {A} (x : A) s (Q : A -> option bundle -> Prop) : Q x s -> wp (mret x) s Q.
Proof. done. Qed.

Lemma wp_raise {A} e s (Q : A -> option bundle -> Prop) : wp (raise e) s Q.
Proof. done. Qed.

Lemma wp_call {A} (e : E A) s (Q : A -> option bundle -> Prop) :
  (∀ x, e = inr x -> Q x s) -> wp (call e) s Q.
Proof. unfold wp, call. destruct e; eauto. Qed.

Lemma wp_setitem k v d (Q : unit -> option bundle -> Prop) :
  Q () (Some (<[k := v]> d)) -> wp (setitem k v) (Some d) Q.
Proof. done. Qed.

Lemma wp_getitem k d (Q : value -> option bundle -> Prop) :
  (∀ v, d !! k = Some v -> Q v (Some d)) -> wp (getitem k) (Some d) Q.
Proof. unfold wp, getitem. destruct (d !! k); eauto. Qed.

Lemma wp_pop k d (Q : value -> option bundle -> Prop) :
  (∀ v, d !! k = Some v -> Q v (Some (delete k d))) -> wp (pop k) (Some d) Q.
Proof. unfold wp, pop. destruct (d !! k); eauto. Qed.

Lemma wp_contains k d (Q : bool -> option bundle -> Prop) :
  Q (bool_decide (is_Some (d !! k))) (Some d) -> wp (contains k) (Some d) Q.
Proof. done. Qed.

Lemma wp_has_info d (Q : bool -> option bundle -> Prop) :
  Q (bool_decide (d ≠ ∅)) (Some d) -> wp has_info (Some d) Q.
Proof. done. Qed.

Lemma wp_local {A} name (v : option A) s (Q : A -> option bundle -> Prop) :
  (∀ x, v = Some x -> Q x s) -> wp (local name v) s Q.
Proof. destruct v; [intros HQ; by apply HQ|done]. Qed.

Lemma wp_has_info_with k d (Q : bool -> option bundle -> Prop) :
  Q (bool_decide (is_Some (d !! k))) (Some d) -> wp (has_info_with k) (Some d) Q.
Proof.
  intros HQ. unfold has_info_with. apply wp_bind, wp_has_info.
  destruct (decide (d = ∅)) as [->|Hd].
  - rewrite bool_decide_eq_false_2 by (by intros []).
    apply wp_ret. rewrite lookup_empty in HQ.
    by rewrite bool_decide_eq_false_2 in HQ by (by intros []).
  - rewrite bool_decide_eq_true_2 by done. by apply wp_contains.
Qed.



Ltac solve_notin :=
  rewrite ?not_elem_of_cons; repeat split; first [done | apply not_elem_of_nil].

Ltac solve_in :=
  repeat first [apply list_elem_of_here | apply list_elem_of_further].

Ltac map_simpl :=
  repeat first
    [ rewrite lookup_insert_eq
    | rewrite lookup_insert_ne by done
    | rewrite lookup_delete_eq
    | rewrite lookup_delete_ne by done
    | match goal with
      | Hc : cast_rel ?d ?d' |- context [?d' !! ?k] =>
          rewrite (cast_frame d d' Hc k) by solve_notin
      end ].

Ltac map_simpl_in H :=
  repeat first
    [ rewrite lookup_insert_eq in H
    | rewrite lookup_insert_ne in H by done
    | rewrite lookup_delete_eq in H
    | rewrite lookup_delete_ne in H by done
    | match type of H with
      | context [?d' !! ?k] =>
          match goal with
          | Hc : cast_rel ?d d' |- _ =>
              rewrite (cast_frame d d' Hc k) in H by solve_notin
          end
      end ].

Ltac wp_step :=
  lazymatch goal with
  | |- wp (mbind _ _) _ _ => apply wp_bind
  | |- wp (mret _) _ _ => apply wp_ret
  | |- wp (call _) _ _ => apply wp_call; intros ? ?
  | |- wp (setitem _ _) (Some _) _ => apply wp_setitem
  | |- wp (getitem _) (Some _) _ =>
      let H := fresh "Hget" in apply wp_getitem; intros ? H; map_simpl_in H
  | |- wp (pop _) (Some _) _ =>
      let H := fresh "Hpop" in apply wp_pop; intros ? H; map_simpl_in H
  | |- wp (contains _) (Some _) _ => apply wp_contains; map_simpl
  | |- wp has_info (Some _) _ => apply wp_has_info
  | |- wp (has_info_with _) (Some _) _ => apply wp_has_info_with; map_simpl
  | |- wp (local _ _) _ _ => apply wp_local; intros ? ?
  | |- wp (raise _) _ _ => apply wp_raise
  | |- wp (if ?b then _ else _) _ _ => destruct b eqn:?
  | |- wp (let '(_, _) := ?p in _) _ _ => destruct p
  | |- wp (match ?p with _ => _ end) _ _ => destruct p eqn:?
  end.

Ltac wp_run := repeat wp_step.

Lemma cast_rel_base d v : cast_rel d (<["img_orig" := v]> d).
Proof.
  split.
  - intros j Hj. rewrite lookup_insert_ne; [done|]. intros <-. apply Hj. solve_in.
  - intros j Hj. rewrite lookup_insert_is_Some.
    destruct (decide ("img_orig" = j)); [by left|by right].
  - intros j Hj Hnone. by rewrite lookup_insert_ne.
  - by rewrite lookup_insert_eq.
Qed.

Lemma cast_rel_insert d d' k v :
  k ∈ ["num_boxes"; "category_id"; "is_crowd"] ->
  is_Some (d !! k) ->
  cast_rel d d' -> cast_rel d (<[k := v]> d').
Proof.
  intros Hk Hp [Hf Hs Hn Hi]. split.
  - intros j Hj. rewrite lookup_insert_ne; [by apply Hf|].
    intros <-. apply Hj. by apply list_elem_of_further.
  - intros j Hj. rewrite lookup_insert_is_Some.
    destruct (decide (k = j)); [by left|right; eauto].
  - intros j Hj Hnone. rewrite lookup_insert_None. split; [eauto|].
    intros ->. rewrite Hnone in Hp. by destruct Hp.
  - rewrite lookup_insert_is_Some. destruct (decide (k = "img_orig")); [by left|by right].
Qed.

Lemma wp_cast image n d (Q : unit -> option bundle -> Prop) :
  (∀ d', cast_rel d d' -> Q () (Some d')) ->
  wp (_cast_image_info_types image n) (Some d) Q.
Proof.
  intros HQ. unfold _cast_image_info_types. wp_run.
  all: apply HQ;
    repeat (apply cast_rel_insert; [solve_in | by eauto |]);
    apply cast_rel_base.
Qed.
Lemma chunks_1_singletons {A} (l : list A) :
  chunks 1 (length l) l = (λ x, [x]) <$> l.
Proof.
  induction l as [|x l IH]; [done|].
  cbn [length chunks fmap list_fmap]. rewrite <- IH. done.
Qed.

Lemma chunks_1_singletons' {A} (n : nat) (l : list A) :
  length l = n -> chunks 1 n l = (λ x, [x]) <$> l.
Proof. intros <-. apply chunks_1_singletons. Qed.

Lemma bcast2_columns {A B C} (f : A -> B -> C) (a : list A) (b : list B) :
  length a = length b ->
  bcast2 f (column a) (column b) = inr (Tensor [length a; 1%nat] (zip_with f a b)).
Proof.
  intros Hl. unfold bcast2, column. cbn [shape data]. rewrite Hl.
  by rewrite decide_True.
Qed.

Lemma zip_rows4 {A} (a b c d : list A) :
  length a = length b -> length a = length c -> length a = length d ->
  concat (zip_with app ((λ x, [x]) <$> a)
            (zip_with app ((λ x, [x]) <$> b)
               (zip_with app ((λ x, [x]) <$> c)
                  (zip_with app ((λ x, [x]) <$> d) (replicate (length a) [])))))
  = concat (zip_with (λ lo hi, [lo.1; lo.2; hi.1; hi.2]) (zip a b) (zip c d)).
Proof.
  revert b c d. induction a as [|x a IH]; intros [|y b] [|z c] [|w d] ? ? ?;
    simplify_eq/=; [done|]. f_equal. f_equal. f_equal. f_equal. by apply IH.
Qed.

Lemma zip_with_zip_sub (xmin ymin xmax ymax : list float) :
  length xmin = length ymin -> length xmin = length xmax -> length xmin = length ymax ->
  zip_with (λ lo hi, [lo.1; lo.2; hi.1; hi.2]) (zip xmin ymin)
    (zip (zip_with F32.sub xmax xmin) (zip_with F32.sub ymax ymin))
  = zip_with (λ lo hi, [lo.1; lo.2; F32.sub hi.1 lo.1; F32.sub hi.2 lo.2])
      (zip xmin ymin) (zip xmax ymax).
Proof.
  revert ymin xmax ymax. induction xmin as [|x a IH]; intros [|y b] [|z c] [|w d] ? ? ?;
    simplify_eq/=; [done|]. f_equal. by apply IH.
Qed.

Lemma concat1_columns (n : nat) (xmin ymin xmax ymax : list float) :
  length xmin = n -> length ymin = n -> length xmax = n -> length ymax = n ->
  concat1 [Tensor [n; 1%nat] xmin; Tensor [n; 1%nat] ymin;
           Tensor [n; 1%nat] (zip_with F32.sub xmax xmin);
           Tensor [n; 1%nat] (zip_with F32.sub ymax ymin)]
  = inr (xywh xmin ymin xmax ymax).
Proof.
  intros H1 H2 H3 H4. unfold concat1, xywh, rows, rank.
  cbn [shape data length forallb lookup list_lookup].
  rewrite !bool_decide_eq_true_2 by done.
  cbn [andb fmap list_fmap sum_list sum_list_with default foldr Nat.add id].
  rewrite H1. f_equal. f_equal. cbn.
  rewrite <- zip_with_zip_sub by lia.
  rewrite <- zip_rows4 by (rewrite ?length_zip_with; lia).
  rewrite !chunks_1_singletons' by (rewrite ?length_zip_with; lia).
  by rewrite H1.
Qed.

Lemma E_bind_inr {A B} (x : A) (f : A -> E B) : (inr x ≫= f) = f x.
Proof. reflexivity. Qed.

Lemma E_bind_inl {A B} (e : exn) (f : A -> E B) : (inl e ≫= f) = inl e.
Proof. reflexivity. Qed.


Lemma length_padded n l : (Z.of_nat (length l) <= n)%Z -> length (padded n l) = Z.to_nat n.
Proof. intros Hl. unfold padded. rewrite length_app, length_replicate. lia. Qed.

Lemma extract_column (l : list float) (s : option float) (n : Z) (c : tensor float) :
  (x ← as_float (VF (vector l));
   y ← scale x (scalar <$> s);
   p ← _pad_tensor y n;
   expand_dims p 1) = inr c ->
  c = column (padded n (scale_by s <$> l)) ∧ (Z.of_nat (length l) <= n)%Z ∧ n ≠ 1%Z.
Proof.
  cbn [as_float mbind E_mbind E_bind].
  assert (scale (vector l) (scalar <$> s) = inr (vector (scale_by s <$> l))) as ->.
  { destruct s; unfold scale, vector, bcast2, tmap, scalar; cbn; by rewrite length_fmap. }
  rewrite E_bind_inr.
  destruct (Z_le_gt_dec (Z.of_nat (length (scale_by s <$> l))) n) as [Hle|Hgt].
  - rewrite pad_tensor_ok by done. rewrite E_bind_inr. unfold expand_dims, rank. cbn [shape data].
    rewrite length_fmap in Hle.
    destruct (decide (n = 1%Z)) as [->|Hne]; [done|].
    cbn. intros [= <-]. split; [|done]. unfold column.
    rewrite length_padded by (by rewrite length_fmap). done.
  - rewrite pad_tensor_too_long by lia. done.
Qed.


Lemma wp_extract_state n norm d Q :
  (∀ box, Q box (Some (popped d))) ->
  wp (_extract_box_from_image_info n norm) (Some d) Q.
Proof.
  intros HQ. unfold _extract_box_from_image_info. destruct norm; wp_run; apply HQ.
Qed.

Lemma wp_extract_normalized n d wv hv kx ky l1 l2 l3 l4 Q :
  d !! "width" = Some wv -> cast_float32 wv = inr (scalar kx) ->
  d !! "height" = Some hv -> cast_float32 hv = inr (scalar ky) ->
  d !! "xmin" = Some (VF (vector l1)) -> d !! "xmax" = Some (VF (vector l2)) ->
  d !! "ymin" = Some (VF (vector l3)) -> d !! "ymax" = Some (VF (vector l4)) ->
  (n ≠ 1%Z ->
   (Z.of_nat (length l1) <= n)%Z -> (Z.of_nat (length l2) <= n)%Z ->
   (Z.of_nat (length l3) <= n)%Z -> (Z.of_nat (length l4) <= n)%Z ->
   Q (column (padded n (scale_by (Some kx) <$> l1)),
      column (padded n (scale_by (Some kx) <$> l2)),
      column (padded n (scale_by (Some ky) <$> l3)),
      column (padded n (scale_by (Some ky) <$> l4))) (Some (popped d))) ->
  wp (_extract_box_from_image_info n true) (Some d) Q.
Proof.
  intros Hw Hkx Hh Hky H1 H2 H3 H4 HQ. unfold _extract_box_from_image_info.
  wp_run. simplify_eq.
  repeat match goal with
         | H : cast_float32 ?v = inr ?x, H' : cast_float32 ?v = inr (scalar _) |- _ =>
             is_var x; rewrite H' in H; injection H as <-
         end.
  repeat match goal with
         | H : _ = inr _ |- _ => apply (extract_column _ (Some _)) in H as (-> & ? & ?)
         end.
  by apply HQ.
Qed.

Lemma wp_extract_plain n d l1 l2 l3 l4 Q :
  d !! "xmin" = Some (VF (vector l1)) -> d !! "xmax" = Some (VF (vector l2)) ->
  d !! "ymin" = Some (VF (vector l3)) -> d !! "ymax" = Some (VF (vector l4)) ->
  (n ≠ 1%Z ->
   (Z.of_nat (length l1) <= n)%Z -> (Z.of_nat (length l2) <= n)%Z ->
   (Z.of_nat (length l3) <= n)%Z -> (Z.of_nat (length l4) <= n)%Z ->
   Q (column (padded n (scale_by None <$> l1)),
      column (padded n (scale_by None <$> l2)),
      column (padded n (scale_by None <$> l3)),
      column (padded n (scale_by None <$> l4))) (Some (popped d))) ->
  wp (_extract_box_from_image_info n false) (Some d) Q.
Proof.
  intros H1 H2 H3 H4 HQ. unfold _extract_box_from_image_info.
  wp_run. simplify_eq.
  repeat match goal with
         | H : _ = inr _ |- _ => apply (extract_column _ None) in H as (-> & ? & ?)
         end.
  by apply HQ.
Qed.

Lemma wp_assign_bbox_state box d Q :
  (∀ b, Q () (Some (<["bbox" := VF b]> d))) -> wp (assign_bbox box) (Some d) Q.
Proof.
  intros HQ. unfold assign_bbox. destruct box as [[[? ?] ?] ?]. wp_run. apply HQ.
Qed.

Lemma wp_assign_bbox (xmin xmax ymin ymax : list float) d Q :
  length xmax = length xmin -> length ymin = length xmin -> length ymax = length xmin ->
  Q () (Some (<["bbox" := VF (xywh xmin ymin xmax ymax)]> d)) ->
  wp (assign_bbox (column xmin, column xmax, column ymin, column ymax)) (Some d) Q.
Proof.
  intros H1 H2 H3 HQ. unfold assign_bbox. wp_run.
  repeat match goal with
         | H : bcast2 _ (column _) (column _) = inr _ |- _ =>
             rewrite bcast2_columns in H by lia; injection H as <-
         end.
  match goal with
  | H : concat1 _ = _ |- _ =>
      unfold column in H; rewrite H1, H2, H3 in H;
      rewrite concat1_columns in H by lia; injection H as <-
  end.
  done.
Qed.

Lemma wp_assign_area n d Q :
  (∀ e, Q () (Some (<["area" := e]> d))) -> wp (assign_area n) (Some d) Q.
Proof. intros HQ. unfold assign_area. wp_run. apply HQ. Qed.


Ltac wp_auto_step :=
  lazymatch goal with
  | |- wp (_cast_image_info_types _ _) (Some _) _ => apply wp_cast; intros ? ?
  | |- wp (_extract_box_from_image_info _ _) (Some _) _ =>
      apply wp_extract_state; intros ?
  | |- wp (assign_bbox _) (Some _) _ => apply wp_assign_bbox_state; intros ?
  | |- wp (assign_area _) (Some _) _ => apply wp_assign_area; intros ?
  | _ => wp_step
  end.

Ltac wp_auto := repeat wp_auto_step.

Ltac moved :=
  unfold boxes_moved, popped;
  eexists; split; [reflexivity|];
  split; [repeat split; by map_simpl|];
  split; [map_simpl; by eauto|];
  intros k Hk; cbn [written common_keys app] in Hk;
  rewrite !not_elem_of_cons in Hk; destruct_and!;
  map_simpl; try done.

(** ** Frame of the annotation paths *)

Lemma lookup_nonempty (d : bundle) k : is_Some (d !! k) -> d ≠ ∅.
Proof. intros [v Hv] ->. by rewrite lookup_empty in Hv. Qed.

(** Branch conditions decided by the hypotheses at hand. *)
Ltac known :=
  repeat match goal with
         | Hb : bool_decide _ = true |- _ => apply bool_decide_eq_true_1 in Hb
         | Hb : bool_decide _ = false |- _ =>
             exfalso; apply bool_decide_eq_false_1 in Hb; apply Hb;
             solve [ eauto using lookup_nonempty, cast_some ]
         end.

Section Frames.
Context `{Runtime}.

Lemma centernet_moves image height width max_pad d :
  is_Some (d !! "num_boxes") ->
  wp (centernet_resnet_v1_18_detection image height width max_pad) (Some d)
    (λ _ s', boxes_moved (written CenternetResnetV1_18) d s').
Proof.
  intros Hn. unfold centernet_resnet_v1_18_detection. wp_auto.
  all: known. all: moved.
Qed.

Lemma yolo_v3_moves image height width d :
  is_Some (d !! "num_boxes") ->
  wp (yolo_v3 image height width) (Some d)
    (λ _ s', boxes_moved (written YoloV3) d s').
Proof.
  intros Hn. unfold yolo_v3. wp_auto. all: known. all: moved.
Qed.

Lemma yolo_v5_moves image height width color d :
  is_Some (d !! "num_boxes") ->
  wp (yolo_v5 image height width color) (Some d)
    (λ _ s', boxes_moved (written YoloV5) d s').
Proof.
  intros Hn. unfold yolo_v5. wp_auto. all: known. all: moved.
Qed.

Lemma resnet_moves image height width max_pad d :
  is_Some (d !! "num_boxes") ->
  wp (resnet_v1_18_detection image height width max_pad) (Some d)
    (λ _ s', boxes_moved (written ResnetV1_18) d s').
Proof.
  intros Hn. unfold resnet_v1_18_detection. wp_auto. all: known. all: moved.
Qed.

Lemma regnet_moves image height width max_pad d :
  is_Some (d !! "num_boxes") ->
  wp (regnet_detection image height width max_pad) (Some d)
    (λ _ s', boxes_moved (written Regnet) d s').
Proof.
  intros Hn. unfold regnet_detection. wp_auto. all: known. all: moved.
Qed.

Lemma face_ssd_moves image height width max_pad d :
  is_Some (d !! "num_boxes") -> is_Some (d !! "xmin") ->
  wp (face_ssd image height width max_pad) (Some d)
    (λ _ s', boxes_moved (written FaceSsd) d s').
Proof.
  intros Hn Hx. unfold face_ssd. wp_auto. all: known. all: moved.
Qed.

Lemma retinaface_moves image height width max_pad d :
  is_Some (d !! "num_boxes") -> is_Some (d !! "xmin") ->
  wp (retinaface image height width max_pad) (Some d)
    (λ _ s', boxes_moved (written Retinaface) d s').
Proof.
  intros Hn Hx. unfold retinaface. wp_auto. all: known. all: moved.
Qed.

Lemma fair_mot_moves image height width max_pad d :
  d ≠ ∅ ->
  wp (fair_mot image height width max_pad) (Some d)
    (λ _ s', boxes_moved (written FairMot) d s').
Proof.
  intros Hn. unfold fair_mot. wp_auto. all: known. all: moved.
Qed.

(** C8.  Every function that extracts boxes through
    [_extract_box_from_image_info], when it returns from a run on its
    annotation path, hands back the caller's dictionary without the keys
    ['xmin'], ['xmax'], ['ymin'] and ['ymax'] and with the key ['bbox'], and
    every key that is not among the ones the function assigns or pops (the
    list [written m]: the coordinate keys, ['bbox'], ['img_orig'],
    ['num_boxes'], ['category_id'], ['is_crowd'], and per function
    ['height'], ['width'], ['area'] and its letterbox and padding keys) holds
    the value it held before the call. *)
Theorem extract_box_pops_and_frames (m : model) (image : value)
    (height width : option Z) (max_pad : Z) (color : list Q) (d : bundle)
    (image' : value) (s' : option bundle) :
  uses_extract_box m = true ->
  annotated m d ->
  preprocess m image height width max_pad color (Some d) = (inr image', s') ->
  boxes_moved (written m) d s'.
Proof.
  intros Hm Ha Hrun.
  refine (wp_elim _ _ (λ _ s', boxes_moved (written m) d s') _ _ _ Hrun).
  destruct m; try discriminate Hm; cbn [preprocess annotated] in *.
  - by apply centernet_moves.
  - by apply yolo_v3_moves.
  - by apply yolo_v5_moves.
  - by apply resnet_moves.
  - by apply regnet_moves.
  - destruct Ha. by apply face_ssd_moves.
  - destruct Ha. by apply retinaface_moves.
  - by apply fair_mot_moves.
Qed.

End Frames.

Lemma extract_box_pops_and_frames_witness :
  boxes_moved (written YoloV5) sample_bundle
    (snd (preprocess (H := sample_runtime) YoloV5 sample_image
            (Some 4%Z) (Some 4%Z) 100 yolo_v5_color (Some sample_bundle))).
Proof.
  apply (extract_box_pops_and_frames (H := sample_runtime) YoloV5
           sample_image (Some 4%Z) (Some 4%Z) 100 yolo_v5_color sample_bundle
           (returned (preprocess (H := sample_runtime) YoloV5 sample_image
                        (Some 4%Z) (Some 4%Z) 100 yolo_v5_color
                        (Some sample_bundle)) VNone)).
  - reflexivity.
  - vm_compute. eauto.
  - reflexivity.
Defined.

(** ** Calls without a target size *)

Lemma raises_bind {A B} (m : M A) (f : A -> M B) s :
  wp m s (λ x s', raises (f x s')) -> raises ((m ≫= f) s).
Proof.
  unfold wp, raises, mbind, M_mbind, M_bind. destruct (m s) as [[e|x] s']; done.
Qed.

Lemma raises_local {A} name s : raises (local (A := A) name None s).
Proof. done. Qed.

Ltac raise_auto :=
  repeat first
    [ progress cbv beta
    | apply raises_local
    | apply raises_bind
    | match goal with
      | |- raises ((if ?b then _ else _) _) => destruct b eqn:?
      | |- raises ((let '(_, _) := ?p in _) _) => destruct p
      end
    | wp_auto_step ].

Section NeedsSize.
Context `{Runtime}.

Lemma yolo_v5_needs_size image height width color d :
  truthy height && truthy width = false ->
  is_Some (d !! "num_boxes") ->
  raises (yolo_v5 image height width color (Some d)).
Proof.
  intros Hs Hn. unfold yolo_v5. rewrite Hs. raise_auto. all: known.
Qed.

Lemma fair_mot_needs_size image height width max_pad d :
  truthy height && truthy width = false ->
  d ≠ ∅ ->
  raises (fair_mot image height width max_pad (Some d)).
Proof.
  intros Hs Hn. unfold fair_mot. rewrite Hs. raise_auto. all: known.
Qed.

Lemma face_ssd_needs_size image height width max_pad d :
  truthy height && truthy width = false ->
  d ≠ ∅ ->
  raises (face_ssd image height width max_pad (Some d)).
Proof.
  intros Hs Hn. unfold face_ssd. rewrite Hs. raise_auto. all: known.
Qed.

Lemma retinaface_needs_size image height width max_pad d :
  truthy height && truthy width = false ->
  d ≠ ∅ ->
  raises (retinaface image height width max_pad (Some d)).
Proof.
  intros Hs Hn. unfold retinaface. rewrite Hs. raise_auto. all: known.
Qed.

(** C10.  [yolo_v5], [fair_mot], [face_ssd] and [retinaface] raise when
    [height] and [width] are not both given (truthy) and the bundle makes
    them enter the branch that records the geometry: the names
    [image_height], [image_width], [new_height] and [new_width] are bound by
    the resize branch only and are read unconditionally afterwards.  So both
    sizes being given is a precondition of these functions' annotation
    path. *)
Theorem size_is_a_precondition (m : model) (image : value)
    (height width : option Z) (max_pad : Z) (color : list Q) (d : bundle) :
  needs_size m = true ->
  truthy height && truthy width = false ->
  reaches_geometry m d ->
  raises (preprocess m image height width max_pad color (Some d)).
Proof.
  intros Hm Hs Hd.
  destruct m; try discriminate Hm; cbn [preprocess reaches_geometry] in *.
  - by apply yolo_v5_needs_size.
  - by apply face_ssd_needs_size.
  - by apply retinaface_needs_size.
  - by apply fair_mot_needs_size.
Qed.
End NeedsSize.

Lemma size_is_a_precondition_witness :
  raises (preprocess (H := sample_runtime) FaceSsd sample_image None (Some 4%Z) 2048
            yolo_v5_color (Some sample_bundle)).
Proof.
  apply (size_is_a_precondition (H := sample_runtime) FaceSsd).
  - reflexivity.
  - reflexivity.
  - apply (lookup_nonempty _ "num_boxes"). vm_compute. eauto.
Defined.

(** ** The second stage of the two-stage detector *)

Lemma run_bind {A B} (m : M A) (f : A -> M B) s x s' :
  m s = (inr x, s') -> (m ≫= f) s = f x s'.
Proof. unfold mbind, M_mbind, M_bind. by intros ->. Qed.

Lemma run_getitem k d v : d !! k = Some v -> getitem k (Some d) = (inr v, Some d).
Proof. unfold getitem. by intros ->. Qed.

Lemma run_pop k d v : d !! k = Some v -> pop k (Some d) = (inr v, Some (delete k d)).
Proof. unfold pop. by intros ->. Qed.

Lemma run_call {A} (e : E A) x s : e = inr x -> call e s = (inr x, s).
Proof. unfold call. by intros ->. Qed.

Lemma repeat0_scalar {A} (x : A) (n : Z) :
  (0 <= n)%Z ->
  repeat0 (Tensor [] [x]) n
  = inr (Tensor [Z.to_nat n] (replicate (Z.to_nat n) x)).
Proof.
  intros Hn. unfold repeat0.
  replace (n <? 0)%Z with false by (symmetry; apply Z.ltb_ge; lia).
  cbn. by rewrite app_nil_r.
Qed.

Lemma tf_repeat_copies (v count v' : value) (n : Z) :
  scalar_int count = Some n -> (0 <= n)%Z -> copies n v = Some v' ->
  tf_repeat v count = inr v'.
Proof.
  intros Hc Hn Hv. unfold tf_repeat.
  destruct count as [|?|?|[[|? ?] [|? [|? ?]]]|?|?]; simplify_eq/=.
  all: destruct v as [|?|[[|? ?] [|? [|? ?]]]|[[|? ?] [|? [|? ?]]]
                      |[[|? ?] [|? [|? ?]]]|[[|? ?] [|? [|? ?]]]];
    simplify_eq/=.
  all: unfold scalar; by rewrite (repeat0_scalar _ n Hn).
Qed.

Section Stage2.
Context `{Runtime}.

(** C9.  On a bundle that has the proposals, their count [n], the image name
    and the image id, [faster_rcnn_stage2] returns; in the bundle it hands
    back ['num_rpn_boxes'] is gone, ['image_name'] and ['image_id'] hold the
    rank-1 tensors that repeat the original scalars [n] times, one copy per
    proposal, ['rpn_proposals'] is still there with its value, and no other
    key has changed. *)
Theorem stage2_repeats_name_and_id (featuremap : tensor float)
    (height width : option Z) (max_pad : Z) (d : bundle)
    (proposals count name id name' id' : value) (n : Z) :
  d !! "rpn_proposals" = Some proposals ->
  d !! "num_rpn_boxes" = Some count ->
  d !! "image_name" = Some name ->
  d !! "image_id" = Some id ->
  scalar_int count = Some n ->
  (0 <= n)%Z ->
  copies n name = Some name' ->
  copies n id = Some id' ->
  let d' := stage2_bundle d name' id' in
  faster_rcnn_stage2 (VF featuremap) height width max_pad (Some d)
  = (inr (VF (squeeze (roi_align featuremap proposals))), Some d')
  ∧ d' !! "num_rpn_boxes" = None
  ∧ d' !! "image_name" = Some name'
  ∧ d' !! "image_id" = Some id'
  ∧ d' !! "rpn_proposals" = Some proposals
  ∧ frame ["num_rpn_boxes"; "image_name"; "image_id"] d d'.
Proof.
  intros Hp Hc Hn Hi Hcount Hpos Hname Hid d'. subst d'. unfold stage2_bundle.
  split_and!.
  - unfold faster_rcnn_stage2.
    erewrite run_bind by (by apply run_getitem).
    erewrite run_bind by (by apply run_pop).
    erewrite run_bind by (apply run_pop; by rewrite lookup_delete_ne).
    erewrite run_bind by (apply run_pop; by rewrite !lookup_delete_ne).
    erewrite run_bind
      by (erewrite run_bind
            by (apply run_call; by eapply tf_repeat_copies); reflexivity).
    erewrite run_bind
      by (erewrite run_bind
            by (apply run_call; by eapply tf_repeat_copies); reflexivity).
    reflexivity.
  - by map_simpl.
  - by map_simpl.
  - by map_simpl.
  - by map_simpl.
  - intros k Hk. rewrite !not_elem_of_cons in Hk. destruct_and!. by map_simpl.
Qed.
End Stage2.

Lemma stage2_repeats_name_and_id_witness :
  (returned (faster_rcnn_stage2 (H := sample_runtime)
               (VF (fill [1; 2; 2; 1]%nat (Fin 0))) None None 100
               (Some sample_bundle)) VNone
   = VF (fill [2; 2]%nat (Fin 0)))
  ∧ stage2_bundle sample_bundle
      (VS (vector ["000001.jpg"; "000001.jpg"; "000001.jpg"]))
      (VI (vector [42; 42; 42]%Z)) !! "image_name"
    = Some (VS (vector ["000001.jpg"; "000001.jpg"; "000001.jpg"])).
Proof.
  pose proof (stage2_repeats_name_and_id (H := sample_runtime)
                (fill [1; 2; 2; 1]%nat (Fin 0)) None None 100 sample_bundle
                (VF (Tensor [3; 4]%nat (replicate 12 (Fin 0))))
                (VI (scalar 3%Z)) (VS (scalar "000001.jpg")) (VI (scalar 42%Z))
                (VS (vector ["000001.jpg"; "000001.jpg"; "000001.jpg"]))
                (VI (vector [42; 42; 42]%Z)) 3
                eq_refl eq_refl eq_refl eq_refl eq_refl ltac:(lia) eq_refl eq_refl)
    as (Hrun & _ & Hname & _).
  split; [|exact Hname].
  unfold returned. by rewrite Hrun.
Defined.

(** ** The padding bound of one *)

(** C7, where the code departs from it.  With [max_tensor_padding = 1] the
    padded tensor has shape [[1, 1]] and the [tf.squeeze] without an axis
    removes both axes: [_pad_tensor] returns a rank-0 tensor, not a tensor of
    length one, and the [tf.expand_dims(..., axis=1)] its callers apply to
    the result is rejected.  (For every other bound, lemma [pad_tensor_ok]
    gives the vector of length [max_tensor_padding] that the claim
    describes, and lemma [pad_tensor_too_long] the runtime's error when the
    input is longer than the bound.) *)
Theorem pad_tensor_bound_one (x : float) :
  _pad_tensor (vector [x]) 1 = inr (scalar x)
  ∧ shape (scalar x) ≠ [1%nat]
  ∧ (p ← _pad_tensor (vector [x]) 1; expand_dims p 1)
    = inl InvalidArgumentError.
Proof. split_and!; [reflexivity | discriminate | reflexivity]. Qed.

(** ** The resize of [yolo_v3] *)

Lemma fle_Fin (a b : Q) : fle (Fin a) (Fin b) = true <-> (a <= b)%Q.
Proof.
  unfold fle, fcompare. destruct (Qcompare_spec a b) as [Heq|Hlt|Hgt].
  - split; [intros _; rewrite Heq; apply Qle_refl|done].
  - split; [intros _; by apply Qlt_le_weak|done].
  - split; [done|]. intros Hle. exfalso. by apply (Qlt_not_le _ _ Hgt).
Qed.

Lemma clip_in_range (x : float) :
  is_nan x = false -> in_pixel_range (fmax (fmin x (F32.of_Z 255)) (F32.of_Z 0)).
Proof.
  intros Hx.
  change (F32.of_Z 255) with (Fin 255). change (F32.of_Z 0) with (Fin 0).
  unfold in_pixel_range.
  destruct x as [|[]|a]; try done.
  unfold fmin, fmax. cbn [fcompare].
  destruct (Qcompare_spec a 255) as [Heq|Hlt|Hgt]; cbn [fcompare].
  - destruct (Qcompare_spec a 0) as [Heq'|Hlt'|Hgt']; rewrite !fle_Fin.
    + rewrite Heq' in Heq. done.
    + done.
    + split; [by apply Qlt_le_weak|]. rewrite Heq. apply Qle_refl.
  - destruct (Qcompare_spec a 0) as [Heq'|Hlt'|Hgt']; rewrite !fle_Fin.
    + rewrite Heq'. done.
    + done.
    + split; by apply Qlt_le_weak.
  - done.
Qed.

Lemma clip_by_value_in_range (t : tensor float) :
  (∀ x, x ∈ data t -> is_nan x = false) ->
  ∀ y, y ∈ data (clip_by_value t (F32.of_Z 0) (F32.of_Z 255)) -> in_pixel_range y.
Proof.
  intros Ht y Hy. unfold clip_by_value, tmap in Hy. cbn [data] in Hy.
  apply list_elem_of_fmap in Hy as (x & -> & Hx). by apply clip_in_range, Ht.
Qed.

Lemma resize_images_inr `{Runtime} m align_corners t height width r :
  resize_images m align_corners t height width = inr r ->
  r = tf_resize m align_corners t height width
  ∧ (0 < height)%Z ∧ (0 < width)%Z
  ∧ ∃ b h w c, shape t = [b; h; w; c] ∧ (0 < h)%nat ∧ (0 < w)%nat.
Proof.
  unfold resize_images.
  destruct (shape t) as [|b [|h [|w [|c [|??]]]]]; try done.
  destruct (_ && _) eqn:Hg; [|done]. intros [= <-].
  rewrite !andb_true_iff, !Z.ltb_lt in Hg. destruct_and!.
  split_and!; [done..|]. exists b, h, w, c. split_and!; [done|lia..].
Qed.

Lemma clip_nan_or_in_range (x : float) :
  let y := fmax (fmin x (F32.of_Z 255)) (F32.of_Z 0) in
  if is_nan x then y = NaN else in_pixel_range y.
Proof.
  destruct x as [|b|a] eqn:Hx; [done|..]; cbn [is_nan].
  all: apply clip_in_range; done.
Qed.

Section YoloV3.
Context `{Runtime}.

Lemma yolo_v3_image image height width d img h0 w0 :
  cast_float32 image = inr img ->
  dim img 0 = inr h0 -> dim img 1 = inr w0 ->
  height ≠ 0%Z -> width ≠ 0%Z ->
  wp (yolo_v3 image (Some height) (Some width)) (Some d)
    (λ image' _,
       ∃ t, image' = VF t ∧
         squeeze0 (clip_by_value
                     (tf_resize (yolo_v3_kernel h0 w0 height width) true
                        (Tensor (1%nat :: shape img) (data img)) height width)
                     (F32.of_Z 0) (F32.of_Z 255)) = inr t).
Proof.
  intros Hc H0 H1 Hh Hw. unfold yolo_v3.
  assert (truthy (Some height) && truthy (Some width) = true) as ->.
  { cbn. by rewrite !(proj2 (Z.eqb_neq _ _)). }
  wp_auto.
  all: rewrite Hc in *; simplify_eq.
  all: rewrite H0, H1 in *; simplify_eq/=.
  all: repeat match goal with
              | H : item (scalar _) = inr _ |- _ => injection H as <-
              | H : expand_dims _ 0 = inr _ |- _ =>
                  unfold expand_dims in H; rewrite decide_True in H by lia;
                  cbn [take drop app] in H; injection H as <-
              end.
  all: eexists; split; [reflexivity|].
  all: match goal with
       | H : squeeze0 _ = inr ?x |- _ = inr ?x => rewrite <- H; clear H
       end.
  all: match goal with
       | H : (if _ then _ else _) = inr ?x
         |- squeeze0 (clip_by_value ?r _ _) = _ =>
           assert (x = r) as ->; [|done];
           unfold yolo_v3_kernel; repeat case_decide;
           repeat match type of H with
                  | context [(?a <? ?b)%Z] => destruct (Z.ltb_spec a b)
                  end; cbn [andb] in H;
           first [ by apply resize_images_inr in H as [-> _] | lia ]
       end.
Qed.

(** C6.  With [height] and [width] given, [yolo_v3] resizes with the kernel
    chosen by strict comparison against the image dimensions (bicubic when
    the target is strictly larger in both, area when strictly smaller in
    both, bilinear in every other case, ties and mixed cases included),
    always with [align_corners=True]; the image it returns is that resized
    image clipped.  A pixel the kernel delivers as a number comes out in
    [[0.0, 255.0]]; a pixel it delivers as NaN passes [tf.clip_by_value]
    and comes out as NaN.  So the pixels of the returned image lie in
    [[0.0, 255.0]] when the kernel delivers numbers only. *)
Theorem yolo_v3_kernel_and_clip (image : value) (height width : Z) (d : bundle)
    (img : tensor float) (h0 w0 : Z) (image' : value) (s' : option bundle) :
  cast_float32 image = inr img ->
  dim img 0 = inr h0 -> dim img 1 = inr w0 ->
  height ≠ 0%Z -> width ≠ 0%Z ->
  let resized :=
    tf_resize (yolo_v3_kernel h0 w0 height width) true
      (Tensor (1%nat :: shape img) (data img)) height width in
  yolo_v3 image (Some height) (Some width) (Some d) = (inr image', s') ->
  ∃ t, image' = VF t
    ∧ squeeze0 (clip_by_value resized (F32.of_Z 0) (F32.of_Z 255)) = inr t
    ∧ Forall2 (λ x y, if is_nan x then y = NaN else in_pixel_range y)
        (data resized) (data t)
    ∧ ((∀ x, x ∈ data resized -> is_nan x = false) ->
       ∀ y, y ∈ data t -> in_pixel_range y).
Proof.
  intros Hc H0 H1 Hh Hw resized Hrun.
  destruct (wp_elim _ _ _ _ _ (yolo_v3_image image height width d img h0 w0
                                 Hc H0 H1 Hh Hw) Hrun) as (t & -> & Ht).
  exists t. split_and!; [done..| |].
  all: fold resized in Ht; unfold squeeze0 in Ht.
  all: destruct (shape (clip_by_value resized (F32.of_Z 0) (F32.of_Z 255)))
         as [|[|[|?]] ?]; simplify_eq/=.
  - apply Forall2_fmap_r, Forall_Forall2_diag, Forall_forall.
    intros x _. apply clip_nan_or_in_range.
  - intros Hnan y Hy. by apply (clip_by_value_in_range resized Hnan).
Qed.
End YoloV3.

Lemma yolo_v3_kernel_and_clip_witness :
  ∃ t, returned (yolo_v3 (H := sample_runtime) sample_image (Some 4%Z) (Some 4%Z)
                   (Some sample_bundle)) VNone = VF t
    ∧ ∀ y, y ∈ data t -> in_pixel_range y.
Proof.
  destruct (yolo_v3_kernel_and_clip (H := sample_runtime) sample_image 4 4
              sample_bundle (tmap F32.of_Z (fill [2; 3; 3]%nat 200%Z)) 2 3
              (returned (yolo_v3 (H := sample_runtime) sample_image (Some 4%Z)
                           (Some 4%Z) (Some sample_bundle)) VNone)
              (snd (yolo_v3 (H := sample_runtime) sample_image (Some 4%Z)
                      (Some 4%Z) (Some sample_bundle))))
    as (t & Ht & _ & _ & Hrange).
  - reflexivity.
  - reflexivity.
  - reflexivity.
  - discriminate.
  - discriminate.
  - reflexivity.
  - exists t. split; [done|]. apply Hrange.
    vm_compute. intros x Hx. apply list_elem_of_In in Hx.
    repeat (destruct Hx as [<-|Hx]; [reflexivity|]). destruct Hx.
Defined.

(** C6, counterexample to the unconditional range.  A float image whose
    pixels are NaN, resized by a kernel that maps a constant image to the
    constant image: [yolo_v3] returns NaN pixels, which are not in
    [[0.0, 255.0]]. *)
Lemma yolo_v3_returns_nan_pixel :
  ∃ t s', yolo_v3 (H := constant_runtime) nan_image (Some 4%Z) (Some 4%Z)
            (Some sample_bundle) = (inr (VF t), s')
    ∧ NaN ∈ data t ∧ ¬ in_pixel_range NaN.
Proof.
  eexists _, _. split; [reflexivity|]. split.
  - vm_compute. apply list_elem_of_here.
  - intros [Hlo _]. discriminate Hlo.
Qed.

(** ** The boxes carried forward *)

Lemma float_of_Some v k : float_of v = Some k -> cast_float32 v = inr (scalar k).
Proof.
  unfold float_of. destruct (cast_float32 v) as [|[[|??] [|?[|??]]]]; by intros [= ->].
Qed.

Lemma dim_of_cast image x i n :
  cast_float32 image = inr x -> dim x i = inr n -> dim_of image i = Some n.
Proof.
  unfold dim_of. intros Hc Hd.
  destruct image; simplify_eq/=; unfold dim in *; cbn [tmap shape scalar] in *.
  all: by rewrite Hd.
Qed.

Lemma dim_of_Some image i n : image_dim image i = inr n -> dim_of image i = Some n.
Proof. unfold dim_of. by intros ->. Qed.

Lemma layout_plain kx ky n l1 l2 l3 l4 :
  layout (plain_law kx ky n) l1 l2 l3 l4
  = xywh (padded n (scale_by (Some kx) <$> l1)) (padded n (scale_by (Some ky) <$> l3))
         (padded n (scale_by (Some kx) <$> l2)) (padded n (scale_by (Some ky) <$> l4)).
Proof. unfold layout, scaled. cbn. by rewrite !list_fmap_id. Qed.

Lemma pad_column (l : list float) (n : Z) (c : tensor float) :
  (p ← _pad_tensor (vector l) n; expand_dims p 1) = inr c ->
  c = column (padded n l) ∧ (Z.of_nat (length l) <= n)%Z ∧ n ≠ 1%Z.
Proof.
  destruct (Z_le_gt_dec (Z.of_nat (length l)) n) as [Hle|Hgt].
  - rewrite pad_tensor_ok by done. rewrite E_bind_inr.
    unfold expand_dims, rank. cbn [shape data].
    destruct (decide (n = 1%Z)) as [->|Hne]; [done|].
    cbn. intros [= <-]. split; [|done]. unfold column.
    by rewrite length_padded.
  - by rewrite pad_tensor_too_long by lia.
Qed.

Lemma scaled_column (l : list float) (v : value) (k : float) (n : Z)
    (c : tensor float) :
  cast_float32 v = inr (scalar k) ->
  (x ← as_float (VF (vector l));
   k ← cast_float32 v;
   y ← bcast2 F32.mul x k;
   p ← _pad_tensor y n;
   expand_dims p 1) = inr c ->
  c = column (padded n (scale_by (Some k) <$> l))
  ∧ (Z.of_nat (length l) <= n)%Z ∧ n ≠ 1%Z.
Proof.
  intros -> Hc. by apply (extract_column l (Some k)).
Qed.

Lemma mapped_column (f : float -> float) (l : list float) (n : Z)
    (c : tensor float) :
  (x ← as_float (VF (vector l));
   p ← _pad_tensor (tmap f x) n;
   expand_dims p 1) = inr c ->
  c = column (padded n (f <$> l)) ∧ (Z.of_nat (length l) <= n)%Z ∧ n ≠ 1%Z.
Proof.
  cbn [as_float mbind E_mbind E_bind]. intros Hc.
  assert (tmap f (vector l) = vector (f <$> l)) as Ht.
  { unfold tmap, vector. cbn. by rewrite length_fmap. }
  rewrite Ht in Hc. apply pad_column in Hc. by rewrite length_fmap in Hc.
Qed.

(** Two hypotheses that read one key name one value. *)
Ltac same_key :=
  repeat match goal with
         | Ha : ?d !! ?k = Some ?v, Hb : ?d !! ?k = Some _ |- _ =>
             is_var v; rewrite Hb in Ha; injection Ha as <-
         end.

Ltac same_cast :=
  repeat match goal with
         | Ha : cast_float32 ?v = inr ?x, Hb : cast_float32 ?v = inr (scalar _)
           |- _ => is_var x; rewrite Hb in Ha; injection Ha as <-
         end.

Lemma bcast2_scalars {A B C} (f : A -> B -> C) (a : A) (b : B) :
  bcast2 f (scalar a) (scalar b) = inr (scalar (f a b)).
Proof. reflexivity. Qed.

Lemma tmap_scalar {A B} (f : A -> B) (a : A) : tmap f (scalar a) = scalar (f a).
Proof. reflexivity. Qed.

Lemma bcast2_column_scalar {A B C} (f : A -> B -> C) (l : list A) (b : B) :
  bcast2 f (column l) (scalar b) = inr (column ((λ x, f x b) <$> l)).
Proof. unfold bcast2, column, tmap. cbn. by rewrite length_fmap. Qed.

Lemma clip_column (l : list float) (lo hi : float) :
  clip_by_value (column l) lo hi = column ((λ x, fmax (fmin x hi) lo) <$> l).
Proof. unfold clip_by_value, column, tmap. cbn. by rewrite length_fmap. Qed.

Lemma cast_py_int (n : Z) :
  cast_float32 (py_int (Some n)) = inr (scalar (F32.of_Z n)).
Proof. reflexivity. Qed.

Lemma E_inr_inj {A} (a b : A) : @inr exn A a = inr b -> a = b.
Proof. by intros [= ->]. Qed.

(** Evaluation of the tensor expression of a hypothesis [e = inr x]. *)
Ltac eval_in H :=
  repeat first
    [ rewrite bcast2_scalars in H
    | rewrite cast_py_int in H
    | rewrite bcast2_column_scalar in H
    | rewrite tmap_scalar in H
    | rewrite clip_column in H
    | rewrite E_bind_inr in H
    | progress cbv beta in H ].

Ltac eval_hyps :=
  repeat match reverse goal with
         | H : ?e = inr ?x |- _ =>
             is_var x;
             lazymatch e with
             | cast_float32 (py_int (Some _)) => idtac
             | context [bcast2] => idtac
             | inr _ => idtac
             end;
             eval_in H;
             apply E_inr_inj in H; subst x
         end.

Ltac side := map_simpl; first [eassumption | reflexivity].

Ltac inj_some :=
  repeat match goal with
         | H : Some _ = Some ?v |- _ => is_var v; injection H as <-
         end.

Ltac wp_strong_step :=
  lazymatch goal with
  | |- wp (_cast_image_info_types _ _) (Some _) _ => apply wp_cast; intros ? ?
  | |- wp (_extract_box_from_image_info _ true) (Some _) _ =>
      inj_some; same_key; eapply wp_extract_normalized;
      [ side | side | side | side | side | side | side | side
      | intros ? ? ? ? ? ]
  | |- wp (_extract_box_from_image_info _ false) (Some _) _ =>
      eapply wp_extract_plain; [ side | side | side | side | intros ? ? ? ? ? ]
  | |- wp (assign_bbox _) (Some _) _ =>
      apply wp_assign_bbox;
      [ rewrite !length_padded by (by rewrite length_fmap); done ..
      | ]
  | |- wp (assign_area _) (Some _) _ => apply wp_assign_area; intros ?
  | _ => wp_step
  end.

Ltac wp_strong := repeat wp_strong_step.

Ltac bbox_done :=
  eexists; split; [reflexivity|]; map_simpl; rewrite ?layout_plain; done.

Section Boxes.
Context `{Runtime}.

Lemma resnet_bbox image height width max_pad d kx ky l1 l2 l3 l4 :
  is_Some (d !! "num_boxes") ->
  d !! "width" ≫= float_of = Some kx ->
  d !! "height" ≫= float_of = Some ky ->
  d !! "xmin" = Some (VF (vector l1)) -> d !! "xmax" = Some (VF (vector l2)) ->
  d !! "ymin" = Some (VF (vector l3)) -> d !! "ymax" = Some (VF (vector l4)) ->
  wp (resnet_v1_18_detection image height width max_pad) (Some d)
    (λ _ s', has_bbox (layout (plain_law kx ky max_pad) l1 l2 l3 l4) s').
Proof.
  intros Hn Hkx Hky H1 H2 H3 H4.
  destruct (d !! "width") as [wv|] eqn:Hw; [|done].
  destruct (d !! "height") as [hv|] eqn:Hh; [|done].
  apply float_of_Some in Hkx, Hky.
  unfold resnet_v1_18_detection.
  wp_strong. all: known. all: bbox_done.
Qed.

Lemma regnet_bbox image height width max_pad d kx ky l1 l2 l3 l4 :
  is_Some (d !! "num_boxes") ->
  d !! "width" ≫= float_of = Some kx ->
  d !! "height" ≫= float_of = Some ky ->
  d !! "xmin" = Some (VF (vector l1)) -> d !! "xmax" = Some (VF (vector l2)) ->
  d !! "ymin" = Some (VF (vector l3)) -> d !! "ymax" = Some (VF (vector l4)) ->
  wp (regnet_detection image height width max_pad) (Some d)
    (λ _ s', has_bbox (layout (plain_law kx ky max_pad) l1 l2 l3 l4) s').
Proof.
  intros Hn Hkx Hky H1 H2 H3 H4.
  destruct (d !! "width") as [wv|] eqn:Hw; [|done].
  destruct (d !! "height") as [hv|] eqn:Hh; [|done].
  apply float_of_Some in Hkx, Hky.
  unfold regnet_detection.
  wp_strong. all: known. all: bbox_done.
Qed.

Lemma yolo_v5_bbox image height width color d kx ky l1 l2 l3 l4 :
  is_Some (d !! "num_boxes") ->
  d !! "width" ≫= float_of = Some kx ->
  d !! "height" ≫= float_of = Some ky ->
  d !! "xmin" = Some (VF (vector l1)) -> d !! "xmax" = Some (VF (vector l2)) ->
  d !! "ymin" = Some (VF (vector l3)) -> d !! "ymax" = Some (VF (vector l4)) ->
  wp (yolo_v5 image height width color) (Some d)
    (λ _ s', has_bbox (layout (plain_law kx ky MAX_PADDING_LENGTH) l1 l2 l3 l4) s').
Proof.
  intros Hn Hkx Hky H1 H2 H3 H4.
  destruct (d !! "width") as [wv|] eqn:Hw; [|done].
  destruct (d !! "height") as [hv|] eqn:Hh; [|done].
  apply float_of_Some in Hkx, Hky.
  unfold yolo_v5.
  wp_strong. all: known. all: bbox_done.
Qed.

Lemma face_ssd_bbox image height width max_pad d kx ky l1 l2 l3 l4 :
  is_Some (d !! "num_boxes") ->
  d !! "width" ≫= float_of = Some kx ->
  d !! "height" ≫= float_of = Some ky ->
  d !! "xmin" = Some (VF (vector l1)) -> d !! "xmax" = Some (VF (vector l2)) ->
  d !! "ymin" = Some (VF (vector l3)) -> d !! "ymax" = Some (VF (vector l4)) ->
  wp (face_ssd image height width max_pad) (Some d)
    (λ _ s', has_bbox (layout (plain_law kx ky max_pad) l1 l2 l3 l4) s').
Proof.
  intros Hn Hkx Hky H1 H2 H3 H4.
  destruct (d !! "width") as [wv|] eqn:Hw; [|done].
  destruct (d !! "height") as [hv|] eqn:Hh; [|done].
  apply float_of_Some in Hkx, Hky.
  unfold face_ssd.
  wp_strong. all: known. all: bbox_done.
Qed.

Lemma retinaface_bbox image height width max_pad d kx ky l1 l2 l3 l4 :
  is_Some (d !! "num_boxes") ->
  d !! "width" ≫= float_of = Some kx ->
  d !! "height" ≫= float_of = Some ky ->
  d !! "xmin" = Some (VF (vector l1)) -> d !! "xmax" = Some (VF (vector l2)) ->
  d !! "ymin" = Some (VF (vector l3)) -> d !! "ymax" = Some (VF (vector l4)) ->
  wp (retinaface image height width max_pad) (Some d)
    (λ _ s', has_bbox (layout (plain_law kx ky max_pad) l1 l2 l3 l4) s').
Proof.
  intros Hn Hkx Hky H1 H2 H3 H4.
  destruct (d !! "width") as [wv|] eqn:Hw; [|done].
  destruct (d !! "height") as [hv|] eqn:Hh; [|done].
  apply float_of_Some in Hkx, Hky.
  unfold retinaface.
  wp_strong. all: known. all: bbox_done.
Qed.

Lemma fair_mot_bbox image height width max_pad d l1 l2 l3 l4 :
  d ≠ ∅ ->
  d !! "xmin" = Some (VF (vector l1)) -> d !! "xmax" = Some (VF (vector l2)) ->
  d !! "ymin" = Some (VF (vector l3)) -> d !! "ymax" = Some (VF (vector l4)) ->
  wp (fair_mot image height width max_pad) (Some d)
    (λ _ s', has_bbox (layout (plain_law (F32.of_Z 1) (F32.of_Z 1) max_pad) l1 l2 l3 l4) s').
Proof.
  intros Hn H1 H2 H3 H4.
  unfold fair_mot.
  wp_strong. all: known. all: bbox_done.
Qed.

Lemma yolo_v3_bbox image height width d ih iw l1 l2 l3 l4 :
  is_Some (d !! "num_boxes") ->
  dim_of image 0 = Some ih -> dim_of image 1 = Some iw ->
  d !! "xmin" = Some (VF (vector l1)) -> d !! "xmax" = Some (VF (vector l2)) ->
  d !! "ymin" = Some (VF (vector l3)) -> d !! "ymax" = Some (VF (vector l4)) ->
  wp (yolo_v3 image height width) (Some d)
    (λ _ s', has_bbox (layout (plain_law (F32.of_Z iw) (F32.of_Z ih) MAX_PADDING_LENGTH) l1 l2 l3 l4) s').
Proof.
  intros Hn Hih Hiw H1 H2 H3 H4.
  unfold yolo_v3.
  wp_strong. all: known.
  all: repeat match goal with
         | Hc : cast_float32 ?im = inr ?x, Hd : dim ?x ?i = inr ?n,
           Hi : dim_of ?im ?i = Some _ |- _ =>
             rewrite (dim_of_cast im x i n Hc Hd) in Hi; injection Hi as ->
         end.
  all: bbox_done.
Qed.

Lemma mobilenet_ssd_bbox image height width max_pad d kx ky l1 l2 l3 l4 :
  is_Some (d !! "num_boxes") ->
  d !! "width" ≫= float_of = Some kx ->
  d !! "height" ≫= float_of = Some ky ->
  d !! "xmin" = Some (VF (vector l1)) -> d !! "xmax" = Some (VF (vector l2)) ->
  d !! "ymin" = Some (VF (vector l3)) -> d !! "ymax" = Some (VF (vector l4)) ->
  wp (mobilenet_ssd image height width max_pad) (Some d)
    (λ _ s', has_bbox (layout (plain_law kx ky max_pad) l1 l2 l3 l4) s').
Proof.
  intros Hn Hkx Hky H1 H2 H3 H4.
  destruct (d !! "width") as [wv|] eqn:Hw; [|done].
  destruct (d !! "height") as [hv|] eqn:Hh; [|done].
  apply float_of_Some in Hkx, Hky.
  unfold mobilenet_ssd.
  wp_strong. all: known. all: same_key.
  all: repeat match goal with
         | Hc : _ = inr ?c |- context [assign_bbox (_, _, _, _)] =>
             is_var c; eapply scaled_column in Hc as (-> & ? & ?); [|eassumption]
         end.
  all: wp_strong. all: bbox_done.
Qed.

Lemma E_bind_inv {A B} (m : E A) (f : A -> E B) (y : B) :
  (m ≫= f) = inr y -> ∃ x, m = inr x ∧ f x = inr y.
Proof. destruct m as [e|x]; [done|]. intros Hf. by exists x. Qed.

Lemma ar_fields height image width r :
  _ar_preserving_resize_and_crop height image width = inr r ->
  ∃ ih iw,
    image_dim image 0 = inr ih ∧ image_dim image 1 = inr iw
    ∧ image_height r = ih ∧ image_width r = iw
    ∧ image_height_float r = F32.of_Z ih ∧ image_width_float r = F32.of_Z iw
    ∧ aspect_ratio_factor r = ar_factor ih iw height width
    ∧ new_height r
      = to_int32 (F32.mul (ar_factor ih iw height width) (F32.of_Z ih))
    ∧ new_width r
      = to_int32 (F32.mul (ar_factor ih iw height width) (F32.of_Z iw)).
Proof.
  unfold _ar_preserving_resize_and_crop. intros Hr.
  apply E_bind_inv in Hr as (ih & Hih & Hr).
  apply E_bind_inv in Hr as (iw & Hiw & Hr).
  apply E_bind_inv in Hr as (img & _ & Hr).
  apply E_bind_inv in Hr as (rz & _ & Hr).
  apply E_bind_inv in Hr as (p & _ & Hr).
  apply E_bind_inv in Hr as (q & _ & Hr).
  injection Hr as <-. exists ih, iw. done.
Qed.

Lemma layout_ar ih iw h w n l1 l2 l3 l4 :
  layout (ar_law ih iw h w n) l1 l2 l3 l4
  = let f := ar_factor ih iw h w in
    xywh (padded n ((λ a, F32.mul (F32.mul a f) (F32.of_Z iw)) <$> l1))
         (padded n ((λ a, F32.mul (F32.mul a f) (F32.of_Z ih)) <$> l3))
         (padded n ((λ a, F32.mul (F32.mul a f) (F32.of_Z iw)) <$> l2))
         (padded n ((λ a, F32.mul (F32.mul a f) (F32.of_Z ih)) <$> l4)).
Proof. unfold layout, scaled. cbn. by rewrite !list_fmap_id. Qed.

Ltac lengths :=
  rewrite ?length_fmap, ?length_padded by (by rewrite length_fmap).

Ltac lengths_in H :=
  rewrite ?length_fmap, ?length_padded in H by (by rewrite length_fmap).

(** The inline tail [w = xmax - xmin; h = ymax - ymin; concat]. *)
Ltac bbox_inline :=
  repeat match goal with
         | H : bcast2 _ (column _) (column _) = inr _ |- _ =>
             rewrite bcast2_columns in H by (by lengths);
             injection H as <-
         end;
  match goal with
  | H : concat1 _ = inr _ |- _ =>
      unfold column in H; lengths_in H;
      rewrite concat1_columns in H by (by lengths);
      injection H as <-
  end.

Lemma ar_preserving_bbox image h w max_pad d ih iw l1 l2 l3 l4 :
  d ≠ ∅ ->
  dim_of image 0 = Some ih -> dim_of image 1 = Some iw ->
  d !! "xmin" = Some (VF (vector l1)) -> d !! "xmax" = Some (VF (vector l2)) ->
  d !! "ymin" = Some (VF (vector l3)) -> d !! "ymax" = Some (VF (vector l4)) ->
  wp (mobilenet_ssd_ar_preserving image (Some h) (Some w) max_pad) (Some d)
    (λ _ s', has_bbox (layout (ar_law ih iw h w max_pad) l1 l2 l3 l4) s').
Proof.
  intros Hn Hih Hiw H1 H2 H3 H4.
  unfold mobilenet_ssd_ar_preserving.
  wp_strong. all: known. all: same_key.
  all: try match goal with
         | Hx : _ <$> None = Some _ |- _ => discriminate Hx
         end.
  all: match goal with
         | Hr : _ar_preserving_resize_and_crop _ _ _ = inr ?r |- _ =>
             apply ar_fields in Hr
               as (ih' & iw' & Hd0 & Hd1 & _ & _ & Hhf & Hwf & Hf & _ & _);
             apply dim_of_Some in Hd0, Hd1;
             rewrite Hd0 in Hih; rewrite Hd1 in Hiw;
             injection Hih as ->; injection Hiw as ->
         end.
  all: repeat match goal with
         | Hf : _ <$> Some _ = Some ?v |- _ =>
             is_var v; cbn [fmap option_fmap option_map] in Hf;
             injection Hf as <-
         end.
  all: repeat match goal with
         | Hc : (as_float _ ≫= _) = inr ?c |- _ =>
             is_var c; apply mapped_column in Hc as (-> & ? & ?)
         end.
  all: try bbox_inline.
  all: rewrite Hf, Hwf, Hhf.
  all: eexists; split; [reflexivity|]; map_simpl; by rewrite layout_ar.
Qed.

Lemma centernet_bbox image h w max_pad d kx ky l1 l2 l3 l4 :
  is_Some (d !! "num_boxes") ->
  d !! "width" ≫= float_of = Some kx ->
  d !! "height" ≫= float_of = Some ky ->
  d !! "xmin" = Some (VF (vector l1)) -> d !! "xmax" = Some (VF (vector l2)) ->
  d !! "ymin" = Some (VF (vector l3)) -> d !! "ymax" = Some (VF (vector l4)) ->
  wp (centernet_resnet_v1_18_detection image (Some h) (Some w) max_pad) (Some d)
    (λ _ s', has_bbox (layout (centernet_law kx ky h w max_pad) l1 l2 l3 l4) s').
Proof.
  intros Hn Hkx Hky H1 H2 H3 H4.
  destruct (d !! "width") as [wv|] eqn:Hw; [|done].
  destruct (d !! "height") as [hv|] eqn:Hh; [|done].
  apply float_of_Some in Hkx, Hky.
  unfold centernet_resnet_v1_18_detection.
  wp_strong. all: known.
  all: same_cast; eval_hyps; bbox_inline.
  all: eexists; split; [reflexivity|]; map_simpl.
  all: unfold layout, scaled, centernet_law, centernet_padding,
    centernet_ratio, clip.
  all: cbn [pre_x pre_y post_x post_y pad_to].
  all: rewrite <- !list_fmap_compose.
  all: reflexivity.
Qed.

(** X1.  On the annotation path of each of the ten functions the boxes
    handed back under ['bbox'] are the rows [[xmin, ymin, xmax - xmin,
    ymax - ymin]] of the scaled corner vectors: every corner is multiplied by
    the function's own factor (the scaling [box_law] reads off the source),
    padded with [-1] to the padding length, and, for CenterNet, resized,
    shifted and clipped. *)
Theorem bbox_is_xywh_of_scaled_corners (m : model) (image : value)
    (height width : option Z) (max_pad : Z) (color : list Q) (d : bundle)
    (L : scale_law) (l1 l2 l3 l4 : list float)
    (image' : value) (s' : option bundle) :
  is_Some (d !! "num_boxes") ->
  box_law m image height width max_pad d = Some L ->
  d !! "xmin" = Some (VF (vector l1)) -> d !! "xmax" = Some (VF (vector l2)) ->
  d !! "ymin" = Some (VF (vector l3)) -> d !! "ymax" = Some (VF (vector l4)) ->
  preprocess m image height width max_pad color (Some d) = (inr image', s') ->
  has_bbox (layout L l1 l2 l3 l4) s'.
Proof.
  intros Hn HL H1 H2 H3 H4 Hrun.
  refine (wp_elim _ _ (λ _ s', has_bbox (layout L l1 l2 l3 l4) s') _ _ _ Hrun).
  assert (d ≠ ∅) as Hd by (by apply (lookup_nonempty d "num_boxes")).
  destruct m; cbn [preprocess box_law] in *.
  - destruct (d !! "width" ≫= float_of) as [kx|] eqn:Hkx; [|done].
    destruct (d !! "height" ≫= float_of) as [ky|] eqn:Hky; [|done].
    destruct height as [h|]; [|done]. destruct width as [w|]; [|done].
    injection HL as <-. by apply centernet_bbox.
  - destruct (dim_of image 0) as [ih|] eqn:Hih; [|done].
    destruct (dim_of image 1) as [iw|] eqn:Hiw; [|done].
    injection HL as <-. by apply yolo_v3_bbox.
  - destruct (d !! "width" ≫= float_of) as [kx|] eqn:Hkx; [|done].
    destruct (d !! "height" ≫= float_of) as [ky|] eqn:Hky; [|done].
    injection HL as <-. by apply yolo_v5_bbox.
  - destruct (d !! "width" ≫= float_of) as [kx|] eqn:Hkx; [|done].
    destruct (d !! "height" ≫= float_of) as [ky|] eqn:Hky; [|done].
    injection HL as <-. by apply resnet_bbox.
  - destruct (d !! "width" ≫= float_of) as [kx|] eqn:Hkx; [|done].
    destruct (d !! "height" ≫= float_of) as [ky|] eqn:Hky; [|done].
    injection HL as <-. by apply regnet_bbox.
  - destruct (d !! "width" ≫= float_of) as [kx|] eqn:Hkx; [|done].
    destruct (d !! "height" ≫= float_of) as [ky|] eqn:Hky; [|done].
    injection HL as <-. by apply mobilenet_ssd_bbox.
  - destruct (dim_of image 0) as [ih|] eqn:Hih; [|done].
    destruct (dim_of image 1) as [iw|] eqn:Hiw; [|done].
    destruct height as [h|]; [|done]. destruct width as [w|]; [|done].
    injection HL as <-. by apply ar_preserving_bbox.
  - destruct (d !! "width" ≫= float_of) as [kx|] eqn:Hkx; [|done].
    destruct (d !! "height" ≫= float_of) as [ky|] eqn:Hky; [|done].
    injection HL as <-. by apply face_ssd_bbox.
  - destruct (d !! "width" ≫= float_of) as [kx|] eqn:Hkx; [|done].
    destruct (d !! "height" ≫= float_of) as [ky|] eqn:Hky; [|done].
    injection HL as <-. by apply retinaface_bbox.
  - injection HL as <-. by apply fair_mot_bbox.
Qed.

End Boxes.

Lemma bbox_is_xywh_of_scaled_corners_witness :
  has_bbox
    (layout (plain_law (F32.of_Z 3) (F32.of_Z 2) 100)
       [Fin (1 # 4); Fin (1 # 2)] [Fin (1 # 2); Fin 1]
       [Fin (1 # 4); Fin (1 # 2)] [Fin (3 # 4); Fin 1])
    (snd (preprocess (H := sample_runtime) Retinaface sample_image
            (Some 4%Z) (Some 4%Z) 100 yolo_v5_color (Some sample_bundle))).
Proof.
  apply (bbox_is_xywh_of_scaled_corners (H := sample_runtime) Retinaface
           sample_image (Some 4%Z) (Some 4%Z) 100 yolo_v5_color sample_bundle
           (plain_law (F32.of_Z 3) (F32.of_Z 2) 100)
           [Fin (1 # 4); Fin (1 # 2)] [Fin (1 # 2); Fin 1]
           [Fin (1 # 4); Fin (1 # 2)] [Fin (3 # 4); Fin 1]
           (returned (preprocess (H := sample_runtime) Retinaface sample_image
                        (Some 4%Z) (Some 4%Z) 100 yolo_v5_color
                        (Some sample_bundle)) VNone)).
  - vm_compute. eauto.
  - reflexivity.
  - reflexivity.
  - reflexivity.
  - reflexivity.
  - reflexivity.
  - reflexivity.
Defined.

(** ** What the functions record about the geometry *)

Lemma image_dim_float_if_uint8 image i :
  image_dim (float_if_uint8 image) i = image_dim image i.
Proof. by destruct image. Qed.

Section Records.
Context `{Runtime}.

(** X2.  [yolo_v5] with both sizes given and ['num_boxes'] in the bundle:
    a run that returns has letterboxed the image, and the bundle records
    the dimensions of the image as it came in under ['height'] and
    ['width'], the size of the resized image inside the letterbox under
    ['letterbox_height'] and ['letterbox_width'], and the total padding
    [width - new_width] and [height - new_height] under ['horizontal_pad']
    and ['vertical_pad']; the image returned is the letterboxed one, cast to
    float. *)
Theorem yolo_v5_records_geometry (image : value) (h w : Z) (color : list Q)
    (d : bundle) (image' : value) (s' : option bundle) :
  is_Some (d !! "num_boxes") ->
  yolo_v5 image (Some h) (Some w) color (Some d) = (inr image', s') ->
  ∃ ih iw img nw nh d',
    image_dim image 0 = inr ih ∧ image_dim image 1 = inr iw
    ∧ py_func_letterbox image h w color = inr (img, nw, nh)
    ∧ image' = VF (tmap F32.of_Z img)
    ∧ s' = Some d'
    ∧ yolo_v5_geometry ih iw h w nh nw d'.
Proof.
  intros Hn Hrun.
  refine (wp_elim _ _ (λ image' s', ∃ ih iw img nw nh d', _) _ _ _ Hrun).
  unfold yolo_v5. wp_auto. all: known.
  all: try match goal with Hx : None = Some _ |- _ => discriminate Hx end.
  inj_some. eexists _, _, _, _, _, _.
  split_and!; [done..|]. unfold yolo_v5_geometry. split_and!; by map_simpl.
Qed.

(** X3.  [face_ssd] resizes to the target size without padding, and says so:
    on a non-empty bundle and with both sizes given, a run that returns
    records the targets under ['height'] and ['width'], the dimensions of
    the incoming image under ['original_height'] and ['original_width'],
    and the Python integer [0] under both ['horizontal_pad'] and
    ['vertical_pad'], whatever the image and the targets are. *)
Theorem face_ssd_records_zero_padding (image : value) (h w max_pad : Z)
    (d : bundle) (image' : value) (s' : option bundle) :
  d ≠ ∅ ->
  face_ssd image (Some h) (Some w) max_pad (Some d) = (inr image', s') ->
  ∃ ih iw d',
    image_dim image 0 = inr ih ∧ image_dim image 1 = inr iw
    ∧ s' = Some d'
    ∧ d' !! "height" = Some (VInt h) ∧ d' !! "width" = Some (VInt w)
    ∧ d' !! "original_height" = Some (VI (scalar ih))
    ∧ d' !! "original_width" = Some (VI (scalar iw))
    ∧ d' !! "horizontal_pad" = Some (VInt 0)
    ∧ d' !! "vertical_pad" = Some (VInt 0).
Proof.
  intros Hn Hrun.
  refine (wp_elim _ _ (λ image' s', ∃ ih iw d', _) _ _ _ Hrun).
  unfold face_ssd. wp_auto. all: known.
  all: try match goal with Hx : None = Some _ |- _ => discriminate Hx end.
  all: inj_some.
  all: rewrite image_dim_float_if_uint8 in *.
  all: eexists _, _, _; split_and!; [done..| | | | | |]; map_simpl;
    rewrite ?Z.sub_diag; done.
Qed.

(** X4.  [retinaface] on a non-empty bundle and with both sizes given: a run
    that returns records the targets under ['height'] and ['width'], the
    dimensions of the incoming image under ['original_height'] and
    ['original_width'], and under ['horizontal_pad'] and ['vertical_pad'] the
    target minus the size the image was resized to, which is the truncated
    product of the aspect-ratio factor and the image dimension. *)
Theorem retinaface_records_geometry (image : value) (h w max_pad : Z)
    (d : bundle) (image' : value) (s' : option bundle) :
  d ≠ ∅ ->
  retinaface image (Some h) (Some w) max_pad (Some d) = (inr image', s') ->
  ∃ ih iw d',
    image_dim image 0 = inr ih ∧ image_dim image 1 = inr iw
    ∧ s' = Some d'
    ∧ d' !! "height" = Some (VInt h) ∧ d' !! "width" = Some (VInt w)
    ∧ d' !! "original_height" = Some (VI (scalar ih))
    ∧ d' !! "original_width" = Some (VI (scalar iw))
    ∧ d' !! "horizontal_pad"
      = Some (VI (scalar (w - to_int32 (F32.mul (ar_factor ih iw h w)
                                          (F32.of_Z iw)))%Z))
    ∧ d' !! "vertical_pad"
      = Some (VI (scalar (h - to_int32 (F32.mul (ar_factor ih iw h w)
                                          (F32.of_Z ih)))%Z)).
Proof.
  intros Hn Hrun.
  refine (wp_elim _ _ (λ image' s', ∃ ih iw d', _) _ _ _ Hrun).
  unfold retinaface. wp_auto. all: known.
  all: try match goal with Hx : _ <$> None = Some _ |- _ => discriminate Hx end.
  all: match goal with
       | Hr : _ar_preserving_resize_and_crop _ _ _ = inr ?r |- _ =>
           apply ar_fields in Hr
             as (ih & iw & Hd0 & Hd1 & Hih & Hiw & _ & _ & _ & Hnh & Hnw)
       end.
  all: repeat match goal with
         | Hf : _ <$> Some _ = Some ?v |- _ =>
             is_var v; cbn [fmap option_fmap option_map] in Hf;
             injection Hf as <-
         end.
  all: rewrite image_dim_float_if_uint8 in *.
  all: exists ih, iw; eexists; split_and!; [done..| | | | | |]; map_simpl;
    rewrite ?Hih, ?Hiw, ?Hnh, ?Hnw; done.
Qed.

(** X5.  [fair_mot] on a non-empty bundle and with both sizes given: a run
    that returns has letterboxed the image with the default border colour
    and records the targets under ['height'] and ['width'], the dimensions
    of the incoming image under ['original_height'] and ['original_width'],
    and the total padding [width - new_width] and [height - new_height]
    under ['horizontal_pad'] and ['vertical_pad']. *)
Theorem fair_mot_records_geometry (image : value) (h w max_pad : Z)
    (d : bundle) (image' : value) (s' : option bundle) :
  d ≠ ∅ ->
  fair_mot image (Some h) (Some w) max_pad (Some d) = (inr image', s') ->
  ∃ ih iw img nw nh d',
    image_dim image 0 = inr ih ∧ image_dim image 1 = inr iw
    ∧ py_func_letterbox image h w letterbox_color = inr (img, nw, nh)
    ∧ image' = VF (tmap F32.of_Z img)
    ∧ s' = Some d'
    ∧ d' !! "height" = Some (VInt h) ∧ d' !! "width" = Some (VInt w)
    ∧ d' !! "original_height" = Some (VI (scalar ih))
    ∧ d' !! "original_width" = Some (VI (scalar iw))
    ∧ d' !! "horizontal_pad" = Some (VI (scalar (w - nw)%Z))
    ∧ d' !! "vertical_pad" = Some (VI (scalar (h - nh)%Z)).
Proof.
  intros Hn Hrun.
  refine (wp_elim _ _ (λ image' s', ∃ ih iw img nw nh d', _) _ _ _ Hrun).
  unfold fair_mot. wp_auto. all: known.
  all: try match goal with Hx : None = Some _ |- _ => discriminate Hx end.
  inj_some. eexists _, _, _, _, _, _.
  split_and!; [done..| | | | | |]; by map_simpl.
Qed.

End Records.

Lemma yolo_v5_records_geometry_witness :
  ∃ ih iw img nw nh d',
    image_dim sample_image 0 = inr ih ∧ image_dim sample_image 1 = inr iw
    ∧ py_func_letterbox (H := sample_runtime) sample_image 4 4 yolo_v5_color
      = inr (img, nw, nh)
    ∧ returned (yolo_v5 (H := sample_runtime) sample_image (Some 4%Z)
                  (Some 4%Z) yolo_v5_color (Some sample_bundle)) VNone
      = VF (tmap F32.of_Z img)
    ∧ snd (yolo_v5 (H := sample_runtime) sample_image (Some 4%Z) (Some 4%Z)
             yolo_v5_color (Some sample_bundle)) = Some d'
    ∧ yolo_v5_geometry ih iw 4 4 nh nw d'.
Proof.
  apply (yolo_v5_records_geometry (H := sample_runtime) sample_image 4 4
           yolo_v5_color sample_bundle).
  - vm_compute. eauto.
  - reflexivity.
Defined.

Lemma face_ssd_records_zero_padding_witness :
  ∃ ih iw d',
    image_dim sample_image 0 = inr ih ∧ image_dim sample_image 1 = inr iw
    ∧ snd (face_ssd (H := sample_runtime) sample_image (Some 4%Z) (Some 5%Z)
             2048 (Some sample_bundle)) = Some d'
    ∧ d' !! "height" = Some (VInt 4) ∧ d' !! "width" = Some (VInt 5)
    ∧ d' !! "original_height" = Some (VI (scalar ih))
    ∧ d' !! "original_width" = Some (VI (scalar iw))
    ∧ d' !! "horizontal_pad" = Some (VInt 0)
    ∧ d' !! "vertical_pad" = Some (VInt 0).
Proof.
  apply (face_ssd_records_zero_padding (H := sample_runtime) sample_image 4 5
           2048 sample_bundle
           (returned (face_ssd (H := sample_runtime) sample_image (Some 4%Z)
                        (Some 5%Z) 2048 (Some sample_bundle)) VNone)).
  - apply (lookup_nonempty _ "num_boxes"). vm_compute. eauto.
  - reflexivity.
Defined.

Lemma retinaface_records_geometry_witness :
  ∃ ih iw d',
    image_dim sample_image 0 = inr ih ∧ image_dim sample_image 1 = inr iw
    ∧ snd (retinaface (H := sample_runtime) sample_image (Some 4%Z)
             (Some 5%Z) 2048 (Some sample_bundle)) = Some d'
    ∧ d' !! "height" = Some (VInt 4) ∧ d' !! "width" = Some (VInt 5)
    ∧ d' !! "original_height" = Some (VI (scalar ih))
    ∧ d' !! "original_width" = Some (VI (scalar iw))
    ∧ d' !! "horizontal_pad"
      = Some (VI (scalar (5 - to_int32 (F32.mul (ar_factor ih iw 4 5)
                                          (F32.of_Z iw)))%Z))
    ∧ d' !! "vertical_pad"
      = Some (VI (scalar (4 - to_int32 (F32.mul (ar_factor ih iw 4 5)
                                          (F32.of_Z ih)))%Z)).
Proof.
  apply (retinaface_records_geometry (H := sample_runtime) sample_image 4 5
           2048 sample_bundle
           (returned (retinaface (H := sample_runtime) sample_image (Some 4%Z)
                        (Some 5%Z) 2048 (Some sample_bundle)) VNone)).
  - apply (lookup_nonempty _ "num_boxes"). vm_compute. eauto.
  - reflexivity.
Defined.

Lemma fair_mot_records_geometry_witness :
  ∃ ih iw img nw nh d',
    image_dim sample_image 0 = inr ih ∧ image_dim sample_image 1 = inr iw
    ∧ py_func_letterbox (H := sample_runtime) sample_image 4 5 letterbox_color
      = inr (img, nw, nh)
    ∧ returned (fair_mot (H := sample_runtime) sample_image (Some 4%Z)
                  (Some 5%Z) 100 (Some sample_bundle)) VNone
      = VF (tmap F32.of_Z img)
    ∧ snd (fair_mot (H := sample_runtime) sample_image (Some 4%Z) (Some 5%Z)
             100 (Some sample_bundle)) = Some d'
    ∧ d' !! "height" = Some (VInt 4) ∧ d' !! "width" = Some (VInt 5)
    ∧ d' !! "original_height" = Some (VI (scalar ih))
    ∧ d' !! "original_width" = Some (VI (scalar iw))
    ∧ d' !! "horizontal_pad" = Some (VI (scalar (5 - nw)%Z))
    ∧ d' !! "vertical_pad" = Some (VI (scalar (4 - nh)%Z)).
Proof.
  apply (fair_mot_records_geometry (H := sample_runtime) sample_image 4 5
           100 sample_bundle).
  - apply (lookup_nonempty _ "num_boxes"). vm_compute. eauto.
  - reflexivity.
Defined.

Lemma wp_has_info_none (Q : bool -> option bundle -> Prop) :
  Q false None -> wp has_info None Q.
Proof. done. Qed.

Lemma wp_has_info_with_none k (Q : bool -> option bundle -> Prop) :
  Q false None -> wp (has_info_with k) None Q.
Proof. done. Qed.

Lemma wp_has_info_empty (Q : bool -> option bundle -> Prop) :
  Q false (Some ∅) -> wp has_info (Some ∅) Q.
Proof. done. Qed.

Lemma wp_has_info_with_empty k (Q : bool -> option bundle -> Prop) :
  Q false (Some ∅) -> wp (has_info_with k) (Some ∅) Q.
Proof. done. Qed.

(** A step on a bundle that is [None] or empty. *)
Ltac wp_skip_step :=
  lazymatch goal with
  | |- wp has_info None _ => apply wp_has_info_none
  | |- wp has_info (Some ∅) _ => apply wp_has_info_empty
  | |- wp (has_info_with _) None _ => apply wp_has_info_with_none
  | |- wp (has_info_with _) (Some ∅) _ => apply wp_has_info_with_empty
  | _ => wp_step
  end.

(** ** Bundles that are absent, empty or not annotated *)

Section Unannotated.
Context `{Runtime}.

(** X6.  [centernet_resnet_v1_18_detection], [yolo_v3] and [yolo_v5]
    assign to [image_info] before they test it, so a call that leaves
    [image_info] at its default [None] raises, whatever the image and the
    sizes are. *)
Theorem default_bundle_raises (m : model) (image : value)
    (height width : option Z) (max_pad : Z) (color : list Q) :
  writes_before_check m = true ->
  raises (preprocess m image height width max_pad color None).
Proof.
  intros Hm. destruct m; try discriminate Hm; cbn [preprocess].
  - unfold centernet_resnet_v1_18_detection. apply raises_bind. exact I.
  - unfold yolo_v3. apply raises_bind. wp_step. apply raises_bind.
    wp_step. wp_step. exact I.
  - unfold yolo_v5. apply raises_bind.
    repeat wp_step; cbv beta; apply raises_bind; wp_step; wp_step; exact I.
Qed.

(** X7.  The other seven functions test [image_info] first: called with
    [None] or with an empty dictionary they skip the annotation path, and a
    run that returns hands the bundle back as it was. *)
Theorem empty_bundle_is_handed_back (m : model) (image : value)
    (height width : option Z) (max_pad : Z) (color : list Q)
    (s : option bundle) (image' : value) (s' : option bundle) :
  writes_before_check m = false ->
  s = None ∨ s = Some ∅ ->
  preprocess m image height width max_pad color s = (inr image', s') ->
  s' = s.
Proof.
  intros Hm Hs Hrun.
  refine (wp_elim _ _ (λ _ s', s' = s) _ _ _ Hrun).
  destruct m; try discriminate Hm; cbn [preprocess];
    destruct Hs as [-> | ->].
  all: unfold resnet_v1_18_detection, regnet_detection, mobilenet_ssd,
    mobilenet_ssd_ar_preserving, face_ssd, retinaface, fair_mot.
  all: repeat wp_skip_step; done.
Qed.

(** X8.  A bundle without ['num_boxes'] is not annotated: the six functions
    guarded by that key leave it as it was, apart from what they assign
    before the guard, which is ['img_orig'] for CenterNet and [yolo_v5],
    ['height'] and ['width'] for [yolo_v3], and nothing for the ResNet,
    RegNet and MobileNet-SSD functions.  In particular no coordinate key is
    popped and no ['bbox'] is added. *)
Theorem unannotated_bundle_is_kept (m : model) (image : value)
    (height width : option Z) (max_pad : Z) (color : list Q)
    (d : bundle) (image' : value) (s' : option bundle) :
  guarded_by_num_boxes m = true ->
  d !! "num_boxes" = None ->
  preprocess m image height width max_pad color (Some d) = (inr image', s') ->
  ∃ d', s' = Some d' ∧ frame (touched_unannotated m) d d'.
Proof.
  intros Hm Hn Hrun.
  refine (wp_elim _ _ (λ _ s', ∃ d', s' = Some d' ∧ _) _ _ _ Hrun).
  assert (bool_decide (is_Some (d !! "num_boxes")) = false) as Hb.
  { rewrite Hn. apply bool_decide_eq_false_2. by intros []. }
  destruct m; try discriminate Hm; cbn [preprocess touched_unannotated].
  all: unfold centernet_resnet_v1_18_detection, yolo_v3, yolo_v5,
    resnet_v1_18_detection, regnet_detection, mobilenet_ssd.
  all: repeat first
         [ lazymatch goal with
           | |- wp (if ?b then _ else _) _ _ =>
               lazymatch b with
               | bool_decide _ => rewrite Hb
               end
           end
         | wp_step ].
  all: eexists; split; [reflexivity|].
  all: intros k Hk; rewrite ?not_elem_of_cons in Hk; destruct_and?;
    by map_simpl.
Qed.

End Unannotated.

Lemma default_bundle_raises_witness :
  raises (preprocess (H := sample_runtime) YoloV3 sample_image
            (Some 4%Z) (Some 4%Z) 100 yolo_v5_color None).
Proof.
  apply (default_bundle_raises (H := sample_runtime) YoloV3). reflexivity.
Defined.

Lemma empty_bundle_is_handed_back_witness :
  snd (preprocess (H := sample_runtime) FairMot sample_image
         (Some 4%Z) (Some 4%Z) 100 yolo_v5_color (Some ∅)) = Some ∅.
Proof.
  apply (empty_bundle_is_handed_back (H := sample_runtime) FairMot
           sample_image (Some 4%Z) (Some 4%Z) 100 yolo_v5_color (Some ∅)
           (returned (preprocess (H := sample_runtime) FairMot sample_image
                        (Some 4%Z) (Some 4%Z) 100 yolo_v5_color (Some ∅))
              VNone)).
  - reflexivity.
  - right. reflexivity.
  - reflexivity.
Defined.

Lemma unannotated_bundle_is_kept_witness :
  ∃ d', snd (preprocess (H := sample_runtime) YoloV3 sample_image
               (Some 4%Z) (Some 4%Z) 100 yolo_v5_color
               (Some (delete "num_boxes" sample_bundle))) = Some d'
        ∧ frame (touched_unannotated YoloV3)
            (delete "num_boxes" sample_bundle) d'.
Proof.
  apply (unannotated_bundle_is_kept (H := sample_runtime) YoloV3
           sample_image (Some 4%Z) (Some 4%Z) 100 yolo_v5_color
           (delete "num_boxes" sample_bundle)
           (returned (preprocess (H := sample_runtime) YoloV3 sample_image
                        (Some 4%Z) (Some 4%Z) 100 yolo_v5_color
                        (Some (delete "num_boxes" sample_bundle))) VNone)).
  - reflexivity.
  - apply lookup_delete_eq.
  - reflexivity.
Defined.

(** ** Keys that are read without a test *)

Ltac absent :=
  match goal with
  | Ha : ?d !! ?k = None, Hb : ?d !! ?k = Some _ |- _ =>
      rewrite Ha in Hb; discriminate Hb
  end.

Ltac raise_key :=
  repeat first
    [ absent
    | progress cbv beta
    | apply raises_local
    | apply raises_bind
    | match goal with
      | |- raises ((if ?b then _ else _) _) => destruct b eqn:?
      | |- raises ((let '(_, _) := ?p in _) _) => destruct p
      end
    | lazymatch goal with
      | |- wp (_cast_image_info_types _ _) (Some _) _ =>
          apply wp_cast; intros ? ?
      | |- wp (assign_bbox _) (Some _) _ =>
          apply wp_assign_bbox_state; intros ?
      | _ => wp_step
      end ].

Section Required.
Context `{Runtime}.

Lemma resnet_requires image height width max_pad d k :
  is_Some (d !! "num_boxes") -> k ∈ required ResnetV1_18 -> d !! k = None ->
  raises (resnet_v1_18_detection image height width max_pad (Some d)).
Proof.
  intros Hn Hk Hnone. cbn [required] in Hk.
  rewrite !elem_of_cons, elem_of_nil in Hk. destruct_or!; try done; subst k.
  all: unfold resnet_v1_18_detection, _extract_box_from_image_info, assign_area.
  all: raise_key. all: known.
Qed.
Lemma regnet_requires image height width max_pad d k :
  is_Some (d !! "num_boxes") -> k ∈ required Regnet -> d !! k = None ->
  raises (regnet_detection image height width max_pad (Some d)).
Proof.
  intros Hn Hk Hnone. cbn [required] in Hk.
  rewrite !elem_of_cons, elem_of_nil in Hk. destruct_or!; try done; subst k.
  all: unfold regnet_detection, _extract_box_from_image_info, assign_area.
  all: raise_key. all: known.
Qed.

Lemma centernet_requires image height width max_pad d k :
  is_Some (d !! "num_boxes") -> k ∈ required CenternetResnetV1_18 -> d !! k = None ->
  raises (centernet_resnet_v1_18_detection image height width max_pad (Some d)).
Proof.
  intros Hn Hk Hnone. cbn [required] in Hk.
  rewrite !elem_of_cons, elem_of_nil in Hk. destruct_or!; try done; subst k.
  all: unfold centernet_resnet_v1_18_detection, _extract_box_from_image_info, assign_area.
  all: raise_key. all: known.
Qed.

Lemma yolo_v3_requires image height width d k :
  is_Some (d !! "num_boxes") -> k ∈ required YoloV3 -> d !! k = None ->
  raises (yolo_v3 image height width (Some d)).
Proof.
  intros Hn Hk Hnone. cbn [required] in Hk.
  rewrite !elem_of_cons, elem_of_nil in Hk. destruct_or!; try done; subst k.
  all: unfold yolo_v3, _extract_box_from_image_info, assign_area.
  all: raise_key. all: known.
Qed.

Lemma yolo_v5_requires image height width color d k :
  is_Some (d !! "num_boxes") -> k ∈ required YoloV5 -> d !! k = None ->
  raises (yolo_v5 image height width color (Some d)).
Proof.
  intros Hn Hk Hnone. cbn [required] in Hk.
  rewrite !elem_of_cons, elem_of_nil in Hk. destruct_or!; try done; subst k.
  all: unfold yolo_v5, _extract_box_from_image_info, assign_area.
  all: raise_key. all: known.
Qed.

Lemma mobilenet_ssd_requires image height width max_pad d k :
  is_Some (d !! "num_boxes") -> k ∈ required MobilenetSsd -> d !! k = None ->
  raises (mobilenet_ssd image height width max_pad (Some d)).
Proof.
  intros Hn Hk Hnone. cbn [required] in Hk.
  rewrite !elem_of_cons, elem_of_nil in Hk. destruct_or!; try done; subst k.
  all: unfold mobilenet_ssd, _extract_box_from_image_info, assign_area.
  all: raise_key. all: known.
Qed.

Lemma ar_preserving_requires image height width max_pad d k :
  d ≠ ∅ -> k ∈ required MobilenetSsdArPreserving -> d !! k = None ->
  raises (mobilenet_ssd_ar_preserving image height width max_pad (Some d)).
Proof.
  intros Hn Hk Hnone. cbn [required] in Hk.
  rewrite !elem_of_cons, elem_of_nil in Hk. destruct_or!; try done; subst k.
  all: unfold mobilenet_ssd_ar_preserving, _extract_box_from_image_info, assign_area.
  all: raise_key. all: known.
Qed.

Lemma face_ssd_requires image height width max_pad d k :
  is_Some (d !! "num_boxes") ->
  is_Some (d !! "xmin") -> k ∈ required FaceSsd -> d !! k = None ->
  raises (face_ssd image height width max_pad (Some d)).
Proof.
  intros Hn Hx Hk Hnone. cbn [required] in Hk.
  rewrite !elem_of_cons, elem_of_nil in Hk. destruct_or!; try done; subst k.
  all: unfold face_ssd, _extract_box_from_image_info, assign_area.
  all: raise_key. all: known.
Qed.

Lemma retinaface_requires image height width max_pad d k :
  is_Some (d !! "num_boxes") ->
  is_Some (d !! "xmin") -> k ∈ required Retinaface -> d !! k = None ->
  raises (retinaface image height width max_pad (Some d)).
Proof.
  intros Hn Hx Hk Hnone. cbn [required] in Hk.
  rewrite !elem_of_cons, elem_of_nil in Hk. destruct_or!; try done; subst k.
  all: unfold retinaface, _extract_box_from_image_info, assign_area.
  all: raise_key. all: known.
Qed.

Lemma fair_mot_requires image height width max_pad d k :
  d ≠ ∅ -> k ∈ required FairMot -> d !! k = None ->
  raises (fair_mot image height width max_pad (Some d)).
Proof.
  intros Hn Hk Hnone. cbn [required] in Hk.
  rewrite !elem_of_cons, elem_of_nil in Hk. destruct_or!; try done; subst k.
  all: unfold fair_mot, _extract_box_from_image_info, assign_area.
  all: raise_key. all: known.
Qed.

(** X9.  The annotation path of every function reads the keys of
    [required m] without testing for them: if one of them is missing from a
    bundle that takes the annotation path, the call raises.  ['area'] is
    required by six functions and optional only for
    [mobilenet_ssd_ar_preserving]; ['category_id'] and ['is_crowd'] are
    required by the two MobileNet-SSD functions, which do not go through
    [_cast_image_info_types]; [fair_mot] requires its three tracking keys. *)
Theorem missing_key_raises (m : model) (image : value)
    (height width : option Z) (max_pad : Z) (color : list Q) (d : bundle)
    (k : string) :
  annotated m d ->
  k ∈ required m ->
  d !! k = None ->
  raises (preprocess m image height width max_pad color (Some d)).
Proof.
  intros Ha Hk Hnone. destruct m; cbn [preprocess annotated] in *.
  - by apply (centernet_requires _ _ _ _ _ k).
  - by apply (yolo_v3_requires _ _ _ _ k).
  - by apply (yolo_v5_requires _ _ _ _ _ k).
  - by apply (resnet_requires _ _ _ _ _ k).
  - by apply (regnet_requires _ _ _ _ _ k).
  - by apply (mobilenet_ssd_requires _ _ _ _ _ k).
  - by apply (ar_preserving_requires _ _ _ _ _ k).
  - destruct Ha. by apply (face_ssd_requires _ _ _ _ _ k).
  - destruct Ha. by apply (retinaface_requires _ _ _ _ _ k).
  - by apply (fair_mot_requires _ _ _ _ _ k).
Qed.

End Required.

Lemma missing_key_raises_witness :
  raises (preprocess (H := sample_runtime) MobilenetSsd sample_image
            (Some 4%Z) (Some 4%Z) 100 yolo_v5_color
            (Some (delete "is_crowd" sample_bundle))).
Proof.
  apply (missing_key_raises (H := sample_runtime) MobilenetSsd sample_image
           (Some 4%Z) (Some 4%Z) 100 yolo_v5_color
           (delete "is_crowd" sample_bundle) "is_crowd").
  - vm_compute. eauto.
  - cbn [required]. solve_in.
  - apply lookup_delete_eq.
Defined.

(** ** [mobilenet_ssd] without a target size *)

Section MobilenetSsd.
Context `{Runtime}.

(** X10.  [mobilenet_ssd] squeezes axis 0 of [img_orig] on its annotation
    path, also when no resize has added a batch axis: without a target size
    and with ['num_boxes'] in the bundle the call raises, unless the image
    itself has a leading axis of extent one. *)
Theorem mobilenet_ssd_squeezes_unbatched_image (image : value)
    (height width : option Z) (max_pad : Z) (d : bundle) :
  truthy height && truthy width = false ->
  is_Some (d !! "num_boxes") ->
  image_dim image 0 ≠ inr 1%Z ->
  raises (mobilenet_ssd image height width max_pad (Some d)).
Proof.
  intros Hs Hn Hdim. unfold mobilenet_ssd. rewrite Hs.
  apply raises_bind. wp_step. cbv beta.
  apply raises_bind. wp_step. cbv beta.
  apply raises_bind. wp_step. destruct (bool_decide _) eqn:Hb; [|by known].
  apply raises_bind. wp_step. wp_step. exfalso.
  match goal with Hc : _ = inr _ |- _ => rename Hc into Hsq end.
  apply E_bind_inv in Hsq as (o & Hsq & _).
  destruct image as [|n|t|t|t|t]; cbn [image_dim] in Hdim; try discriminate Hsq.
  all: unfold squeeze0 in Hsq; unfold dim in Hdim.
  all: destruct (shape t) as [|[|[|k]] sh]; try discriminate Hsq.
  all: by apply Hdim.
Qed.

End MobilenetSsd.

Lemma mobilenet_ssd_squeezes_unbatched_image_witness :
  raises (mobilenet_ssd (H := sample_runtime) sample_image None None 100
            (Some sample_bundle)).
Proof.
  apply (mobilenet_ssd_squeezes_unbatched_image (H := sample_runtime)
           sample_image None None 100 sample_bundle).
  - reflexivity.
  - vm_compute. eauto.
  - vm_compute. discriminate.
Defined.

(** ** Padding, again *)

(** X11.  Within the bound, and for a bound other than one, [_pad_tensor]
    returns a vector of exactly [max_tensor_padding] entries: the entries
    of its argument, in order, followed by the sentinel [-1]. *)
Theorem pad_tensor_entries {A} `{Sentinel A} (l : list A) (m : Z) :
  (Z.of_nat (length l) <= m)%Z ->
  m ≠ 1%Z ->
  ∃ p, _pad_tensor (vector l) m = inr p
       ∧ shape p = [Z.to_nat m]
       ∧ length (data p) = Z.to_nat m
       ∧ (∀ i, (i < length l)%nat -> data p !! i = l !! i)
       ∧ (∀ i, (length l <= i < Z.to_nat m)%nat -> data p !! i = Some minus_one).
Proof.
  intros Hl Hm. eexists. split; [by apply pad_tensor_ok|].
  rewrite decide_False by done. cbn [shape data]. split_and!.
  - done.
  - rewrite length_app, length_replicate. lia.
  - intros i Hi. by rewrite lookup_app_l.
  - intros i Hi. rewrite lookup_app_r by lia.
    apply lookup_replicate_2. lia.
Qed.

(** X12.  Beyond the bound the padding amount is negative and [tf.pad]
    rejects it: [_pad_tensor] raises [InvalidArgumentError]. *)
Theorem pad_tensor_rejects_long_input {A} `{Sentinel A} (l : list A) (m : Z) :
  (m < Z.of_nat (length l))%Z ->
  _pad_tensor (vector l) m = inl InvalidArgumentError.
Proof. intros Hl. by apply pad_tensor_too_long. Qed.

(** X13.  Padding is idempotent: a vector that [_pad_tensor] returned, for
    a bound other than one, is returned unchanged when it is padded again
    to the same bound.  So a bundle that went through
    [_cast_image_info_types] can go through it again. *)
Theorem pad_tensor_idempotent {A} `{Sentinel A} (l : list A) (m : Z)
    (p : tensor A) :
  m ≠ 1%Z ->
  _pad_tensor (vector l) m = inr p ->
  _pad_tensor p m = inr p.
Proof.
  intros Hm Hp.
  destruct (Z_le_gt_dec (Z.of_nat (length l)) m) as [Hle|Hgt];
    [|by rewrite pad_tensor_too_long in Hp by lia].
  rewrite pad_tensor_ok in Hp by done. rewrite decide_False in Hp by done.
  injection Hp as <-.
  set (l' := l ++ replicate (Z.to_nat m - length l) minus_one).
  assert (length l' = Z.to_nat m) as Hl'.
  { unfold l'. rewrite length_app, length_replicate. lia. }
  rewrite <- Hl'. change (Tensor [length l'] l') with (vector l').
  rewrite pad_tensor_ok by lia. rewrite decide_False by done.
  rewrite Hl', Nat.sub_diag. cbn [replicate]. rewrite app_nil_r.
  unfold vector. by rewrite Hl'.
Qed.

Lemma pad_tensor_entries_witness :
  ∃ p, _pad_tensor (vector [5; 7]%Z) 4 = inr p
       ∧ shape p = [4%nat]
       ∧ length (data p) = 4%nat
       ∧ (∀ i, (i < 2)%nat -> data p !! i = [5; 7]%Z !! i)
       ∧ (∀ i, (2 <= i < 4)%nat -> data p !! i = Some (-1)%Z).
Proof.
  apply (pad_tensor_entries [5; 7]%Z 4).
  - simpl. lia.
  - lia.
Defined.

Lemma pad_tensor_rejects_long_input_witness :
  _pad_tensor (vector [5; 7; 9]%Z) 2 = inl InvalidArgumentError.
Proof. apply (pad_tensor_rejects_long_input [5; 7; 9]%Z 2). simpl. lia. Defined.

Lemma pad_tensor_idempotent_witness :
  _pad_tensor (Tensor [4%nat] [5; 7; -1; -1]%Z) 4
  = inr (Tensor [4%nat] [5; 7; -1; -1]%Z).
Proof.
  apply (pad_tensor_idempotent [5; 7]%Z 4).
  - lia.
  - reflexivity.
Defined.

Ltac ebind := cbn [mbind E_mbind E_bind mret E_mret E_ret].

(** ** Rounding to nearest: the error of one operation *)

Section Rounding.
Local Open Scope Q_scope.

Lemma pow2_pos e : 0 < pow2 e.
Proof. apply Qpower_0_lt. reflexivity. Qed.

Lemma pow2_plus a b : pow2 (a + b) == pow2 a * pow2 b.
Proof. apply Qpower_plus. discriminate. Qed.

Lemma pow2_le a b : (a <= b)%Z -> pow2 a <= pow2 b.
Proof. intros Hab. apply Qpower_le_compat_l; [done|]. discriminate. Qed.

Lemma pow2_succ a : pow2 (a + 1) == 2 * pow2 a.
Proof. rewrite pow2_plus. unfold pow2 at 2. rewrite Qpower_1_r. ring. Qed.

Lemma pow2_minus a b : pow2 (a - b) == pow2 a / pow2 b.
Proof. apply Qpower_minus. discriminate. Qed.

Lemma pow2_inject (k : Z) : (0 <= k)%Z -> pow2 k == inject_Z (2 ^ k).
Proof. intros Hk. unfold pow2. by rewrite Zpower_Qpower. Qed.

Lemma round_half_even_error y :
  Qabs (inject_Z (round_half_even y) - y) <= 1 # 2.
Proof.
  unfold round_half_even.
  pose proof (Qfloor_le y) as Hlo. pose proof (Qlt_floor y) as Hhi.
  rewrite inject_Z_plus in Hhi. change (inject_Z 1) with 1 in Hhi.
  apply Qabs_Qle_condition.
  destruct (Qcompare_spec (y - inject_Z (Qfloor y)) (1 # 2)) as [He|Hl|Hg].
  - destruct (Z.even (Qfloor y)); rewrite ?inject_Z_plus;
      change (inject_Z 1) with 1; split; lra.
  - split; lra.
  - rewrite inject_Z_plus. change (inject_Z 1) with 1. split; lra.
Qed.

Lemma round_half_even_nonneg y : 0 <= y -> (0 <= round_half_even y)%Z.
Proof.
  intros Hy. unfold round_half_even.
  assert (0 <= Qfloor y)%Z as Hf.
  { rewrite <- (Qfloor_Z 0). by apply Qfloor_resp_le. }
  destruct (Qcompare _ _); [destruct (Z.even _)|..]; lia.
Qed.

Lemma round_half_even_le y (n : Z) :
  y < inject_Z n + (1 # 2) -> (round_half_even y <= n)%Z.
Proof.
  intros Hy. pose proof (round_half_even_error y) as He.
  apply Qabs_Qle_condition in He. destruct He as [_ He].
  assert (inject_Z (round_half_even y) < inject_Z n + 1) as Hlt by lra.
  change 1 with (inject_Z 1) in Hlt. rewrite <- inject_Z_plus in Hlt.
  rewrite <- Zlt_Qlt in Hlt. lia.
Qed.

Lemma round_half_even_ge y (n : Z) :
  inject_Z n - (1 # 2) < y -> (n <= round_half_even y)%Z.
Proof.
  intros Hy. pose proof (round_half_even_error y) as He.
  apply Qabs_Qle_condition in He. destruct He as [He _].
  assert (inject_Z n < inject_Z (round_half_even y) + 1) as Hlt by lra.
  change 1 with (inject_Z 1) in Hlt. rewrite <- inject_Z_plus in Hlt.
  rewrite <- Zlt_Qlt in Hlt. lia.
Qed.

Lemma round_half_even_near y (n : Z) :
  inject_Z n - (1 # 2) < y -> y < inject_Z n + (1 # 2) ->
  round_half_even y = n.
Proof.
  intros Hlo Hhi. apply Z.le_antisymm.
  - by apply round_half_even_le.
  - by apply round_half_even_ge.
Qed.

Lemma round_half_even_Z (n : Z) : round_half_even (inject_Z n) = n.
Proof. apply round_half_even_near; lra. Qed.

Lemma round_half_even_comp x y : x == y -> round_half_even x = round_half_even y.
Proof.
  intros Hxy. unfold round_half_even. rewrite (Qfloor_comp x y Hxy).
  assert (x - inject_Z (Qfloor y) == y - inject_Z (Qfloor y)) as He
    by (by rewrite Hxy).
  by rewrite (Qcompare_comp _ _ He (1 # 2) (1 # 2) (Qeq_refl _)).
Qed.

Lemma mag_Z_le (n : Z) : (mag (inject_Z n) <= Z.log2 (Z.abs n) + 1)%Z.
Proof.
  unfold mag. cbn [Qnum Qden inject_Z]. change (Z.log2 1) with 0%Z.
  destruct (Qle_bool _ _); lia.
Qed.

Lemma Qdiv_le_cross (a b n d : Q) :
  0 < b -> 0 < d -> a * d <= n * b -> a / b <= n / d.
Proof.
  intros Hb Hd Hc.
  apply Qle_shift_div_r; [done|].
  assert (n / d * b == (n * b) / d) as -> by (field; lra).
  by apply Qle_shift_div_l.
Qed.

(** The lower bracket of [mag]: [2^(mag x - 1) <= |x|]. *)
Lemma mag_lower (x : Q) : ~ x == 0 -> pow2 (mag x - 1) <= Qabs x.
Proof.
  intros Hx. unfold mag.
  set (k := (Z.log2 (Z.abs (Qnum x)) - Z.log2 (Z.pos (Qden x)))%Z).
  destruct (Qle_bool (pow2 k) (Qabs x)) eqn:Hb.
  - apply Qle_bool_iff in Hb. by replace (k + 1 - 1)%Z with k by lia.
  - destruct x as [n d]. cbn [Qnum Qden] in *.
    assert (0 < Z.abs n)%Z as Hn.
    { destruct n; try lia. exfalso. by apply Hx. }
    pose proof (Z.log2_spec _ Hn) as [Hlo _].
    pose proof (Z.log2_spec (Z.pos d) (Pos2Z.is_pos d)) as [_ Hhi].
    pose proof (Z.log2_nonneg (Z.abs n)) as H0n.
    pose proof (Z.log2_nonneg (Z.pos d)) as H0d.
    replace (k - 1)%Z
      with (Z.log2 (Z.abs n) - Z.succ (Z.log2 (Z.pos d)))%Z by lia.
    rewrite pow2_minus, !pow2_inject by lia.
    rewrite <- Zabs_Qabs, (Qmake_Qdiv (Z.abs n) d).
    apply Qdiv_le_cross.
    + rewrite <- (Zlt_Qlt 0). lia.
    + rewrite <- (Zlt_Qlt 0). lia.
    + rewrite <- !inject_Z_mult, <- Zle_Qle. nia.
Qed.

Section Format.
Variables prec emax : Z.
Hypothesis prec_pos : (0 < prec)%Z.

Let u : Q := pow2 (- prec).
Let eta : Q := pow2 (emin prec emax - 1).

Lemma ulp_half_le (x : Q) :
  ~ x == 0 -> (1 # 2) * ulp prec emax x <= Qabs x * u + eta.
Proof.
  intros Hx. unfold ulp, fexp, u, eta.
  pose proof (mag_lower x Hx) as Hm.
  pose proof (pow2_pos (- prec)) as Hu.
  pose proof (pow2_pos (emin prec emax - 1)) as He.
  pose proof (Qabs_nonneg x) as Ha.
  destruct (Z.max_spec (mag x - prec) (emin prec emax)) as [[_ ->]|[_ ->]].
  - replace (emin prec emax) with (emin prec emax - 1 + 1)%Z at 1 by lia.
    rewrite pow2_succ.
    assert (0 <= Qabs x * pow2 (- prec)) by (apply Qmult_le_0_compat; lra).
    lra.
  - replace (mag x - prec)%Z with ((mag x - 1) + (- prec) + 1)%Z by lia.
    rewrite pow2_succ, pow2_plus.
    assert (pow2 (mag x - 1) * pow2 (- prec) <= Qabs x * pow2 (- prec))
      by (apply Qmult_le_compat_r; lra).
    lra.
Qed.

(** One rounding is off by at most [|x| * 2^-prec + 2^(emin - 1)]. *)
Lemma rnd_error (x : Q) :
  Qabs (rnd prec emax x - x) <= Qabs x * u + eta.
Proof.
  unfold rnd. destruct (Qeq_bool x 0) eqn:Hz.
  - apply Qeq_bool_iff in Hz. rewrite Hz.
    assert (0 < u) by apply pow2_pos. assert (0 < eta) by apply pow2_pos.
    change (Qabs (0 - 0)) with 0. change (Qabs 0) with 0. lra.
  - assert (~ x == 0) as Hx.
    { intros He. apply Qeq_bool_iff in He. congruence. }
    rewrite Qred_correct.
    pose proof (pow2_pos (fexp prec emax (mag x))) as HU.
    fold (ulp prec emax x) in HU.
    set (U := ulp prec emax x) in *.
    assert (inject_Z (round_half_even (x / U)) * U - x
            == (inject_Z (round_half_even (x / U)) - x / U) * U) as ->
      by (field; lra).
    rewrite Qabs_Qmult, (Qabs_pos U) by lra.
    apply (Qle_trans _ ((1 # 2) * U)); [|by apply ulp_half_le].
    apply Qmult_le_compat_r; [apply round_half_even_error|lra].
Qed.

Lemma rnd_nonneg (x : Q) : 0 <= x -> 0 <= rnd prec emax x.
Proof.
  intros Hx. unfold rnd. destruct (Qeq_bool x 0); [done|].
  rewrite Qred_correct.
  pose proof (pow2_pos (fexp prec emax (mag x))) as HU.
  fold (ulp prec emax x) in HU.
  apply Qmult_le_0_compat; [|lra].
  rewrite <- (Zle_Qle 0). apply round_half_even_nonneg.
  apply Qle_shift_div_l; lra.
Qed.

(** Integers below [2^prec] in magnitude are rounded to themselves. *)
Lemma rnd_Z_exact (n : Z) :
  (emin prec emax <= 0)%Z -> (Z.abs n < 2 ^ prec)%Z ->
  rnd prec emax (inject_Z n) == inject_Z n.
Proof.
  intros Hemin Hn. unfold rnd. destruct (Qeq_bool (inject_Z n) 0) eqn:Hz.
  - apply Qeq_bool_iff in Hz. by rewrite Hz.
  - rewrite Qred_correct. unfold ulp.
    set (e := fexp prec emax (mag (inject_Z n))).
    assert (e <= 0)%Z as He.
    { unfold e, fexp. pose proof (mag_Z_le n) as Hm.
      assert (Z.log2 (Z.abs n) < prec)%Z.
      { destruct (Z.eq_dec (Z.abs n) 0) as [->|Hne]; [done|].
        apply Z.log2_lt_pow2; lia. }
      lia. }
    assert (pow2 e == / inject_Z (2 ^ (- e))) as HU.
    { replace e with (- - e)%Z at 1 by lia. unfold pow2.
      rewrite Qpower_opp. fold (pow2 (- e)). by rewrite pow2_inject by lia. }
    assert (0 < inject_Z (2 ^ (- e))) as Hpos.
    { rewrite <- (Zlt_Qlt 0). apply Z.pow_pos_nonneg; lia. }
    assert (inject_Z n / pow2 e == inject_Z (n * 2 ^ (- e))) as Hq.
    { rewrite HU, inject_Z_mult. field. lra. }
    rewrite (round_half_even_comp _ _ Hq), round_half_even_Z.
    rewrite HU, inject_Z_mult. field. lra.
Qed.

(** A rounded value below the overflow threshold is a finite float. *)
Lemma round_fin_Fin (x : Q) :
  Qabs (rnd prec emax x) < pow2 emax ->
  round_fin prec emax x = Fin (rnd prec emax x).
Proof.
  intros Hx. unfold round_fin.
  destruct (Qle_bool _ _) eqn:Hb; [|done].
  apply Qle_bool_iff in Hb. lra.
Qed.

End Format.

End Rounding.

(** ** Binary64 *)

Section Binary64.
Local Open Scope Q_scope.

Lemma F64_rnd_error (x : Q) : Qabs (F64.rnd x - x) <= Qabs x * u64 + tiny.
Proof.
  pose proof (rnd_error 53 1024 x) as He.
  assert (pow2 (- 53) == u64) as Hu by reflexivity.
  assert (pow2 (emin 53 1024 - 1) <= tiny) as Ht by (by vm_compute).
  rewrite Hu in He. unfold F64.rnd, F64.prec, F64.emax. lra.
Qed.

Lemma F64_rnd_bounds (x : Q) :
  0 <= x ->
  x - x * u64 - tiny <= F64.rnd x <= x + x * u64 + tiny ∧ 0 <= F64.rnd x.
Proof.
  intros Hx. pose proof (F64_rnd_error x) as He.
  rewrite (Qabs_pos x Hx) in He. apply Qabs_Qle_condition in He.
  split; [split; lra|]. by apply rnd_nonneg.
Qed.

Lemma F64_of_Q_Fin (x : Q) :
  0 <= x -> x <= 1267650600228229401496703205376 ->
  F64.of_Q x = Fin (F64.rnd x).
Proof.
  intros Hx Hb. apply round_fin_Fin.
  destruct (F64_rnd_bounds x Hx) as [[_ Hhi] Hpos].
  fold (F64.rnd x). rewrite (Qabs_pos _ Hpos).
  apply (Qle_lt_trans _ (4 * 1267650600228229401496703205376)).
  - unfold u64, tiny in Hhi. lra.
  - by vm_compute.
Qed.

Lemma F64_rnd_near (x B : Q) :
  Qabs x <= B -> Qabs (F64.rnd x - x) <= B * u64 + tiny.
Proof.
  intros Hb. pose proof (F64_rnd_error x) as He. unfold u64 in *. lra.
Qed.

Lemma F64_of_Q_Fin_abs (x : Q) :
  Qabs x <= 1267650600228229401496703205376 ->
  F64.of_Q x = Fin (F64.rnd x).
Proof.
  intros Hb. apply round_fin_Fin. fold (F64.rnd x).
  pose proof (F64_rnd_error x) as He.
  pose proof (Qabs_triangle (F64.rnd x - x) x) as Ht.
  assert (F64.rnd x - x + x == F64.rnd x) as Hs by ring.
  rewrite Hs in Ht.
  apply (Qle_lt_trans _ (4 * 1267650600228229401496703205376)).
  - unfold u64, tiny in He. lra.
  - by vm_compute.
Qed.

Lemma py_float_exact (n : Z) :
  (Z.abs n < 2 ^ 53)%Z -> ∃ q, py_float n = inr (Fin q) ∧ q == inject_Z n.
Proof.
  intros Hn. unfold py_float, F64.of_Z, of_Z.
  pose proof (rnd_Z_exact F64.prec F64.emax eq_refl n) as Hex.
  rewrite round_fin_Fin.
  - eexists. split; [reflexivity|]. by apply Hex.
  - rewrite Hex by done.
    assert (Qabs (inject_Z n) == inject_Z (Z.abs n)) as ->
      by (symmetry; apply Zabs_Qabs).
    apply (Qlt_trans _ (inject_Z (2 ^ 53))); [by rewrite <- Zlt_Qlt|].
    by vm_compute.
Qed.

Lemma py_0_1_val : py_0_1 = Fin (3602879701896397 # 36028797018963968).
Proof. by vm_compute. Qed.

(** [top, bottom = round(d - 0.1), round(d + 0.1)] for [d = k / 2] split
    [k] into its lower and its upper half. *)
Lemma pads_spec (k : Z) :
  (0 <= k < 2 ^ 31)%Z ->
  ∃ d, py_int_truediv k 2 = inr d
       ∧ py_round (F64.sub d py_0_1) = inr (k / 2)%Z
       ∧ py_round (F64.add d py_0_1) = inr ((k + 1) / 2)%Z.
Proof.
  intros Hk. unfold py_int_truediv. cbn [Z.eqb].
  set (x := inject_Z k / inject_Z 2).
  assert (0 <= inject_Z k) as Hk0 by (rewrite <- (Zle_Qle 0); lia).
  assert (inject_Z k <= 2147483648) as Hk1.
  { change 2147483648 with (inject_Z (2 ^ 31)). rewrite <- Zle_Qle. lia. }
  assert (x == inject_Z k * (1 # 2)) as Hx by (unfold x; field).
  assert (Qabs x <= 1073741824) as Hxa.
  { rewrite Qabs_pos; lra. }
  rewrite F64_of_Q_Fin_abs by lra.
  set (dq := F64.rnd x).
  pose proof (F64_rnd_near x _ Hxa) as Hdq. fold dq in Hdq.
  apply Qabs_Qle_condition in Hdq.
  eexists. split; [reflexivity|].
  rewrite py_0_1_val.
  set (c := 3602879701896397 # 36028797018963968).
  unfold F64.sub, F64.add, fsub, fneg, fadd.
  pose proof (Qred_correct (- c)) as Hc.
  set (c' := Qred (- c)) in *.
  assert (Qabs (dq + c') <= 1073741826) as Ha1.
  { apply Qabs_Qle_condition. unfold c, u64, tiny in *. split; lra. }
  assert (Qabs (dq + c) <= 1073741826) as Ha2.
  { apply Qabs_Qle_condition. unfold c, u64, tiny in *. split; lra. }
  fold (F64.of_Q (dq + c')). fold (F64.of_Q (dq + c)).
  rewrite !F64_of_Q_Fin_abs by lra. cbn [py_round].
  pose proof (F64_rnd_near _ _ Ha1) as H1.
  pose proof (F64_rnd_near _ _ Ha2) as H2.
  apply Qabs_Qle_condition in H1, H2.
  pose proof (Z.div_mod k 2 ltac:(lia)) as Hdm.
  pose proof (Z.mod_pos_bound k 2 ltac:(lia)) as Hm.
  assert (inject_Z k == 2 * inject_Z (k / 2) + inject_Z (k mod 2)) as Hkq.
  { rewrite Hdm at 1. rewrite inject_Z_plus, inject_Z_mult. reflexivity. }
  assert (k mod 2 = 0 ∨ k mod 2 = 1)%Z as [Hmod|Hmod] by lia.
  - rewrite Hmod in Hkq. change (inject_Z 0) with 0 in Hkq.
    replace ((k + 1) / 2)%Z with (k / 2)%Z
      by (apply (Z.div_unique (k + 1) 2 (k / 2) 1); lia).
    split; f_equal; apply round_half_even_near;
      unfold c, u64, tiny in *; lra.
  - rewrite Hmod in Hkq. change (inject_Z 1) with 1 in Hkq.
    replace ((k + 1) / 2)%Z with (k / 2 + 1)%Z
      by (apply (Z.div_unique (k + 1) 2 (k / 2 + 1) 0); lia).
    split; f_equal; apply round_half_even_near; rewrite ?inject_Z_plus;
      change (inject_Z 1) with 1; unfold c, u64, tiny in *; lra.
Qed.

Lemma scaled_quotient (X : Q) (W b : Z) :
  (0 <= W)%Z -> (0 < b)%Z -> X == inject_Z W / inject_Z b ->
  inject_Z W - inject_Z W * u64 - inject_Z b * tiny <= inject_Z b * F64.rnd X
  ∧ inject_Z b * F64.rnd X <= inject_Z W + inject_Z W * u64 + inject_Z b * tiny
  ∧ 0 <= F64.rnd X ∧ 0 <= X ∧ X <= inject_Z W.
Proof.
  intros HW Hb HX.
  assert (1 <= inject_Z b) as Hb1.
  { change 1 with (inject_Z 1). rewrite <- Zle_Qle. lia. }
  assert (0 <= inject_Z W) as HW0 by (rewrite <- (Zle_Qle 0); lia).
  assert (0 <= X) as HX0.
  { rewrite HX. apply Qle_shift_div_l; lra. }
  assert (inject_Z b * X == inject_Z W) as HbX.
  { rewrite HX. field. lra. }
  destruct (F64_rnd_bounds X HX0) as [[Hlo Hhi] Hpos].
  assert (inject_Z b * (X - X * u64 - tiny) <= inject_Z b * F64.rnd X) as H1
    by (apply Qmult_le_l; lra).
  assert (inject_Z b * F64.rnd X <= inject_Z b * (X + X * u64 + tiny)) as H2
    by (apply Qmult_le_l; lra).
  assert (0 <= X * (inject_Z b - 1)) as H3
    by (apply Qmult_le_0_compat; lra).
  unfold u64, tiny in *. split_and!; lra.
Qed.

Lemma py_truediv_run (x : Q) (n : Z) :
  (0 < n < 2 ^ 53)%Z ->
  ∃ q, q == inject_Z n
       ∧ py_truediv (Fin x) n = inr (F64.of_Q (x / q)).
Proof.
  intros Hn. destruct (py_float_exact n) as (q & Hq & Hqn); [lia|].
  exists q. split; [done|]. unfold py_truediv. rewrite Hq, E_bind_inr.
  assert (Qeq_bool q 0 = false) as Hz.
  { destruct (Qeq_bool q 0) eqn:He; [|done]. apply Qeq_bool_iff in He.
    assert (0 < inject_Z n) by (rewrite <- (Zlt_Qlt 0); lia). lra. }
  cbn [py_is_zero]. rewrite Hz. unfold F64.div, fdiv. by rewrite Hz.
Qed.

Lemma py_int_mul_run (n : Z) (r : Q) :
  (Z.abs n < 2 ^ 53)%Z ->
  ∃ q, q == inject_Z n ∧ py_int_mul n (Fin r) = inr (F64.of_Q (q * r)).
Proof.
  intros Hn. destruct (py_float_exact n) as (q & Hq & Hqn); [lia|].
  exists q. split; [done|]. unfold py_int_mul. by rewrite Hq, E_bind_inr.
Qed.

Lemma py_min_spec (ra rb : Q) :
  ∃ r, py_min (Fin ra) (Fin rb) = Fin r
       ∧ r <= ra ∧ r <= rb ∧ (r = ra ∨ r = rb).
Proof.
  unfold py_min, flt, fcompare.
  destruct (Qcompare_spec rb ra) as [He|Hl|Hg].
  - exists ra. split_and!; [done|lra|lra|by left].
  - exists rb. split_and!; [done|lra|lra|by right].
  - exists ra. split_and!; [done|lra|lra|by left].
Qed.

Lemma Q_of_dim (n : Z) :
  (0 < n < 2 ^ 31)%Z -> 1 <= inject_Z n ∧ inject_Z n <= 2147483648.
Proof.
  intros Hn. split.
  - change 1 with (inject_Z 1). rewrite <- Zle_Qle. lia.
  - change 2147483648 with (inject_Z (2 ^ 31)). rewrite <- Zle_Qle. lia.
Qed.

(** The side [round(n * ratio)] for a ratio [r] that is at most the rounded
    quotient [rq] of the target [T] by [n]: it is within [0, T], and it is
    [T] when [r] is that quotient. *)
Lemma new_side_spec (n T : Z) (X r : Q) :
  (0 < n < 2 ^ 31)%Z -> (0 < T < 2 ^ 31)%Z ->
  X == inject_Z T / inject_Z n ->
  0 <= r -> r <= F64.rnd X ->
  ∃ m, (x ← py_int_mul n (Fin r); py_round x) = inr m
       ∧ (0 <= m <= T)%Z
       ∧ (r = F64.rnd X -> m = T).
Proof.
  intros Hn HT HX Hr0 Hr.
  destruct (Q_of_dim n Hn) as [Hn1 Hn2]. destruct (Q_of_dim T HT) as [HT1 HT2].
  destruct (scaled_quotient X T n) as (Hlo & Hhi & Hq0 & HX0 & HXT);
    [lia|lia|done|].
  destruct (py_int_mul_run n r) as (q & Hq & Erun); [lia|].
  rewrite Erun, E_bind_inr.
  assert (q * r == inject_Z n * r) as HY by (by rewrite Hq).
  assert (inject_Z n * r <= inject_Z n * F64.rnd X) as Hle
    by (apply Qmult_le_l; lra).
  assert (0 <= inject_Z n * r) as Hnr by (apply Qmult_le_0_compat; lra).
  assert (0 <= q * r) as HY0 by lra.
  rewrite F64_of_Q_Fin_abs
    by (rewrite Qabs_pos by done; unfold u64, tiny in *; lra).
  destruct (F64_rnd_bounds (q * r) HY0) as [[Ylo Yhi] Ypos].
  cbn [py_round]. eexists. split; [reflexivity|]. split_and!.
  - by apply round_half_even_nonneg.
  - apply round_half_even_le. unfold u64, tiny in *. lra.
  - intros ->. apply round_half_even_near; unfold u64, tiny in *; lra.
Qed.

(** The side [round(n * ratio)] against the quotient [Xo] of the other
    target [To] by the other dimension [no], which bounds the ratio: the
    side is positive when the ratio is that quotient and [n * To / no] is
    above one half, and it is zero when [n * To / no] is below one half. *)
Lemma side_against_other (n no To : Z) (Xo r : Q) (m : Z) :
  (0 < n < 2 ^ 31)%Z -> (0 < no < 2 ^ 31)%Z -> (0 < To < 2 ^ 31)%Z ->
  Xo == inject_Z To / inject_Z no ->
  0 <= r -> r <= F64.rnd Xo ->
  (x ← py_int_mul n (Fin r); py_round x) = inr m ->
  (r = F64.rnd Xo -> (no < 2 * n * To)%Z -> (0 < m)%Z)
  ∧ ((2 * n * To < no)%Z -> m = 0%Z).
Proof.
  intros Hn Hno HTo HX Hr0 Hr.
  destruct (Q_of_dim n Hn) as [Hn1 Hn2].
  destruct (Q_of_dim no Hno) as [Hb1 Hb2].
  destruct (Q_of_dim To HTo) as [HT1 HT2].
  destruct (scaled_quotient Xo To no) as (_ & _ & Hq0 & HX0 & HXT);
    [lia|lia|done|].
  destruct (F64_rnd_bounds Xo HX0) as [[Xlo Xhi] _].
  destruct (py_int_mul_run n r) as (q & Hq & Erun); [lia|].
  rewrite Erun, E_bind_inr.
  assert (q * r == inject_Z n * r) as HY by (by rewrite Hq).
  assert (inject_Z n * r <= inject_Z n * F64.rnd Xo) as Hle
    by (apply Qmult_le_l; lra).
  assert (0 <= inject_Z n * r) as Hnr by (apply Qmult_le_0_compat; lra).
  assert (0 <= q * r) as HY0 by lra.
  assert (inject_Z n * F64.rnd Xo <= 2147483648 * F64.rnd Xo) as Hbig
    by (apply Qmult_le_compat_r; lra).
  rewrite F64_of_Q_Fin_abs
    by (rewrite Qabs_pos by done; unfold u64, tiny in *; lra).
  destruct (F64_rnd_bounds (q * r) HY0) as [[Ylo Yhi] Ypos].
  cbn [py_round]. intros [= <-].
  set (P := inject_Z n * Xo).
  assert (P * inject_Z no == inject_Z n * inject_Z To) as HP
    by (unfold P; rewrite HX; field; lra).
  assert (inject_Z n * (Xo - Xo * u64 - tiny) <= inject_Z n * F64.rnd Xo)
    as Hlo' by (apply Qmult_le_l; lra).
  assert (inject_Z n * F64.rnd Xo <= inject_Z n * (Xo + Xo * u64 + tiny))
    as Hhi' by (apply Qmult_le_l; lra).
  assert (inject_Z n * (Xo - Xo * u64 - tiny)
          == P - P * u64 - inject_Z n * tiny) as Elo by (unfold P; ring).
  assert (inject_Z n * (Xo + Xo * u64 + tiny)
          == P + P * u64 + inject_Z n * tiny) as Ehi by (unfold P; ring).
  assert (0 <= P) as HP0 by (unfold P; apply Qmult_le_0_compat; lra).
  split.
  - intros -> Hlt.
    assert (inject_Z no + 1 <= 2 * (inject_Z n * inject_Z To)) as Hint.
    { change 1 with (inject_Z 1). change 2 with (inject_Z 2).
      rewrite <- inject_Z_plus, <- !inject_Z_mult, <- Zle_Qle. lia. }
    assert ((1 # 2) + (1 # 4294967296) <= P) as HPlo.
    { destruct (Qlt_le_dec P ((1 # 2) + (1 # 4294967296))) as [Hc|]; [|done].
      exfalso.
      assert (P * inject_Z no
              < ((1 # 2) + (1 # 4294967296)) * inject_Z no) as Hm
        by (apply Qmult_lt_compat_r; lra).
      lra. }
    apply (Z.lt_le_trans _ 1); [lia|]. apply round_half_even_ge.
    change (inject_Z 1) with 1. unfold u64, tiny in *. lra.
  - intros Hlt.
    assert (2 * (inject_Z n * inject_Z To) + 1 <= inject_Z no) as Hint.
    { change 1 with (inject_Z 1). change 2 with (inject_Z 2).
      rewrite <- !inject_Z_mult, <- inject_Z_plus, <- Zle_Qle. lia. }
    assert (P <= (1 # 2) - (1 # 4294967296)) as HPhi.
    { destruct (Qlt_le_dec ((1 # 2) - (1 # 4294967296)) P) as [Hc|]; [|done].
      exfalso.
      assert (((1 # 2) - (1 # 4294967296)) * inject_Z no
              < P * inject_Z no) as Hm
        by (apply Qmult_lt_compat_r; lra).
      lra. }
    apply Z.le_antisymm.
    + apply round_half_even_le. change (inject_Z 0) with 0.
      unfold u64, tiny in *. lra.
    + by apply round_half_even_nonneg.
Qed.

Lemma letterbox_geometry_spec (shape0 shape1 height width : Z) :
  (0 < shape0 < 2 ^ 31)%Z -> (0 < shape1 < 2 ^ 31)%Z ->
  (0 < height < 2 ^ 31)%Z -> (0 < width < 2 ^ 31)%Z ->
  ∃ nw nh,
    letterbox_geometry shape0 shape1 height width
    = inr (nw, nh, ((height - nh) / 2)%Z, ((height - nh + 1) / 2)%Z,
           ((width - nw) / 2)%Z, ((width - nw + 1) / 2)%Z)
    ∧ (0 <= nw <= width)%Z ∧ (0 <= nh <= height)%Z
    ∧ (nw = width ∨ nh = height)
    ∧ ((shape0 < 2 * shape1 * height)%Z -> (0 < nw)%Z)
    ∧ ((shape1 < 2 * shape0 * width)%Z -> (0 < nh)%Z)
    ∧ ((2 * shape1 * height < shape0)%Z -> nw = 0%Z)
    ∧ ((2 * shape0 * width < shape1)%Z -> nh = 0%Z).
Proof.
  intros H0 H1 Hh Hw. unfold letterbox_geometry.
  destruct (py_float_exact height) as (hq & Eh & Hhq); [lia|].
  destruct (py_float_exact width) as (wq & Ew & Hwq); [lia|].
  destruct (py_truediv_run hq shape0) as (q0 & Hq0 & E0); [lia|].
  destruct (py_truediv_run wq shape1) as (q1 & Hq1 & E1); [lia|].
  rewrite Eh, Ew. ebind. rewrite E0, E1.
  assert (hq / q0 == inject_Z height / inject_Z shape0) as HXa
    by (by rewrite Hhq, Hq0).
  assert (wq / q1 == inject_Z width / inject_Z shape1) as HXb
    by (by rewrite Hwq, Hq1).
  destruct (Q_of_dim _ H0) as [? ?]. destruct (Q_of_dim _ H1) as [? ?].
  destruct (Q_of_dim _ Hh) as [? ?]. destruct (Q_of_dim _ Hw) as [? ?].
  destruct (scaled_quotient _ height shape0 ltac:(lia) ltac:(lia) HXa)
    as (_ & _ & Hra0 & HXa0 & HXaT).
  destruct (scaled_quotient _ width shape1 ltac:(lia) ltac:(lia) HXb)
    as (_ & _ & Hrb0 & HXb0 & HXbT).
  rewrite !F64_of_Q_Fin_abs by (rewrite Qabs_pos by done; lra).
  ebind.
  destruct (py_min_spec (F64.rnd (hq / q0)) (F64.rnd (wq / q1)))
    as (r & Er & Hra & Hrb & Hsel).
  rewrite Er.
  assert (0 <= r) as Hr0 by (destruct Hsel as [-> | ->]; done).
  destruct (new_side_spec shape1 width _ r H1 Hw HXb Hr0 Hrb)
    as (nw & Enw & Hnw & Hnw').
  destruct (new_side_spec shape0 height _ r H0 Hh HXa Hr0 Hra)
    as (nh & Enh & Hnh & Hnh').
  destruct (side_against_other shape1 shape0 height _ r nw H1 H0 Hh HXa
              Hr0 Hra Enw) as [Hwpos Hwzero].
  destruct (side_against_other shape0 shape1 width _ r nh H0 H1 Hw HXb
              Hr0 Hrb Enh) as [Hhpos Hhzero].
  rewrite Enw. ebind. rewrite Enh. ebind.
  destruct (pads_spec (width - nw)) as (dw & Edw & El & Er'); [lia|].
  destruct (pads_spec (height - nh)) as (dh & Edh & Et & Eb); [lia|].
  rewrite Edw. ebind. rewrite Edh. ebind.
  rewrite Et. ebind. rewrite Eb. ebind. rewrite El. ebind. rewrite Er'. ebind.
  exists nw, nh. split_and!; [done|lia..| | | |done|done].
  - destruct Hsel as [Hs|Hs]; [right|left]; auto.
  - intros Hlt. destruct Hsel as [Hs|Hs]; [by apply Hwpos|].
    rewrite (Hnw' Hs). lia.
  - intros Hlt. destruct Hsel as [Hs|Hs]; [|by apply Hhpos].
    rewrite (Hnh' Hs). lia.
Qed.

End Binary64.

(** ** [letterbox] *)

Section Letterbox.
Context `{Runtime}.

Lemma letterbox_unfold (img : tensor Z) (height width : Z) (color : list Q) :
  letterbox img height width color
  = (shape0 ← np_dim img 0;
     shape1 ← np_dim img 1;
     g ← letterbox_geometry shape0 shape1 height width;
     let '(new_width, new_height, top, bottom, lft, rgt) := g in
     rev ← reverse_channels img;
     resized ← resize_cv2 rev new_width new_height;
     out ← reverse_channels
             (cv2_copyMakeBorder resized top bottom lft rgt color);
     mret (out, new_width, new_height)).
Proof.
  unfold letterbox, letterbox_geometry.
  destruct (np_dim img 0) as [|s0]; [done|].
  destruct (np_dim img 1) as [|s1]; [done|]. ebind.
  repeat match goal with
         | |- (?m ≫= _) = ((?m ≫= _) ≫= _) =>
             destruct m as [?|?]; [reflexivity|]; ebind
         end.
  reflexivity.
Qed.

(** X14.  [letterbox] on an image of [h0] rows and [w0] columns, all four
    dimensions positive and below [2^31].  The size [new_width] by
    [new_height] it asks [cv2.resize] for fits in the frame and fills it in
    at least one direction; the other side is positive when the image is
    not too elongated ([h0 < 2 * w0 * height] for the width,
    [w0 < 2 * h0 * width] for the height) and rounds to zero when it is
    ([2 * w0 * height < h0], [2 * h0 * width < w0]).  When a side is zero
    [cv2.resize] raises and so does [letterbox]; nothing is bordered.
    Otherwise the resized image is bordered with [floor(k/2)] pixels on the
    top or left and [ceil(k/2)] on the bottom or right, where [k] is what is
    missing in that direction, so the resized image and its borders add up
    to [height] by [width] exactly, whether [k] is even or odd. *)
Theorem letterbox_fills_the_frame (img : tensor Z) (h0 w0 c : nat)
    (height width : Z) (color : list Q) :
  shape img = [h0; w0; c] ->
  (0 < Z.of_nat h0 < 2 ^ 31)%Z -> (0 < Z.of_nat w0 < 2 ^ 31)%Z ->
  (0 < height < 2 ^ 31)%Z -> (0 < width < 2 ^ 31)%Z ->
  ∃ new_width new_height top bottom lft rgt rev,
    letterbox_geometry (Z.of_nat h0) (Z.of_nat w0) height width
    = inr (new_width, new_height, top, bottom, lft, rgt)
    ∧ reverse_channels img = inr rev
    ∧ letterbox img height width color
      = (if (0 <? new_width)%Z && (0 <? new_height)%Z
         then out ← reverse_channels
                       (cv2_copyMakeBorder
                          (cv2_resize rev new_width new_height)
                          top bottom lft rgt color);
              mret (out, new_width, new_height)
         else inl Cv2Error)
    ∧ (0 <= new_width <= width)%Z ∧ (0 <= new_height <= height)%Z
    ∧ (new_width = width ∨ new_height = height)
    ∧ ((Z.of_nat h0 < 2 * Z.of_nat w0 * height)%Z -> (0 < new_width)%Z)
    ∧ ((Z.of_nat w0 < 2 * Z.of_nat h0 * width)%Z -> (0 < new_height)%Z)
    ∧ ((2 * Z.of_nat w0 * height < Z.of_nat h0)%Z -> new_width = 0%Z)
    ∧ ((2 * Z.of_nat h0 * width < Z.of_nat w0)%Z -> new_height = 0%Z)
    ∧ (0 <= top <= bottom)%Z ∧ (bottom <= top + 1)%Z
    ∧ (0 <= lft <= rgt)%Z ∧ (rgt <= lft + 1)%Z
    ∧ (new_height + top + bottom = height)%Z
    ∧ (new_width + lft + rgt = width)%Z.
Proof.
  intros Hs Hh0 Hw0 Hh Hw.
  destruct (letterbox_geometry_spec _ _ _ _ Hh0 Hw0 Hh Hw)
    as (nw & nh & Eg & Hnw & Hnh & Hfill & Pw & Ph & Zw & Zh).
  assert (reverse_channels img
          = inr (Tensor [h0; w0; c]
                   (concat (reverse <$> chunks c (h0 * w0) (data img)))))
    as Erev by (unfold reverse_channels; by rewrite Hs).
  eexists nw, nh, _, _, _, _, _. split; [exact Eg|].
  split; [exact Erev|].
  split.
  { rewrite letterbox_unfold. unfold np_dim. rewrite Hs.
    cbn [lookup list_lookup]. ebind. rewrite Eg. ebind. rewrite Erev. ebind.
    unfold resize_cv2. by destruct (_ && _). }
  pose proof (Z.div_mod (height - nh) 2 ltac:(lia)) as Hd1.
  pose proof (Z.mod_pos_bound (height - nh) 2 ltac:(lia)) as Hm1.
  pose proof (Z.div_mod (width - nw) 2 ltac:(lia)) as Hd2.
  pose proof (Z.mod_pos_bound (width - nw) 2 ltac:(lia)) as Hm2.
  assert ((height - nh + 1) / 2 = (height - nh) / 2 + (height - nh) mod 2)%Z
    as ->.
  { symmetry.
    apply (Z.div_unique _ 2 _ (1 - (height - nh) mod 2)); lia. }
  assert ((width - nw + 1) / 2 = (width - nw) / 2 + (width - nw) mod 2)%Z
    as ->.
  { symmetry.
    apply (Z.div_unique _ 2 _ (1 - (width - nw) mod 2)); lia. }
  split_and!; try lia; done.
Qed.

End Letterbox.

Lemma letterbox_fills_the_frame_witness :
  ∃ new_width new_height top bottom lft rgt rev,
    letterbox_geometry 2 3 4 4
    = inr (new_width, new_height, top, bottom, lft, rgt)
    ∧ reverse_channels (fill [2; 3; 3]%nat 200%Z) = inr rev
    ∧ letterbox (H := sample_runtime) (fill [2; 3; 3]%nat 200%Z) 4 4
        yolo_v5_color
      = (if (0 <? new_width)%Z && (0 <? new_height)%Z
         then out ← reverse_channels
                       (cv2_copyMakeBorder (Runtime := sample_runtime)
                          (cv2_resize (Runtime := sample_runtime) rev
                             new_width new_height)
                          top bottom lft rgt yolo_v5_color);
              mret (out, new_width, new_height)
         else inl Cv2Error)
    ∧ (0 <= new_width <= 4)%Z ∧ (0 <= new_height <= 4)%Z
    ∧ (new_width = 4%Z ∨ new_height = 4%Z)
    ∧ ((2 < 2 * 3 * 4)%Z -> (0 < new_width)%Z)
    ∧ ((3 < 2 * 2 * 4)%Z -> (0 < new_height)%Z)
    ∧ ((2 * 3 * 4 < 2)%Z -> new_width = 0%Z)
    ∧ ((2 * 2 * 4 < 3)%Z -> new_height = 0%Z)
    ∧ (0 <= top <= bottom)%Z ∧ (bottom <= top + 1)%Z
    ∧ (0 <= lft <= rgt)%Z ∧ (rgt <= lft + 1)%Z
    ∧ (new_height + top + bottom = 4)%Z
    ∧ (new_width + lft + rgt = 4)%Z.
Proof.
  apply (letterbox_fills_the_frame (H := sample_runtime)
           (fill [2; 3; 3]%nat 200%Z) 2 3 3 4 4 yolo_v5_color).
  - reflexivity.
  - simpl. lia.
  - simpl. lia.
  - lia.
  - lia.
Defined.

(** An image of one row and a thousand columns, for a frame of four by
    four: the new height rounds to zero and [cv2.resize] raises. *)
Lemma letterbox_elongated_image_raises :
  letterbox (H := sample_runtime) (fill [1; 1000; 3]%nat 200%Z) 4 4
    yolo_v5_color
  = inl Cv2Error.
Proof. by vm_compute. Qed.

(** ** Binary32 *)

Section Binary32.
Local Open Scope Q_scope.

Lemma F32_rnd_error (x : Q) : Qabs (F32.rnd x - x) <= Qabs x * u32 + tiny.
Proof.
  pose proof (rnd_error 24 128 x) as He.
  assert (pow2 (- 24) == u32) as Hu by reflexivity.
  assert (pow2 (emin 24 128 - 1) <= tiny) as Ht by (by vm_compute).
  rewrite Hu in He. unfold F32.rnd, F32.prec, F32.emax. lra.
Qed.

Lemma F32_rnd_bounds (x : Q) :
  0 <= x ->
  x - x * u32 - tiny <= F32.rnd x <= x + x * u32 + tiny ∧ 0 <= F32.rnd x.
Proof.
  intros Hx. pose proof (F32_rnd_error x) as He.
  rewrite (Qabs_pos x Hx) in He. apply Qabs_Qle_condition in He.
  split; [split; lra|]. by apply rnd_nonneg.
Qed.

Lemma F32_of_Q_Fin (x : Q) :
  0 <= x -> x <= 1267650600228229401496703205376 ->
  F32.of_Q x = Fin (F32.rnd x).
Proof.
  intros Hx Hb. apply round_fin_Fin. fold (F32.rnd x).
  destruct (F32_rnd_bounds x Hx) as [[_ Hhi] Hpos].
  rewrite (Qabs_pos _ Hpos).
  apply (Qle_lt_trans _ (4 * 1267650600228229401496703205376)).
  - unfold u32, tiny in Hhi. lra.
  - by vm_compute.
Qed.

Lemma F32_of_Z_exact (n : Z) :
  (Z.abs n < 2 ^ 24)%Z -> ∃ q, F32.of_Z n = Fin q ∧ q == inject_Z n.
Proof.
  intros Hn. unfold F32.of_Z, of_Z.
  pose proof (rnd_Z_exact F32.prec F32.emax eq_refl n) as Hex.
  rewrite round_fin_Fin.
  - eexists. split; [reflexivity|]. by apply Hex.
  - rewrite Hex by done.
    assert (Qabs (inject_Z n) == inject_Z (Z.abs n)) as ->
      by (symmetry; apply Zabs_Qabs).
    apply (Qlt_trans _ (inject_Z (2 ^ 24))); [by rewrite <- Zlt_Qlt|].
    by vm_compute.
Qed.

Lemma F32_div_Fin (a b : Q) :
  0 <= a -> 0 < b -> a / b <= 1267650600228229401496703205376 ->
  F32.div (Fin a) (Fin b) = Fin (F32.rnd (a / b)).
Proof.
  intros Ha Hb Hq. unfold F32.div, fdiv.
  assert (Qeq_bool b 0 = false) as ->.
  { destruct (Qeq_bool b 0) eqn:He; [|done]. apply Qeq_bool_iff in He. lra. }
  apply F32_of_Q_Fin; [|done]. apply Qle_shift_div_l; lra.
Qed.

Lemma F32_mul_Fin (a b : Q) :
  0 <= a -> 0 <= b -> a * b <= 1267650600228229401496703205376 ->
  F32.mul (Fin a) (Fin b) = Fin (F32.rnd (a * b)).
Proof.
  intros Ha Hb Hq. unfold F32.mul, fmul.
  apply F32_of_Q_Fin; [|done]. by apply Qmult_le_0_compat.
Qed.

Lemma to_int32_floor (a : Q) (T : Z) :
  0 <= a -> a < inject_Z T + 1 -> (T < 2 ^ 31)%Z ->
  to_int32 (Fin a) = Qfloor a ∧ (0 <= Qfloor a <= T)%Z.
Proof.
  intros Ha HT Hb. unfold to_int32, Qtrunc.
  assert (Qle_bool 0 a = true) as -> by (by apply Qle_bool_iff).
  assert (0 <= Qfloor a)%Z as H0.
  { rewrite <- (Qfloor_Z 0). by apply Qfloor_resp_le. }
  assert (Qfloor a <= T)%Z as H1.
  { pose proof (Qfloor_le a) as Hf.
    assert (inject_Z (Qfloor a) < inject_Z (T + 1)) as Hlt
      by (rewrite inject_Z_plus; change (inject_Z 1) with 1; lra).
    rewrite <- Zlt_Qlt in Hlt. lia. }
  split; [|done].
  replace (- 2 ^ 31 <=? Qfloor a)%Z with true by (symmetry; apply Z.leb_le; lia).
  replace (Qfloor a <? 2 ^ 31)%Z with true by (symmetry; apply Z.ltb_lt; lia).
  done.
Qed.

Lemma Q_of_side (n : Z) :
  (0 < n < 2 ^ 20)%Z -> 1 <= inject_Z n ∧ inject_Z n <= 1048576.
Proof.
  intros Hn. split.
  - change 1 with (inject_Z 1). rewrite <- Zle_Qle. lia.
  - change 1048576 with (inject_Z (2 ^ 20)). rewrite <- Zle_Qle. lia.
Qed.

(** The rounded quotient [T / n], and its product with [n]. *)
Lemma quotient32 (X : Q) (T n : Z) :
  (0 < T < 2 ^ 20)%Z -> (0 < n < 2 ^ 20)%Z ->
  X == inject_Z T / inject_Z n ->
  0 <= X ∧ X <= inject_Z T ∧ 0 <= F32.rnd X
  ∧ F32.rnd X <= X + X * u32 + tiny
  ∧ inject_Z T - inject_Z T * u32 - inject_Z n * tiny
    <= inject_Z n * F32.rnd X
  ∧ inject_Z n * F32.rnd X
    <= inject_Z T + inject_Z T * u32 + inject_Z n * tiny.
Proof.
  intros HT Hn HX.
  destruct (Q_of_side T HT) as [HT1 HT2]. destruct (Q_of_side n Hn) as [Hn1 Hn2].
  assert (0 <= X) as HX0.
  { rewrite HX. apply Qle_shift_div_l; lra. }
  assert (inject_Z n * X == inject_Z T) as HnX.
  { rewrite HX. field. lra. }
  destruct (F32_rnd_bounds X HX0) as [[Hlo Hhi] Hpos].
  assert (inject_Z n * (X - X * u32 - tiny) <= inject_Z n * F32.rnd X) as H1
    by (apply Qmult_le_l; lra).
  assert (inject_Z n * F32.rnd X <= inject_Z n * (X + X * u32 + tiny)) as H2
    by (apply Qmult_le_l; lra).
  assert (0 <= X * (inject_Z n - 1)) as H3
    by (apply Qmult_le_0_compat; lra).
  unfold u32, tiny in *. split_and!; lra.
Qed.

(** The side [int(factor * n')] for a factor [r] and an exact product [Zv]
    that is at most the target, up to two roundings. *)
Lemma side32 (r q Zv : Q) (n' T' : Z) :
  (0 < n' < 2 ^ 20)%Z -> (0 < T' < 2 ^ 20)%Z ->
  q == inject_Z n' -> 0 <= r -> 0 <= Zv ->
  inject_Z n' * r <= Zv + Zv * u32 + inject_Z n' * tiny ->
  Zv * (1 - u32) <= inject_Z T' * (1 + u32) + (1 # 1125899906842624) ->
  ∃ m, to_int32 (F32.mul (Fin r) (Fin q)) = m ∧ (0 <= m <= T')%Z.
Proof.
  intros Hn HT Hq Hr HZ Hnr HZT.
  destruct (Q_of_side n' Hn) as [Hn1 Hn2]. destruct (Q_of_side T' HT) as [HT1 HT2].
  assert (0 <= q) as Hq0 by lra.
  assert (r * q == inject_Z n' * r) as HY by (rewrite Hq; ring).
  assert (0 <= inject_Z n' * r) as Hnr0 by (apply Qmult_le_0_compat; lra).
  rewrite F32_mul_Fin by (try done; unfold u32, tiny in *; lra).
  assert (0 <= r * q) as HY0 by lra.
  destruct (F32_rnd_bounds (r * q) HY0) as [[Ylo Yhi] Ypos].
  destruct (to_int32_floor (F32.rnd (r * q)) T') as [-> Hm];
    [done| |lia|by eexists].
  unfold u32, tiny in *. lra.
Qed.

(** The side along which the factor was computed: [int(fl(T / n) * n)] is
    [T] or [T - 1]. *)
Lemma own_side32 (X q : Q) (n T : Z) :
  (0 < n < 2 ^ 20)%Z -> (0 < T < 2 ^ 20)%Z ->
  X == inject_Z T / inject_Z n -> q == inject_Z n ->
  ∃ m, to_int32 (F32.mul (Fin (F32.rnd X)) (Fin q)) = m ∧ (T - 1 <= m <= T)%Z.
Proof.
  intros Hn HT HX Hq.
  destruct (Q_of_side n Hn) as [Hn1 Hn2]. destruct (Q_of_side T HT) as [HT1 HT2].
  destruct (quotient32 X T n HT Hn HX) as (HX0 & HXT & Hr0 & Hr & Hlo & Hhi).
  set (r := F32.rnd X) in *.
  assert (r * q == inject_Z n * r) as HY by (rewrite Hq; ring).
  rewrite F32_mul_Fin by (try done; unfold u32, tiny in *; lra).
  assert (0 <= r * q) as HY0 by (unfold u32, tiny in *; lra).
  destruct (F32_rnd_bounds (r * q) HY0) as [[Ylo Yhi] Ypos].
  destruct (to_int32_floor (F32.rnd (r * q)) T) as [-> Hm];
    [done|unfold u32, tiny in *; lra|lia|].
  eexists. split; [reflexivity|]. split; [|lia].
  rewrite <- (Qfloor_Z (T - 1)). apply Qfloor_resp_le.
  assert (inject_Z (T - 1) == inject_Z T - 1) as ->
    by (unfold Zminus; rewrite inject_Z_plus; reflexivity).
  unfold u32, tiny in *. lra.
Qed.

(** A comparison of two rounded quotients, cross-multiplied. *)
Lemma cross32 (a b M Za Zb : Q) :
  0 <= a -> 0 <= b -> F32.rnd a <= F32.rnd b ->
  0 <= M -> M <= 1099511627776 ->
  M * a == Za -> M * b == Zb ->
  Za * (1 - u32) <= Zb * (1 + u32) + (1 # 1125899906842624).
Proof.
  intros Ha Hb Hab HM0 HM Ea Eb.
  destruct (F32_rnd_bounds a Ha) as [[Alo _] _].
  destruct (F32_rnd_bounds b Hb) as [[_ Bhi] _].
  assert ((a - a * u32 - tiny) * M <= (b + b * u32 + tiny) * M) as Hm
    by (apply Qmult_le_compat_r; lra).
  unfold u32, tiny in *. lra.
Qed.

Lemma ar_new_size (ih iw height width : Z) :
  (0 < ih < 2 ^ 20)%Z -> (0 < iw < 2 ^ 20)%Z ->
  (0 < height < 2 ^ 20)%Z -> (0 < width < 2 ^ 20)%Z ->
  ∃ nh nw,
    to_int32 (F32.mul (ar_factor ih iw height width) (F32.of_Z ih)) = nh
    ∧ to_int32 (F32.mul (ar_factor ih iw height width) (F32.of_Z iw)) = nw
    ∧ (0 <= nh <= height)%Z ∧ (0 <= nw <= width)%Z
    ∧ (width - 1 <= nw ∨ height - 1 <= nh)%Z.
Proof.
  intros Hih Hiw Hh Hw.
  destruct (F32_of_Z_exact ih) as (ihq & Eih & Hihq); [lia|].
  destruct (F32_of_Z_exact iw) as (iwq & Eiw & Hiwq); [lia|].
  destruct (F32_of_Z_exact height) as (hq & Eh & Hhq); [lia|].
  destruct (F32_of_Z_exact width) as (wq & Ew & Hwq); [lia|].
  unfold ar_factor. rewrite Eih, Eiw, Eh, Ew.
  destruct (Q_of_side _ Hih) as [? ?]. destruct (Q_of_side _ Hiw) as [? ?].
  destruct (Q_of_side _ Hh) as [? ?]. destruct (Q_of_side _ Hw) as [? ?].
  assert (wq / hq == inject_Z width / inject_Z height) as Xb
    by (by rewrite Hwq, Hhq).
  assert (iwq / ihq == inject_Z iw / inject_Z ih) as Xr
    by (by rewrite Hiwq, Hihq).
  assert (wq / iwq == inject_Z width / inject_Z iw) as Xw
    by (by rewrite Hwq, Hiwq).
  assert (hq / ihq == inject_Z height / inject_Z ih) as Xh
    by (by rewrite Hhq, Hihq).
  destruct (quotient32 _ _ _ Hw Hh Xb) as (Hb0 & HbT & _).
  destruct (quotient32 _ _ _ Hiw Hih Xr) as (Hr0 & HrT & _).
  destruct (quotient32 _ _ _ Hw Hiw Xw) as (Hw0 & HwT & Hfw0 & Hfw & _).
  destruct (quotient32 _ _ _ Hh Hih Xh) as (Hh0 & HhT & Hfh0 & Hfh & _).
  rewrite (F32_div_Fin wq hq), (F32_div_Fin iwq ihq) by lra.
  assert (inject_Z height * inject_Z ih <= 1099511627776) as Hprod.
  { rewrite <- inject_Z_mult. change 1099511627776 with (inject_Z (2 ^ 40)).
    rewrite <- Zle_Qle. nia. }
  unfold fge, fle, fcompare.
  destruct (Qcompare_spec (F32.rnd (wq / hq)) (F32.rnd (iwq / ihq)))
    as [Hc|Hc|Hc].
  1, 2: rewrite (F32_div_Fin wq iwq) by lra.
  3: rewrite (F32_div_Fin hq ihq) by lra.
  1, 2: destruct (own_side32 _ iwq iw width Hiw Hw Xw Hiwq) as (nw & Enw & Hnw).
  1, 2: set (Zv := inject_Z width / inject_Z iw * inject_Z ih).
  1, 2: assert (0 <= Zv) as HZ0
    by (unfold Zv; apply Qmult_le_0_compat; [apply Qle_shift_div_l|]; lra).
  1, 2: assert (wq / iwq * inject_Z ih == Zv) as HXZ by (unfold Zv; by rewrite Xw).
  1, 2: assert (F32.rnd (wq / iwq) * inject_Z ih
                <= (wq / iwq + wq / iwq * u32 + tiny) * inject_Z ih) as Hmul
    by (apply Qmult_le_compat_r; lra).
  1, 2: assert (Zv * (1 - u32)
                <= inject_Z height * (1 + u32) + (1 # 1125899906842624)) as Hx.
  1, 3: apply (cross32 (wq / hq) (iwq / ihq)
                 (inject_Z height * inject_Z ih / inject_Z iw)); try lra.
  1, 5: apply Qle_shift_div_l; [lra|]; apply Qmult_le_0_compat; lra.
  1, 4: apply Qle_shift_div_r; lra.
  1, 3: unfold Zv; rewrite Hwq, Hhq; field; lra.
  1, 2: rewrite Hiwq, Hihq; field; lra.
  1, 2: destruct (side32 (F32.rnd (wq / iwq)) ihq Zv ih height)
          as (nh & Enh & Hnh); try done;
        [unfold u32, tiny in *; lra|].
  1, 2: exists nh, nw; split_and!; try done; try lia.
  destruct (own_side32 _ ihq ih height Hih Hh Xh Hihq) as (nh & Enh & Hnh).
  set (Zv := inject_Z height / inject_Z ih * inject_Z iw).
  assert (0 <= Zv) as HZ0
    by (unfold Zv; apply Qmult_le_0_compat; [apply Qle_shift_div_l|]; lra).
  assert (hq / ihq * inject_Z iw == Zv) as HXZ by (unfold Zv; by rewrite Xh).
  assert (F32.rnd (hq / ihq) * inject_Z iw
          <= (hq / ihq + hq / ihq * u32 + tiny) * inject_Z iw) as Hmul
    by (apply Qmult_le_compat_r; lra).
  assert (Zv * (1 - u32)
          <= inject_Z width * (1 + u32) + (1 # 1125899906842624)) as Hx.
  { apply (cross32 (iwq / ihq) (wq / hq) (inject_Z height)); try lra.
    - unfold Zv. rewrite Hiwq, Hihq. field. lra.
    - rewrite Hwq, Hhq. field. lra. }
  destruct (side32 (F32.rnd (hq / ihq)) iwq Zv iw width)
    as (nw & Enw & Hnw); try done; [unfold u32, tiny in *; lra|].
  exists nh, nw. split_and!; try done; try lia.
Qed.

End Binary32.

(** ** [_ar_preserving_resize_and_crop] *)

Lemma chunks_lookup {A} (n k : nat) (l : list A) (i : nat) :
  (i < k)%nat -> chunks n k l !! i = Some (take n (drop (i * n) l)).
Proof.
  revert l i. induction k as [|k IH]; intros l i Hi; [lia|].
  destruct i as [|i]; cbn [chunks lookup list_lookup]; [done|].
  rewrite IH by lia. by rewrite drop_drop.
Qed.

Lemma chunks_lengths {A} (n k : nat) (l : list A) :
  length l = (k * n)%nat -> Forall (λ x, length x = n) (chunks n k l).
Proof.
  revert l. induction k as [|k IH]; intros l Hl; cbn [chunks]; [done|].
  constructor.
  - rewrite length_take. lia.
  - apply IH. rewrite length_drop. lia.
Qed.

Lemma concat_chunks {A} (n k : nat) (l : list A) :
  length l = (k * n)%nat -> concat (chunks n k l) = l.
Proof.
  revert l. induction k as [|k IH]; intros l Hl; cbn [chunks concat].
  - by destruct l.
  - rewrite IH by (rewrite length_drop; lia). apply take_drop.
Qed.

Lemma lookup_concat_uniform {A} (ls : list (list A)) (n i r : nat) :
  Forall (λ x, length x = n) ls -> (r < n)%nat ->
  concat ls !! (i * n + r)%nat = ls !! i ≫= (λ x, x !! r).
Proof.
  intros Hls Hr. revert i. induction Hls as [|x ls Hx _ IH]; intros i.
  - by destruct i.
  - destruct i as [|i]; cbn [concat lookup list_lookup].
    + rewrite lookup_app_l by lia. done.
    + rewrite lookup_app_r by lia. rewrite <- IH. f_equal. lia.
Qed.

Lemma length_chunks {A} (n k : nat) (l : list A) : length (chunks n k l) = k.
Proof.
  revert l. induction k as [|k IH]; intros l; cbn [chunks length]; [done|].
  by rewrite IH.
Qed.

Lemma length_concat_uniform {A} (ls : list (list A)) (n : nat) :
  Forall (λ x, length x = n) ls -> length (concat ls) = (length ls * n)%nat.
Proof.
  induction 1 as [|x ls Hx _ IH]; [done|].
  cbn [concat length]. rewrite length_app, IH. lia.
Qed.

Lemma pad_data_bottom_right {A} (z : A) (nh nw c a b : nat) (l : list A) :
  length l = (nh * nw * c)%nat ->
  pad_data z [1; nh; nw; c]%nat [(0, 0); (0, a); (0, b); (0, 0)]%nat l
  = concat ((λ row, row ++ replicate (b * c) z) <$> chunks (nw * c) nh l)
    ++ replicate (a * ((nw + b) * c)) z.
Proof.
  intros Hl. cbn [pad_data padded_shape zip_with numel foldr fst snd].
  rewrite !Nat.mul_0_l, !Nat.mul_1_r, !Nat.add_0_l, !Nat.add_0_r.
  cbn [replicate app chunks fmap list_fmap concat].
  assert (length l = (nh * (nw * c))%nat) as Hl'
    by (by rewrite Nat.mul_assoc).
  rewrite !app_nil_r. rewrite take_ge by (by rewrite Hl').
  f_equal. f_equal. apply Forall_fmap_ext_1.
  eapply Forall_impl; [exact (chunks_lengths _ _ _ Hl')|].
  intros row Hrow. cbn beta. f_equal.
  transitivity (concat (chunks c nw row)); [|by apply concat_chunks].
  f_equal. etrans; [|apply list_fmap_id]. apply Forall_fmap_ext_1.
  eapply Forall_impl; [exact (chunks_lengths _ _ _ Hrow)|].
  intros px Hpx. cbn beta in *.
  rewrite ?app_nil_r, list_fmap_id, concat_chunks_1.
  unfold id. rewrite take_ge; [done|]. rewrite Hpx. done.
Qed.

Lemma bottom_right_lookup {A} (z : A) (nh nw c a b : nat) (l : list A)
    (i j k : nat) :
  length l = (nh * nw * c)%nat ->
  (i < nh + a)%nat -> (j < nw + b)%nat -> (k < c)%nat ->
  (concat ((λ row, row ++ replicate (b * c) z) <$> chunks (nw * c) nh l)
   ++ replicate (a * ((nw + b) * c)) z) !! ((i * (nw + b) + j) * c + k)%nat
  = if decide (i < nh ∧ j < nw)%nat
    then l !! ((i * nw + j) * c + k)%nat
    else Some z.
Proof.
  intros Hl Hi Hj Hk.
  assert (length l = (nh * (nw * c))%nat) as Hl'
    by (by rewrite Nat.mul_assoc).
  pose proof (chunks_lengths _ _ _ Hl') as Hrows.
  assert (Forall (λ x, length x = ((nw + b) * c)%nat)
            ((λ row, row ++ replicate (b * c) z) <$> chunks (nw * c) nh l))
    as Hpad.
  { apply Forall_fmap. eapply Forall_impl; [exact Hrows|].
    intros row Hrow. unfold compose. cbn beta in *.
    rewrite length_app, length_replicate. lia. }
  assert (((i * (nw + b) + j) * c + k = i * ((nw + b) * c) + (j * c + k))%nat)
    as -> by lia.
  assert (j * c + k < (nw + b) * c)%nat as Hjk by nia.
  destruct (decide (i < nh)%nat) as [Hin|Hout].
  - rewrite lookup_app_l.
    2:{ rewrite (length_concat_uniform _ ((nw + b) * c)) by done.
        rewrite length_fmap, length_chunks. nia. }
    rewrite (lookup_concat_uniform _ ((nw + b) * c)) by done.
    rewrite list_lookup_fmap, chunks_lookup by done. cbn.
    destruct (decide (j < nw)%nat) as [Hjn|Hjn].
    + rewrite decide_True by done.
      rewrite lookup_app_l by (rewrite length_take, length_drop; nia).
      rewrite lookup_take_lt by nia. rewrite lookup_drop. f_equal. lia.
    + rewrite decide_False by lia.
      rewrite lookup_app_r by (rewrite length_take, length_drop; nia).
      apply lookup_replicate_2. rewrite length_take, length_drop. nia.
  - rewrite decide_False by lia.
    rewrite lookup_app_r.
    2:{ rewrite (length_concat_uniform _ ((nw + b) * c)) by done.
        rewrite length_fmap, length_chunks. nia. }
    apply lookup_replicate_2.
    rewrite (length_concat_uniform _ ((nw + b) * c)) by done.
    rewrite length_fmap, length_chunks. nia.
Qed.

Section ArPreserving.
Context `{Runtime}.

(** X15.  [_ar_preserving_resize_and_crop] on an image of [ih] rows and
    [iw] columns, with both image dimensions and both targets positive and
    below [2^20]: the size it resizes to fits in the target, so the padding
    amounts [height - new_height] and [width - new_width] are not negative;
    and along one direction at least the resized image misses the target
    by at most one pixel (the product is truncated, not rounded). *)
Theorem ar_preserving_new_size_fits (height width : Z) (image : value)
    (r : ar_result) (ih iw : Z) :
  image_dim image 0 = inr ih -> image_dim image 1 = inr iw ->
  (0 < ih < 2 ^ 20)%Z -> (0 < iw < 2 ^ 20)%Z ->
  (0 < height < 2 ^ 20)%Z -> (0 < width < 2 ^ 20)%Z ->
  _ar_preserving_resize_and_crop height image width = inr r ->
  image_height r = ih ∧ image_width r = iw
  ∧ aspect_ratio_factor r = ar_factor ih iw height width
  ∧ (0 <= new_height r <= height)%Z ∧ (0 <= new_width r <= width)%Z
  ∧ (width - 1 <= new_width r ∨ height - 1 <= new_height r)%Z.
Proof.
  intros Hd0 Hd1 Hih Hiw Hh Hw Hr.
  apply ar_fields in Hr
    as (ih' & iw' & Hd0' & Hd1' & Eh & Ew & _ & _ & Ef & Enh & Enw).
  rewrite Hd0 in Hd0'. rewrite Hd1 in Hd1'.
  injection Hd0' as <-. injection Hd1' as <-.
  destruct (ar_new_size ih iw height width Hih Hiw Hh Hw)
    as (nh & nw & Hnh & Hnw & ? & ? & ?).
  rewrite Enh, Enw, Hnh, Hnw. done.
Qed.

Lemma image_dim_cast (image : value) (t : tensor float) (i : nat) :
  cast_float32 image = inr t -> shape t ≠ [] -> image_dim image i = dim t i.
Proof.
  intros Hc Hs. destruct image; simplify_eq/=; try done.
Qed.

(** X16.  [_ar_preserving_resize_and_crop] asks the resize kernel for
    [new_height] by [new_width].  When one of them is zero the kernel
    raises and so does the function.  When both are positive and the kernel
    delivers an image of that size, the function returns an image of
    exactly the target shape; the resized image sits in its top left
    corner, pixel for pixel, and every pixel below or to the right of it is
    zero: nothing is put above or to the left.  (Dimensions as in X15.) *)
Theorem ar_preserving_returns_target_shape (height width : Z) (image : value)
    (t : tensor float) (h0 w0 c : nat) :
  cast_float32 image = inr t ->
  shape t = [h0; w0; c] ->
  (0 < Z.of_nat h0 < 2 ^ 20)%Z -> (0 < Z.of_nat w0 < 2 ^ 20)%Z ->
  (0 < height < 2 ^ 20)%Z -> (0 < width < 2 ^ 20)%Z ->
  let f := ar_factor (Z.of_nat h0) (Z.of_nat w0) height width in
  let nh := to_int32 (F32.mul f (F32.of_Z (Z.of_nat h0))) in
  let nw := to_int32 (F32.mul f (F32.of_Z (Z.of_nat w0))) in
  let resized :=
    tf_resize Bilinear false (Tensor [1; h0; w0; c]%nat (data t)) nh nw in
  ((nh = 0 ∨ nw = 0)%Z ->
   _ar_preserving_resize_and_crop height image width
   = inl InvalidArgumentError)
  ∧ ((0 < nh)%Z -> (0 < nw)%Z ->
     shape resized = [1%nat; Z.to_nat nh; Z.to_nat nw; c] ->
     length (data resized) = (Z.to_nat nh * Z.to_nat nw * c)%nat ->
     ∃ r, _ar_preserving_resize_and_crop height image width = inr r
          ∧ new_height r = nh ∧ new_width r = nw
          ∧ shape (ar_image r) = [Z.to_nat height; Z.to_nat width; c]
          ∧ ∀ i j k,
              (i < Z.to_nat height)%nat -> (j < Z.to_nat width)%nat ->
              (k < c)%nat ->
              pixel (ar_image r) i j k
              = if decide (i < Z.to_nat nh ∧ j < Z.to_nat nw)%nat
                then pixel (Tensor [Z.to_nat nh; Z.to_nat nw; c]
                              (data resized)) i j k
                else Some (F32.of_Z 0)).
Proof.
  intros Hc Hs Hh0 Hw0 Hh Hw f nh nw resized.
  destruct (ar_new_size _ _ height width Hh0 Hw0 Hh Hw)
    as (nh' & nw' & Enh & Enw & Hnh & Hnw & _).
  fold f in Enh, Enw. fold nh in Enh. fold nw in Enw. subst nh' nw'.
  assert (_ar_preserving_resize_and_crop height image width
          = (rz ← resize_images Bilinear false
                    (Tensor [1; h0; w0; c]%nat (data t)) nh nw;
             padded_image ←
               pad rz [(0, 0); (0, height - nh); (0, width - nw); (0, 0)]%Z
                 (F32.of_Z 0);
             img ← squeeze0 padded_image;
             mret (ArResult f img (Z.of_nat h0) (F32.of_Z (Z.of_nat h0))
                     (Z.of_nat w0) (F32.of_Z (Z.of_nat w0)) nh nw)))
    as Erun.
  { unfold _ar_preserving_resize_and_crop.
    rewrite !(image_dim_cast image t) by (try done; by rewrite Hs).
    unfold dim. rewrite Hs. cbn [lookup list_lookup]. ebind.
    rewrite Hc. ebind. unfold expand_dims, rank. rewrite Hs.
    rewrite decide_True by (cbn; lia). cbn [take drop app]. ebind.
    reflexivity. }
  split.
  - intros Hz. rewrite Erun. unfold resize_images. cbn [shape].
    replace ((0 <? nh)%Z && (0 <? nw)%Z) with false; [done|].
    symmetry. apply andb_false_iff.
    destruct Hz as [-> | ->]; [by left|by right].
  - intros Pnh Pnw Hk Hlen. rewrite Erun. unfold resize_images. cbn [shape].
    replace (0 <? nh)%Z with true by (symmetry; apply Z.ltb_lt; lia).
    replace (0 <? nw)%Z with true by (symmetry; apply Z.ltb_lt; lia).
    replace (0 <? Z.of_nat h0)%Z with true by (symmetry; apply Z.ltb_lt; lia).
    replace (0 <? Z.of_nat w0)%Z with true by (symmetry; apply Z.ltb_lt; lia).
    cbn [andb]. ebind. fold resized.
    unfold pad, rank. rewrite Hk. cbn [length].
    rewrite decide_True by done.
    cbn [forallb fst snd].
    replace (0 <=? height - nh)%Z with true by (symmetry; apply Z.leb_le; lia).
    replace (0 <=? width - nw)%Z with true by (symmetry; apply Z.leb_le; lia).
    cbn [Z.leb Z.compare andb fmap list_fmap fst snd Z.to_nat].
    ebind. unfold squeeze0.
    cbn [shape data padded_shape zip_with fst snd Nat.add]. ebind.
    eexists. split; [reflexivity|]. cbn [new_height new_width ar_image shape].
    split_and!; [done..| |].
    { f_equal; [lia|]. f_equal; [lia|]. f_equal. lia. }
    intros i j k Hi Hj Hkc. unfold pixel. cbn [shape data].
    rewrite !Nat.add_0_r.
    rewrite decide_True by lia.
    rewrite pad_data_bottom_right by done.
    rewrite bottom_right_lookup by (try done; lia).
    destruct (decide (i < Z.to_nat nh ∧ j < Z.to_nat nw)%nat) as [[? ?]|?];
      [|done].
    by rewrite decide_True by lia.
Qed.

End ArPreserving.

Lemma ar_preserving_new_size_fits_witness :
  let r := returned
             (_ar_preserving_resize_and_crop (H := sample_runtime) 4
                sample_image 5, None)
             (ArResult NaN (scalar NaN) 0 NaN 0 NaN 0 0) in
  image_height r = 2%Z ∧ image_width r = 3%Z
  ∧ aspect_ratio_factor r = ar_factor 2 3 4 5
  ∧ (0 <= new_height r <= 4)%Z ∧ (0 <= new_width r <= 5)%Z
  ∧ (5 - 1 <= new_width r ∨ 4 - 1 <= new_height r)%Z.
Proof.
  apply (ar_preserving_new_size_fits (H := sample_runtime) 4 5 sample_image
           _ 2 3).
  - reflexivity.
  - reflexivity.
  - lia.
  - lia.
  - lia.
  - lia.
  - reflexivity.
Defined.

Lemma ar_preserving_returns_target_shape_witness :
  ∃ r, _ar_preserving_resize_and_crop (H := sample_runtime) 4 sample_image 5
       = inr r
       ∧ new_height r = to_int32 (F32.mul (ar_factor 2 3 4 5) (F32.of_Z 2))
       ∧ new_width r = to_int32 (F32.mul (ar_factor 2 3 4 5) (F32.of_Z 3))
       ∧ shape (ar_image r) = [4; 5; 3]%nat
       ∧ pixel (ar_image r) 0 0 0 = Some (Fin 100)
       ∧ pixel (ar_image r) 3 4 2 = Some (Fin 0).
Proof.
  destruct (ar_preserving_returns_target_shape (H := sample_runtime) 4 5
              sample_image (tmap F32.of_Z (fill [2; 3; 3]%nat 200%Z)) 2 3 3)
    as [_ Hret].
  - reflexivity.
  - reflexivity.
  - simpl. lia.
  - simpl. lia.
  - lia.
  - lia.
  - destruct Hret as (r & Hr & Hnh & Hnw & Hs & Hpx).
    + by vm_compute.
    + by vm_compute.
    + reflexivity.
    + reflexivity.
    + exists r. split_and!; [done..| |].
      * rewrite (Hpx 0 0 0)%nat by (simpl; lia). reflexivity.
      * rewrite (Hpx 3 4 2)%nat by (simpl; lia). reflexivity.
Defined.

(** An image of one row and twenty-two columns, for a target of ten by
    thirteen: the new height is zero and the resize kernel raises. *)
Lemma ar_preserving_elongated_image_raises :
  _ar_preserving_resize_and_crop (H := sample_runtime) 10
    (VU8 (fill [1; 22; 3]%nat 200%Z)) 13
  = inl InvalidArgumentError.
Proof. reflexivity. Qed.

(** ** The padding offsets of CenterNet *)

Section Centernet32.
Local Open Scope Q_scope.

Lemma F32_of_Q_Fin_abs (x : Q) :
  Qabs x <= 1267650600228229401496703205376 ->
  F32.of_Q x = Fin (F32.rnd x).
Proof.
  intros Hb. apply round_fin_Fin. fold (F32.rnd x).
  pose proof (F32_rnd_error x) as He.
  pose proof (Qabs_triangle (F32.rnd x - x) x) as Ht.
  assert (F32.rnd x - x + x == F32.rnd x) as Hs by ring.
  rewrite Hs in Ht.
  apply (Qle_lt_trans _ (4 * 1267650600228229401496703205376)).
  - unfold u32, tiny in He. lra.
  - by vm_compute.
Qed.

Lemma half_of_one : F32.mul (F32.of_Q (1 # 2)) (F32.of_Z 1) = F32.of_Q (1 # 2).
Proof. by vm_compute. Qed.

Lemma half_of_zero : F32.mul (F32.of_Q (1 # 2)) (F32.of_Z 0) = Fin 0.
Proof. by vm_compute. Qed.

Lemma zero_times (z : Q) : F32.mul (Fin 0) (Fin z) = Fin 0.
Proof.
  unfold F32.mul, fmul, round_fin, rnd.
  assert (Qeq_bool (0 * z) 0 = true) as ->
    by (apply Qeq_bool_iff; ring).
  done.
Qed.

(** The code multiplies by the indicator of the padded axis; where every
    operand is finite this is the case distinction of the
    specification. *)
Lemma centernet_padding_offset (aq Aq rq : Q) (ra rb : float) :
  0 <= aq -> aq <= 1048576 -> 0 <= Aq -> Aq <= 1048576 ->
  0 <= rq -> rq <= 4194304 ->
  centernet_padding (Fin aq) (Fin Aq) (Fin rq) ra rb
  = centernet_offset (Fin aq) (Fin Aq) (Fin rq) ra rb.
Proof.
  intros Ha0 Ha1 HA0 HA1 Hr0 Hr1. unfold centernet_padding, centernet_offset.
  destruct (flt rb ra).
  - by rewrite half_of_one.
  - rewrite half_of_zero.
    assert (0 <= aq * rq) as Hp0 by (by apply Qmult_le_0_compat).
    assert (aq * rq <= 1048576 * 4194304) as Hp1.
    { apply (Qle_trans _ (1048576 * rq)).
      - by apply Qmult_le_compat_r.
      - apply Qmult_le_l; lra. }
    rewrite F32_mul_Fin by lra.
    destruct (F32_rnd_bounds (aq * rq) Hp0) as [[_ Yhi] Ypos].
    unfold F32.sub, fsub, fneg, fadd.
    fold (F32.of_Q (Aq + Qred (- F32.rnd (aq * rq)))).
    pose proof (Qred_correct (- F32.rnd (aq * rq))) as Hred.
    rewrite F32_of_Q_Fin_abs.
    + cbn [fabs]. rewrite zero_times. reflexivity.
    + apply Qabs_Qle_condition. unfold u32, tiny in *. split; lra.
Qed.

End Centernet32.

Ltac lengths :=
  rewrite ?length_fmap, ?length_padded by (by rewrite length_fmap).

Ltac lengths_in H :=
  rewrite ?length_fmap, ?length_padded in H by (by rewrite length_fmap).

(** The inline tail [w = xmax - xmin; h = ymax - ymin; concat]. *)
Ltac bbox_inline :=
  repeat match goal with
         | H : bcast2 _ (column _) (column _) = inr _ |- _ =>
             rewrite bcast2_columns in H by (by lengths);
             injection H as <-
         end;
  match goal with
  | H : concat1 _ = inr _ |- _ =>
      unfold column in H; lengths_in H;
      rewrite concat1_columns in H by (by lengths);
      injection H as <-
  end.

Lemma bcast2_scalar_vector {A B C} (f : A -> B -> C) (a : A) (l : list B) :
  bcast2 f (scalar a) (vector l) = inr (vector (f a <$> l)).
Proof.
  unfold bcast2, vector, scalar, tmap. cbn [shape data].
  by rewrite length_fmap.
Qed.

Section CenternetRun.
Context `{Runtime}.

Lemma centernet_run image h w max_pad d kx ky l1 l2 l3 l4 la :
  is_Some (d !! "num_boxes") ->
  d !! "width" ≫= float_of = Some kx ->
  d !! "height" ≫= float_of = Some ky ->
  d !! "xmin" = Some (VF (vector l1)) -> d !! "xmax" = Some (VF (vector l2)) ->
  d !! "ymin" = Some (VF (vector l3)) -> d !! "ymax" = Some (VF (vector l4)) ->
  d !! "area" = Some (VF (vector la)) ->
  wp (centernet_resnet_v1_18_detection image (Some h) (Some w) max_pad) (Some d)
    (λ _ s',
       ∃ d', s' = Some d'
         ∧ d' !! "bbox"
           = Some (VF (layout (centernet_law kx ky h w max_pad) l1 l2 l3 l4))
         ∧ d' !! "area"
           = Some (VF (column
                         (padded max_pad
                            ((λ a, F32.mul
                                     (tf_pow
                                        (centernet_ratio ky kx (F32.of_Z h)
                                           (F32.of_Z w))
                                        (F32.of_Z 2)) a) <$> la))))
         ∧ d' !! "height" = Some (VInt h) ∧ d' !! "width" = Some (VInt w)).
Proof.
  intros Hn Hkx Hky H1 H2 H3 H4 Ha.
  destruct (d !! "width") as [wv|] eqn:Hw; [|done].
  destruct (d !! "height") as [hv|] eqn:Hh; [|done].
  apply float_of_Some in Hkx, Hky.
  unfold centernet_resnet_v1_18_detection.
  wp_strong. all: known.
  all: same_cast; eval_hyps; bbox_inline.
  all: unfold popped in *.
  all: match goal with
       | Hg : _ !! "area" = Some _ |- _ => map_simpl_in Hg
       end.
  all: same_key.
  all: match goal with
       | Hc : _ = inr ?c |- _ =>
           cbv zeta in Hc; rewrite tmap_scalar in Hc; cbn [as_float] in Hc;
           rewrite E_bind_inr, bcast2_scalar_vector, E_bind_inr in Hc;
           apply pad_column in Hc as (-> & _ & _)
       end.
  all: eexists; split; [reflexivity|]; map_simpl; split_and!; [|done..].
  all: unfold layout, scaled, centernet_law, centernet_padding,
    centernet_ratio, clip.
  all: cbn [pre_x pre_y post_x post_y pad_to].
  all: rewrite <- !list_fmap_compose.
  all: reflexivity.
Qed.

End CenternetRun.

Section CenternetLaw.
Local Open Scope Q_scope.

Lemma centernet_law_transform (h0 w0 height width n : Z) :
  (0 < h0 < 2 ^ 20)%Z -> (0 < w0 < 2 ^ 20)%Z ->
  (0 < height < 2 ^ 20)%Z -> (0 < width < 2 ^ 20)%Z ->
  centernet_law (F32.of_Z w0) (F32.of_Z h0) height width n
  = centernet_transform h0 w0 height width n.
Proof.
  intros Hh0 Hw0 Hh Hw. unfold centernet_law, centernet_transform, centernet_ratio.
  destruct (F32_of_Z_exact h0) as (h0q & Eh0 & Hh0q); [lia|].
  destruct (F32_of_Z_exact w0) as (w0q & Ew0 & Hw0q); [lia|].
  destruct (F32_of_Z_exact height) as (hq & Eh & Hhq); [lia|].
  destruct (F32_of_Z_exact width) as (wq & Ew & Hwq); [lia|].
  rewrite Eh0, Ew0, Eh, Ew.
  destruct (Q_of_side _ Hh0) as [? ?]. destruct (Q_of_side _ Hw0) as [? ?].
  destruct (Q_of_side _ Hh) as [? ?]. destruct (Q_of_side _ Hw) as [? ?].
  assert (hq / h0q == inject_Z height / inject_Z h0) as Xh
    by (by rewrite Hhq, Hh0q).
  assert (wq / w0q == inject_Z width / inject_Z w0) as Xw
    by (by rewrite Hwq, Hw0q).
  destruct (quotient32 _ _ _ Hh Hh0 Xh) as (Hh1 & Hh2 & Hh3 & Hh4 & _).
  destruct (quotient32 _ _ _ Hw Hw0 Xw) as (Hw1 & Hw2 & Hw3 & Hw4 & _).
  rewrite (F32_div_Fin hq h0q), (F32_div_Fin wq w0q) by lra.
  assert (∃ rq, fmin (Fin (F32.rnd (hq / h0q))) (Fin (F32.rnd (wq / w0q)))
                = Fin rq ∧ 0 <= rq ∧ rq <= 4194304) as (rq & -> & Hr0 & Hr1).
  { unfold fmin, fcompare. unfold u32, tiny in *.
    destruct (Qcompare _ _); eexists; (split; [reflexivity|]); split; lra. }
  by rewrite !centernet_padding_offset by lra.
Qed.

End CenternetLaw.

Section CenternetTheorem.
Context `{Runtime}.

(** X17.  CenterNet, with both sizes given, ['num_boxes'] in the bundle and
    original and target dimensions that are positive integers below
    [2^20]: a run that returns has multiplied every normalized corner by
    the original width or height and by the resize ratio
    [r = min(height / h, width / w)], added the padding offset, which is
    [floor(0.5 * |width - w * r|)] for the x-coordinates when
    [height / h < width / w], [floor(0.5 * |height - h * r|)] for the
    y-coordinates when [width / w < height / h], and zero otherwise, and
    clipped x to [[0, width - 1]] and y to [[0, height - 1]]; ['bbox'] holds
    the result in [x, y, w, h] layout, ['area'] is multiplied by what the
    runtime's power [r ** 2] gives and padded, and ['height'] and ['width']
    are overwritten with the targets. *)
Theorem centernet_transforms_boxes (image : value) (height width max_pad : Z)
    (d : bundle) (h0 w0 : Z) (l1 l2 l3 l4 la : list float)
    (image' : value) (s' : option bundle) :
  is_Some (d !! "num_boxes") ->
  d !! "height" = Some (VI (scalar h0)) ->
  d !! "width" = Some (VI (scalar w0)) ->
  d !! "xmin" = Some (VF (vector l1)) -> d !! "xmax" = Some (VF (vector l2)) ->
  d !! "ymin" = Some (VF (vector l3)) -> d !! "ymax" = Some (VF (vector l4)) ->
  d !! "area" = Some (VF (vector la)) ->
  (0 < h0 < 2 ^ 20)%Z -> (0 < w0 < 2 ^ 20)%Z ->
  (0 < height < 2 ^ 20)%Z -> (0 < width < 2 ^ 20)%Z ->
  centernet_resnet_v1_18_detection image (Some height) (Some width) max_pad
    (Some d) = (inr image', s') ->
  let r := fmin (F32.div (F32.of_Z height) (F32.of_Z h0))
             (F32.div (F32.of_Z width) (F32.of_Z w0)) in
  ∃ d', s' = Some d'
    ∧ d' !! "bbox"
      = Some (VF (layout (centernet_transform h0 w0 height width max_pad)
                    l1 l2 l3 l4))
    ∧ d' !! "area"
      = Some (VF (column (padded max_pad
                            ((λ a, F32.mul (tf_pow r (F32.of_Z 2)) a)
                               <$> la))))
    ∧ d' !! "height" = Some (VInt height)
    ∧ d' !! "width" = Some (VInt width).
Proof.
  intros Hn Hdh Hdw H1 H2 H3 H4 Ha Hh0 Hw0 Hh Hw Hrun r.
  rewrite <- (centernet_law_transform h0 w0 height width max_pad) by done.
  refine (wp_elim _ _ (λ _ s', ∃ d', s' = Some d' ∧ _) _ _ _ Hrun).
  apply centernet_run; try done.
  - by rewrite Hdw.
  - by rewrite Hdh.
Qed.

End CenternetTheorem.

Lemma centernet_transforms_boxes_witness :
  let r := fmin (F32.div (F32.of_Z 4) (F32.of_Z 2))
             (F32.div (F32.of_Z 4) (F32.of_Z 3)) in
  ∃ d', snd (centernet_resnet_v1_18_detection (H := sample_runtime)
               sample_image (Some 4%Z) (Some 4%Z) 100 (Some sample_bundle))
        = Some d'
    ∧ d' !! "bbox"
      = Some (VF (layout (centernet_transform 2 3 4 4 100)
                    [Fin (1 # 4); Fin (1 # 2)] [Fin (1 # 2); Fin 1]
                    [Fin (1 # 4); Fin (1 # 2)] [Fin (3 # 4); Fin 1]))
    ∧ d' !! "area"
      = Some (VF (column (padded 100
                            ((λ a, F32.mul
                                     (tf_pow (Runtime := sample_runtime) r
                                        (F32.of_Z 2)) a)
                               <$> [Fin 1; Fin 2]))))
    ∧ d' !! "height" = Some (VInt 4)
    ∧ d' !! "width" = Some (VInt 4).
Proof.
  apply (centernet_transforms_boxes (H := sample_runtime) sample_image 4 4
           100 sample_bundle 2 3
           [Fin (1 # 4); Fin (1 # 2)] [Fin (1 # 2); Fin 1]
           [Fin (1 # 4); Fin (1 # 2)] [Fin (3 # 4); Fin 1] [Fin 1; Fin 2]
           (returned (centernet_resnet_v1_18_detection (H := sample_runtime)
                        sample_image (Some 4%Z) (Some 4%Z) 100
                        (Some sample_bundle)) VNone)).
  - vm_compute. eauto.
  - reflexivity.
  - reflexivity.
  - reflexivity.
  - reflexivity.
  - reflexivity.
  - reflexivity.
  - reflexivity.
  - lia.
  - lia.
  - lia.
  - lia.
  - reflexivity.
Defined.

(** ** The casts of [_cast_image_info_types] *)

(** X18.  [_cast_image_info_types], when it returns: ['img_orig'] holds the
    image cast to unsigned bytes; ['num_boxes'], if present, holds its old
    value cast to [int32]; ['category_id'] and ['is_crowd'], if present,
    hold their old values padded to [max_padding_length]; no other key is
    changed, no key is removed, and ['img_orig'] is the only key that can
    be new. *)
Theorem cast_image_info_types_effect (image : value) (n : Z) (d : bundle)
    (s' : option bundle) :
  _cast_image_info_types image n (Some d) = (inr (), s') ->
  ∃ d' t,
    s' = Some d'
    ∧ cast_uint8 image = inr t ∧ d' !! "img_orig" = Some (VU8 t)
    ∧ (∀ v, d !! "num_boxes" = Some v ->
         ∃ b, cast_int32 v = inr b ∧ d' !! "num_boxes" = Some (VI b))
    ∧ (∀ v, d !! "category_id" = Some v ->
         ∃ p, pad_value v n = inr p ∧ d' !! "category_id" = Some p)
    ∧ (∀ v, d !! "is_crowd" = Some v ->
         ∃ p, pad_value v n = inr p ∧ d' !! "is_crowd" = Some p)
    ∧ frame ["img_orig"; "num_boxes"; "category_id"; "is_crowd"] d d'
    ∧ (∀ k, k ≠ "img_orig" -> is_Some (d' !! k) <-> is_Some (d !! k)).
Proof.
  intros Hrun.
  refine (wp_elim _ _ (λ _ s', ∃ d' t, s' = Some d' ∧ _) _ _ _ Hrun).
  unfold _cast_image_info_types. wp_run.
  all: eexists _, _; split; [reflexivity|]; split; [eassumption|].
  all: split; [by map_simpl|].
  all: repeat match goal with
         | Hb : bool_decide _ = true |- _ => clear Hb
         | Hb : bool_decide _ = false |- _ =>
             apply bool_decide_eq_false_1 in Hb;
             rewrite <- eq_None_not_Some in Hb
         end.
  all: split_and!.
  all: try (intros ? ?; same_key;
            first [ congruence
                  | eexists; split; [eassumption|by map_simpl] ]).
  all: try (intros k Hk; rewrite !not_elem_of_cons in Hk; destruct_and!;
            by map_simpl).
  all: intros k Hk.
  all: destruct (decide (k = "num_boxes")) as [->|?];
    [|destruct (decide (k = "category_id")) as [->|?];
      [|destruct (decide (k = "is_crowd")) as [->|?]]].
  all: map_simpl; try done.
  all: split; intros _; eauto.
Qed.

Lemma cast_image_info_types_effect_witness :
  ∃ d' t,
    snd (_cast_image_info_types sample_image 100 (Some sample_bundle)) = Some d'
    ∧ cast_uint8 sample_image = inr t ∧ d' !! "img_orig" = Some (VU8 t)
    ∧ (∀ v, sample_bundle !! "num_boxes" = Some v ->
         ∃ b, cast_int32 v = inr b ∧ d' !! "num_boxes" = Some (VI b))
    ∧ (∀ v, sample_bundle !! "category_id" = Some v ->
         ∃ p, pad_value v 100 = inr p ∧ d' !! "category_id" = Some p)
    ∧ (∀ v, sample_bundle !! "is_crowd" = Some v ->
         ∃ p, pad_value v 100 = inr p ∧ d' !! "is_crowd" = Some p)
    ∧ frame ["img_orig"; "num_boxes"; "category_id"; "is_crowd"]
        sample_bundle d'
    ∧ (∀ k, k ≠ "img_orig" ->
         is_Some (d' !! k) <-> is_Some (sample_bundle !! k)).
Proof.
  apply (cast_image_info_types_effect sample_image 100 sample_bundle).
  reflexivity.
Defined.

(** ** A failed extraction is not rolled back *)

Lemma run_bind_raise {A B} (m : M A) (f : A -> M B) s e s' :
  m s = (inl e, s') -> (m ≫= f) s = (inl e, s').
Proof. unfold mbind, M_mbind, M_bind. by intros ->. Qed.

Lemma column_ok (l : list float) (n : Z) :
  (Z.of_nat (length l) <= n)%Z -> n ≠ 1%Z ->
  (x ← as_float (VF (vector l));
   y ← scale x None;
   p ← _pad_tensor y n;
   expand_dims p 1) = inr (column (padded n (scale_by None <$> l))).
Proof.
  intros Hl Hn. cbn [as_float]. rewrite E_bind_inr.
  assert (scale (vector l) None = inr (vector (scale_by None <$> l))) as Hs.
  { unfold scale, vector, tmap. cbn [shape data]. by rewrite length_fmap. }
  rewrite Hs, E_bind_inr. rewrite pad_tensor_ok by (by rewrite length_fmap).
  rewrite decide_False by done. rewrite E_bind_inr.
  unfold expand_dims, rank. cbn [shape data length].
  rewrite decide_True by lia. cbn [take drop app].
  unfold column. rewrite length_padded by (by rewrite length_fmap).
  reflexivity.
Qed.

(** X19.  [_extract_box_from_image_info] pops the coordinate keys one after
    the other, in the caller's dictionary: when ['xmin'] is there and
    ['xmax'] is not, the call raises [KeyError('xmax')] and leaves the
    dictionary without ['xmin']. *)
Theorem extract_box_failure_is_not_rolled_back (n : Z) (d : bundle)
    (l1 : list float) :
  d !! "xmin" = Some (VF (vector l1)) ->
  (Z.of_nat (length l1) <= n)%Z -> n ≠ 1%Z ->
  d !! "xmax" = None ->
  _extract_box_from_image_info n false (Some d)
  = (inl (KeyError "xmax"), Some (delete "xmin" d)).
Proof.
  intros H1 Hl Hn H2. unfold _extract_box_from_image_info.
  rewrite (run_bind (mret None) _ (Some d) None (Some d)) by done.
  rewrite (run_bind (mret None) _ (Some d) None (Some d)) by done.
  erewrite run_bind; cycle 1.
  { erewrite run_bind by (by apply run_pop).
    apply run_call. by apply column_ok. }
  apply run_bind_raise, run_bind_raise.
  unfold pop. by rewrite lookup_delete_ne, H2 by done.
Qed.

Lemma extract_box_failure_is_not_rolled_back_witness :
  _extract_box_from_image_info 100 false
    (Some (delete "xmax" sample_bundle))
  = (inl (KeyError "xmax"),
     Some (delete "xmin" (delete "xmax" sample_bundle))).
Proof.
  apply (extract_box_failure_is_not_rolled_back 100
           (delete "xmax" sample_bundle) [Fin (1 # 4); Fin (1 # 2)]).
  - reflexivity.
  - simpl. lia.
  - lia.
  - apply lookup_delete_eq.
Defined.

(** ** A padding length of one *)

(** After padding to one entry nothing is left of the tensor's axes once
    [tf.squeeze] has run, and [tf.expand_dims(..., axis=1)] has no axis 1 to
    insert at. *)
Lemma pad_expand_bound_one {A} `{Sentinel A} (y c : tensor A) :
  (p ← _pad_tensor y 1; expand_dims p 1) ≠ inr c.
Proof.
  intros Hc. apply E_bind_inv in Hc as (p & Hp & Hc).
  unfold _pad_tensor in Hp.
  apply E_bind_inv in Hp as (n & Hn & Hp).
  apply E_bind_inv in Hp as (x' & Hx & Hp).
  apply E_bind_inv in Hp as (q & Hq & Hp).
  injection Hp as <-.
  unfold expand_dims in Hx. destruct (decide _) in Hx; [|done].
  injection Hx as <-. cbn [take drop app] in Hq.
  unfold pad, rank in Hq. cbn [shape data length] in Hq.
  destruct (decide _) as [Hr|] in Hq; [|done].
  destruct (forallb _ _) eqn:Hpos in Hq; [|done].
  injection Hq as <-.
  destruct (shape y) as [|k [|? ?]] eqn:Hs; try done.
  unfold dim in Hn. rewrite Hs in Hn. injection Hn as <-.
  cbn [forallb fst snd] in Hpos.
  rewrite !andb_true_r, andb_true_l in Hpos. apply Z.leb_le in Hpos.
  unfold expand_dims, squeeze, rank in Hc.
  cbn [shape data fmap list_fmap padded_shape zip_with fst snd Z.to_nat]
    in Hc.
  destruct k as [|[|k]]; [| |lia].
  all: destruct (decide _) as [Hd|] in Hc; [|done].
  all: vm_compute in Hd; lia.
Qed.

Ltac bound_one :=
  let rec peel H :=
    lazymatch type of H with
    | (_pad_tensor _ 1 ≫= _) = inr _ =>
        exfalso; exact (pad_expand_bound_one _ _ H)
    | (_ ≫= _) = inr _ =>
        let H' := fresh in
        apply E_bind_inv in H as (? & _ & H'); cbv beta zeta in H'; peel H'
    end in
  match goal with
  | H : (_ ≫= _) = inr _ |- _ => peel H
  end.

Ltac raise_bound_one :=
  repeat first
    [ bound_one
    | progress cbv beta zeta
    | apply raises_local
    | apply raises_bind
    | match goal with
      | |- raises ((if ?b then _ else _) _) => destruct b eqn:?
      | |- raises ((let '(_, _) := ?p in _) _) => destruct p
      end
    | lazymatch goal with
      | |- wp (_cast_image_info_types _ _) (Some _) _ =>
          apply wp_cast; intros ? ?
      | _ => wp_step
      end ].

Section BoundOne.
Context `{Runtime}.

(** X20.  With [max_pad = 1] the annotation path of the eight functions that
    pad the box coordinates to [max_pad] always raises: a coordinate vector
    with at most one entry leaves [_pad_tensor] without any axis, so
    [tf.expand_dims(..., axis=1)] fails, and a longer one cannot be padded.
    [yolo_v3] and [yolo_v5] pad to [MAX_PADDING_LENGTH] and are not
    concerned. *)
Theorem padding_to_one_always_raises (m : model) (image : value)
    (height width : option Z) (color : list Q) (d : bundle) :
  pads_boxes_to_max_pad m = true ->
  annotated m d ->
  raises (preprocess m image height width 1 color (Some d)).
Proof.
  intros Hm Ha.
  destruct m; try discriminate Hm; cbn [preprocess annotated] in Ha |- *.
  all: unfold centernet_resnet_v1_18_detection, resnet_v1_18_detection,
    regnet_detection, mobilenet_ssd, mobilenet_ssd_ar_preserving, face_ssd,
    retinaface, fair_mot, _extract_box_from_image_info.
  all: raise_bound_one.
  all: destruct_and?; known.
Qed.

End BoundOne.

Lemma padding_to_one_always_raises_witness :
  raises (preprocess (H := sample_runtime) ResnetV1_18 sample_image
            (Some 4%Z) (Some 4%Z) 1 yolo_v5_color (Some sample_bundle)).
Proof.
  apply (padding_to_one_always_raises (H := sample_runtime) ResnetV1_18
           sample_image (Some 4%Z) (Some 4%Z) yolo_v5_color sample_bundle).
  - reflexivity.
  - vm_compute. eauto.
Defined.
